(** * EditableVectorLayer: overlay handles, point mutators and the drag protocol

    A shallow embedding of [all/native/layers/EditableVectorLayer.cpp].

    Conventions of the embedding.
    - [shared_ptr<T>] is [option] of a value or of an address; [None] is the null
      pointer.  Vector elements and overlay points have identity: a vector element
      is an address into the store [elements], an overlay point carries its address
      [pt_addr] next to its fields, and pointer comparison compares addresses.
      The children of a [MultiGeometry] are not null.
    - [int] is [Z]; [static_cast<int>] of a [size_t] is [static_cast_int].  Signed
      arithmetic on offsets and indices is exact (its overflow is undefined
      behaviour in the source), and so is the arithmetic on [size_t].  [%] and
      [/] are [Z.rem] and [Z.quot].
    - The layer's methods run in the monad [M]: they thread the [World] and may
      yield [None], which stands for undefined behaviour of the source (a vector
      iterator or subscript out of range).
    - Coordinates are compared with [MapPos::operator==]; positions are taken
      NaN-free, so that this comparison is decidable equality.
    - Projection, view state, styles and ray casting belong to collaborators of
      the layer; they are the fields of [Collaborators] and the [RayIntersections]
      given to the touch handler.  Listener callbacks are functions of their
      arguments and act on the element store only; they do not call back into
      the layer.  The world keeps the list of the calls that leave the layer.
      Draw data and the overlay renderer's element list are rendering state and
      are left out, and so is the mutex: every method runs alone.

    The file has the model first ([Section Layer]), then the vocabulary of the
    statements and a sample instance, then the properties and their instances
    on the sample, and last the further properties ([Section Coverage]) with
    theirs. *)

From Stdlib Require Import ZArith Lia.
From stdpp Require Import base option list.

Set Warnings "-register-all".
#[local] Open Scope Z_scope.

(** ** Collaborators *)

Class Collaborators := {
  MapPos : Type;
  #[global] MapPos_eq_dec :: EqDecision MapPos;
  (** [MapPos()] *)
  MapPos_default : MapPos;
  ScreenPos : Type;
  (** [cglib::vec3<double>] *)
  WorldPos : Type;
  PointStyle : Type;
  ProjectionSurface : Type;
  ViewState : Type;
  (** [viewState.screenToWorld(cglib::vec2<float>(x, y), 0)] *)
  screenToWorld : ViewState → ScreenPos → WorldPos;
  (** [std::isnan(cglib::norm(worldPos))] *)
  norm_isnan : WorldPos → bool;
  (** [projection->fromInternal(projectionSurface->calculateMapPos(worldPos))] *)
  worldToMapPos : ProjectionSurface → WorldPos → MapPos;
  (** the map position half way between two map positions on the surface
      ([calculateTranslateMatrix(pos0, pos1, 0.5f)] applied to [pos0]) *)
  midMapPos : ProjectionSurface → MapPos → MapPos → MapPos;
  (** [updateMapPos] of [updateGeometryPoints]: the position moved by the
      translation that takes [mapPos0] to [mapPos1] *)
  translateMapPos : ProjectionSurface → MapPos → MapPos → MapPos → MapPos;
  (** [viewState.getProjectionSurface()] *)
  ViewState_getProjectionSurface : ViewState → option ProjectionSurface
}.

(** ** std::vector and int *)

(** [static_cast<int>] of an unsigned value: reduction to 32 bits, two's complement. *)
Definition static_cast_int (n : Z) : Z := (n + 2 ^ 31) mod 2 ^ 32 - 2 ^ 31.

(** [std::numeric_limits<int>::max()] *)
Definition INT_MAX : Z := 2 ^ 31 - 1.

(** [v.size()] *)
Definition size {A} (v : list A) : Z := Z.of_nat (length v).

(** [v[i] = x] *)
Definition vec_set {A} (v : list A) (i : Z) (x : A) : option (list A) :=
  if bool_decide (0 ≤ i < size v) then Some (<[Z.to_nat i := x]> v) else None.

(** [v[i]] *)
Definition vec_get {A} (v : list A) (i : Z) : option A :=
  if bool_decide (0 ≤ i) then v !! Z.to_nat i else None.

(** [v.insert(v.begin() + i, x)] *)
Definition vec_insert {A} (v : list A) (i : Z) (x : A) : option (list A) :=
  if bool_decide (0 ≤ i ≤ size v)
  then Some (take (Z.to_nat i) v ++ x :: drop (Z.to_nat i) v) else None.

(** [v.erase(v.begin() + i)] *)
Definition vec_erase {A} (v : list A) (i : Z) : option (list A) :=
  if bool_decide (0 ≤ i < size v) then Some (delete (Z.to_nat i) v) else None.

(** [v.back() = v.front()] *)
Definition vec_back_gets_front {A} (v : list A) : option (list A) :=
  match head v with
  | Some x => Some (<[Nat.pred (length v) := x]> v)
  | None => None
  end.

Section Layer.
Context `{Collaborators}.

(** ** Data model *)

Inductive Geometry :=
| PointGeometry (pos : MapPos)
| LineGeometry (poses : list MapPos)
| PolygonGeometry (rings : list (list MapPos))
| MultiGeometry (geometries : list Geometry).

(** [!ring.empty() && ring.front() == ring.back()] *)
Definition closedRing (ring : list MapPos) : bool :=
  match head ring, last ring with
  | Some front, Some back => bool_decide (front = back)
  | _, _ => false
  end.

(** A [Point] vector element used as overlay handle. *)
Record Point := {
  pt_addr : nat;
  getPos : MapPos;
  getStyle : option PointStyle
}.

Record VectorElement := {
  getId : Z;
  getGeometry : option Geometry;
  isVisible : bool
}.

Definition ElementPtr := nat.
Definition PointPtr := nat.

Inductive VectorElementDragMode :=
| VECTOR_ELEMENT_DRAG_MODE_VERTEX
| VECTOR_ELEMENT_DRAG_MODE_ELEMENT.

Inductive VectorElementDragResult :=
| VECTOR_ELEMENT_DRAG_RESULT_IGNORE
| VECTOR_ELEMENT_DRAG_RESULT_STOP
| VECTOR_ELEMENT_DRAG_RESULT_MODIFY
| VECTOR_ELEMENT_DRAG_RESULT_DELETE.

Inductive VectorElementDragPointStyle :=
| VECTOR_ELEMENT_DRAG_POINT_STYLE_NORMAL
| VECTOR_ELEMENT_DRAG_POINT_STYLE_VIRTUAL
| VECTOR_ELEMENT_DRAG_POINT_STYLE_SELECTED.

Record VectorElementDragInfo := {
  getVectorElement : ElementPtr;
  getDragMode : VectorElementDragMode;
  getScreenPos : ScreenPos;
  getMapPos : MapPos
}.

Definition ElementStore := ElementPtr → VectorElement.

(** The edit policy.  [onElementModify] and [onElementDelete] are given by their
    effect on the element store. *)
Record VectorEditEventListener := {
  onElementSelect : ElementPtr → bool;
  onSelectDragPointStyle : ElementPtr → VectorElementDragPointStyle → option PointStyle;
  onDragStart : VectorElementDragInfo → VectorElementDragResult;
  onDragMove : VectorElementDragInfo → VectorElementDragResult;
  onDragEnd : VectorElementDragInfo → VectorElementDragResult;
  onElementModify : ElementPtr → option Geometry → ElementStore → ElementStore;
  onElementDelete : ElementPtr → ElementStore → ElementStore
}.

Record MapRenderer := {
  getProjectionSurface : option ProjectionSurface;
  getViewState : ViewState
}.

Record EditableVectorLayer := {
  getMapRenderer : option MapRenderer;
  _selectedVectorElement : option ElementPtr;
  _overlayStyleNormal : option PointStyle;
  _overlayStyleVirtual : option PointStyle;
  _overlayStyleSelected : option PointStyle;
  _overlayPoints : list Point;
  _overlayDragPoint : option PointPtr;
  _overlayDragGeometry : option Geometry;
  _overlayDragGeometryPos : MapPos;
  _overlayDragStarted : bool;
  _overlayDragMode : VectorElementDragMode;
  _vectorEditEventListener : option VectorEditEventListener
}.

(** Calls that leave the layer. *)
Inductive Call :=
| CallOnElementSelect (element : ElementPtr)
| CallOnElementDeselected (element : ElementPtr)
| CallOnSelectDragPointStyle (element : ElementPtr) (style : VectorElementDragPointStyle)
| CallOnDragStart (dragInfo : VectorElementDragInfo)
| CallOnDragMove (dragInfo : VectorElementDragInfo)
| CallOnDragEnd (dragInfo : VectorElementDragInfo)
| CallOnElementModify (element : ElementPtr) (geometry : option Geometry)
| CallOnElementDelete (element : ElementPtr)
| CallRefresh
| CallRedraw.

Record World := {
  layer : EditableVectorLayer;
  elements : ElementStore;
  (** the next address [std::make_shared<Point>] hands out *)
  next_point : PointPtr;
  (** the calls made so far, oldest first *)
  calls : list Call
}.

(** ** The monad of the layer's methods *)

Definition M (A : Type) : Type := World → option (A * World).

Definition ret {A} (a : A) : M A := λ w, Some (a, w).

Definition bind {A B} (m : M A) (k : A → M B) : M B :=
  λ w, match m w with
       | Some (a, w') => k a w'
       | None => None
       end.

(** undefined behaviour *)
Definition undefined {A} : M A := λ _, None.

Definition lift {A} (o : option A) : M A :=
  λ w, match o with Some a => Some (a, w) | None => None end.

Definition gets {A} (f : EditableVectorLayer → A) : M A := λ w, Some (f (layer w), w).

Definition modify (f : EditableVectorLayer → EditableVectorLayer) : M unit :=
  λ w, Some (tt, {| layer := f (layer w); elements := elements w;
                   next_point := next_point w; calls := calls w |}).

Definition call (c : Call) : M unit :=
  λ w, Some (tt, {| layer := layer w; elements := elements w;
                   next_point := next_point w; calls := calls w ++ [c] |}).

Definition deref (element : ElementPtr) : M VectorElement :=
  λ w, Some (elements w element, w).

Definition modify_elements (f : ElementStore → ElementStore) : M unit :=
  λ w, Some (tt, {| layer := layer w; elements := f (elements w);
                   next_point := next_point w; calls := calls w |}).

(** [std::make_shared<Point>(mapPos, style)] *)
Definition make_shared_Point (mapPos : MapPos) (style : option PointStyle) : M Point :=
  λ w, Some ({| pt_addr := next_point w; getPos := mapPos; getStyle := style |},
             {| layer := layer w; elements := elements w;
                next_point := S (next_point w); calls := calls w |}).

Notation "x <- m ;; k" := (bind m (λ x, k))
  (at level 20, m at level 99, k at level 200, only parsing).
Notation "' p <- m ;; k" := (bind m (λ x, let 'p := x in k))
  (at level 20, p pattern, m at level 99, k at level 200, only parsing).

(** Assignments to the layer's fields. *)

Definition set_selectedVectorElement (v : option ElementPtr) (l : EditableVectorLayer) :=
  {| getMapRenderer := getMapRenderer l; _selectedVectorElement := v;
     _overlayStyleNormal := _overlayStyleNormal l;
     _overlayStyleVirtual := _overlayStyleVirtual l;
     _overlayStyleSelected := _overlayStyleSelected l;
     _overlayPoints := _overlayPoints l; _overlayDragPoint := _overlayDragPoint l;
     _overlayDragGeometry := _overlayDragGeometry l;
     _overlayDragGeometryPos := _overlayDragGeometryPos l;
     _overlayDragStarted := _overlayDragStarted l; _overlayDragMode := _overlayDragMode l;
     _vectorEditEventListener := _vectorEditEventListener l |}.

Definition set_overlayStyles (normal virtual selected : option PointStyle)
    (l : EditableVectorLayer) :=
  {| getMapRenderer := getMapRenderer l;
     _selectedVectorElement := _selectedVectorElement l;
     _overlayStyleNormal := normal; _overlayStyleVirtual := virtual;
     _overlayStyleSelected := selected;
     _overlayPoints := _overlayPoints l; _overlayDragPoint := _overlayDragPoint l;
     _overlayDragGeometry := _overlayDragGeometry l;
     _overlayDragGeometryPos := _overlayDragGeometryPos l;
     _overlayDragStarted := _overlayDragStarted l; _overlayDragMode := _overlayDragMode l;
     _vectorEditEventListener := _vectorEditEventListener l |}.

Definition set_overlayPoints (v : list Point) (l : EditableVectorLayer) :=
  {| getMapRenderer := getMapRenderer l;
     _selectedVectorElement := _selectedVectorElement l;
     _overlayStyleNormal := _overlayStyleNormal l;
     _overlayStyleVirtual := _overlayStyleVirtual l;
     _overlayStyleSelected := _overlayStyleSelected l;
     _overlayPoints := v; _overlayDragPoint := _overlayDragPoint l;
     _overlayDragGeometry := _overlayDragGeometry l;
     _overlayDragGeometryPos := _overlayDragGeometryPos l;
     _overlayDragStarted := _overlayDragStarted l; _overlayDragMode := _overlayDragMode l;
     _vectorEditEventListener := _vectorEditEventListener l |}.

Definition set_overlayDragPoint (v : option PointPtr) (l : EditableVectorLayer) :=
  {| getMapRenderer := getMapRenderer l;
     _selectedVectorElement := _selectedVectorElement l;
     _overlayStyleNormal := _overlayStyleNormal l;
     _overlayStyleVirtual := _overlayStyleVirtual l;
     _overlayStyleSelected := _overlayStyleSelected l;
     _overlayPoints := _overlayPoints l; _overlayDragPoint := v;
     _overlayDragGeometry := _overlayDragGeometry l;
     _overlayDragGeometryPos := _overlayDragGeometryPos l;
     _overlayDragStarted := _overlayDragStarted l; _overlayDragMode := _overlayDragMode l;
     _vectorEditEventListener := _vectorEditEventListener l |}.

Definition set_overlayDragGeometry (v : option Geometry) (l : EditableVectorLayer) :=
  {| getMapRenderer := getMapRenderer l;
     _selectedVectorElement := _selectedVectorElement l;
     _overlayStyleNormal := _overlayStyleNormal l;
     _overlayStyleVirtual := _overlayStyleVirtual l;
     _overlayStyleSelected := _overlayStyleSelected l;
     _overlayPoints := _overlayPoints l; _overlayDragPoint := _overlayDragPoint l;
     _overlayDragGeometry := v;
     _overlayDragGeometryPos := _overlayDragGeometryPos l;
     _overlayDragStarted := _overlayDragStarted l; _overlayDragMode := _overlayDragMode l;
     _vectorEditEventListener := _vectorEditEventListener l |}.

Definition set_overlayDragGeometryPos (v : MapPos) (l : EditableVectorLayer) :=
  {| getMapRenderer := getMapRenderer l;
     _selectedVectorElement := _selectedVectorElement l;
     _overlayStyleNormal := _overlayStyleNormal l;
     _overlayStyleVirtual := _overlayStyleVirtual l;
     _overlayStyleSelected := _overlayStyleSelected l;
     _overlayPoints := _overlayPoints l; _overlayDragPoint := _overlayDragPoint l;
     _overlayDragGeometry := _overlayDragGeometry l;
     _overlayDragGeometryPos := v;
     _overlayDragStarted := _overlayDragStarted l; _overlayDragMode := _overlayDragMode l;
     _vectorEditEventListener := _vectorEditEventListener l |}.

Definition set_overlayDragStarted (v : bool) (l : EditableVectorLayer) :=
  {| getMapRenderer := getMapRenderer l;
     _selectedVectorElement := _selectedVectorElement l;
     _overlayStyleNormal := _overlayStyleNormal l;
     _overlayStyleVirtual := _overlayStyleVirtual l;
     _overlayStyleSelected := _overlayStyleSelected l;
     _overlayPoints := _overlayPoints l; _overlayDragPoint := _overlayDragPoint l;
     _overlayDragGeometry := _overlayDragGeometry l;
     _overlayDragGeometryPos := _overlayDragGeometryPos l;
     _overlayDragStarted := v; _overlayDragMode := _overlayDragMode l;
     _vectorEditEventListener := _vectorEditEventListener l |}.

Definition set_overlayDragMode (v : VectorElementDragMode) (l : EditableVectorLayer) :=
  {| getMapRenderer := getMapRenderer l;
     _selectedVectorElement := _selectedVectorElement l;
     _overlayStyleNormal := _overlayStyleNormal l;
     _overlayStyleVirtual := _overlayStyleVirtual l;
     _overlayStyleSelected := _overlayStyleSelected l;
     _overlayPoints := _overlayPoints l; _overlayDragPoint := _overlayDragPoint l;
     _overlayDragGeometry := _overlayDragGeometry l;
     _overlayDragGeometryPos := _overlayDragGeometryPos l;
     _overlayDragStarted := _overlayDragStarted l; _overlayDragMode := v;
     _vectorEditEventListener := _vectorEditEventListener l |}.

Definition set_vectorEditEventListener (v : option VectorEditEventListener)
    (l : EditableVectorLayer) :=
  {| getMapRenderer := getMapRenderer l;
     _selectedVectorElement := _selectedVectorElement l;
     _overlayStyleNormal := _overlayStyleNormal l;
     _overlayStyleVirtual := _overlayStyleVirtual l;
     _overlayStyleSelected := _overlayStyleSelected l;
     _overlayPoints := _overlayPoints l; _overlayDragPoint := _overlayDragPoint l;
     _overlayDragGeometry := _overlayDragGeometry l;
     _overlayDragGeometryPos := _overlayDragGeometryPos l;
     _overlayDragStarted := _overlayDragStarted l;
     _overlayDragMode := _overlayDragMode l;
     _vectorEditEventListener := v |}.

(** ** Overlay points *)

(** [createOverlayPoint]: the point object at [index] of [_overlayPoints] is
    reused and rewritten in place when there is one, a new one is made
    otherwise. *)
Definition createOverlayPoint (mapPos : MapPos) (virtualPoint : bool) (index : Z) : M Point :=
  overlayPoints <- gets _overlayPoints ;;
  if bool_decide (0 ≤ index) && bool_decide (index < static_cast_int (size overlayPoints))
  then
    overlayPoint <- lift (vec_get overlayPoints index) ;;
    dragPoint <- gets _overlayDragPoint ;;
    style <- gets (λ l, if bool_decide (Some (pt_addr overlayPoint) = dragPoint)
                        then _overlayStyleSelected l
                        else if virtualPoint then _overlayStyleVirtual l
                             else _overlayStyleNormal l) ;;
    let overlayPoint :=
      {| pt_addr := pt_addr overlayPoint; getPos := mapPos; getStyle := style |} in
    _ <- modify (set_overlayPoints (<[Z.to_nat index := overlayPoint]> overlayPoints)) ;;
    ret overlayPoint
  else
    style <- gets (λ l, if virtualPoint then _overlayStyleVirtual l
                        else _overlayStyleNormal l) ;;
    make_shared_Point mapPos style.

(** The loop over the vertices of a line; [prev] is [mapPoses[i - 1]] once [i > 0]. *)
Fixpoint lineOverlayPoints (projectionSurface : ProjectionSurface) (prev : option MapPos)
    (mapPoses : list MapPos) (index : Z) (overlayPoints : list Point) : M (Z * list Point) :=
  match mapPoses with
  | [] => ret (index, overlayPoints)
  | mapPos :: rest =>
    '(index, overlayPoints) <-
      match prev with
      | Some prevMapPos =>
        p <- createOverlayPoint (midMapPos projectionSurface prevMapPos mapPos) true index ;;
        ret (index + 1, overlayPoints ++ [p])
      | None => ret (index, overlayPoints)
      end ;;
    p <- createOverlayPoint mapPos false index ;;
    lineOverlayPoints projectionSurface (Some mapPos) rest (index + 1) (overlayPoints ++ [p])
  end.

(** The loop over the vertices of one polygon ring; [todo] holds the values [i] still takes. *)
Fixpoint ringOverlayPoints (projectionSurface : ProjectionSurface) (ring : list MapPos)
    (todo : list nat) (index : Z) (overlayPoints : list Point) : M (Z * list Point) :=
  match todo with
  | [] => ret (index, overlayPoints)
  | i :: todo =>
    mapPos <- lift (ring !! i) ;;
    p <- createOverlayPoint mapPos false index ;;
    nextMapPos <- lift (ring !! (if bool_decide (i + 1 < length ring)%nat
                                 then (i + 1)%nat else 0%nat)) ;;
    q <- createOverlayPoint (midMapPos projectionSurface mapPos nextMapPos) true (index + 1) ;;
    ringOverlayPoints projectionSurface ring todo (index + 2) (overlayPoints ++ [p; q])
  end.

Fixpoint polygonOverlayPoints (projectionSurface : ProjectionSurface)
    (rings : list (list MapPos)) (index : Z) (overlayPoints : list Point)
    : M (Z * list Point) :=
  match rings with
  | [] => ret (index, overlayPoints)
  | ring :: rings =>
    '(index, overlayPoints) <-
      ringOverlayPoints projectionSurface ring
        (seq 0 (length ring - (if closedRing ring then 1 else 0))) index overlayPoints ;;
    polygonOverlayPoints projectionSurface rings index overlayPoints
  end.

Fixpoint createGeometryOverlayPoints (geometry : Geometry) (index : Z)
    (overlayPoints : list Point) {struct geometry} : M (Z * list Point) :=
  mapRenderer <- gets getMapRenderer ;;
  match mapRenderer with
  | None => ret (index, overlayPoints)
  | Some mapRenderer =>
    match getProjectionSurface mapRenderer with
    | None => ret (index, overlayPoints)
    | Some projectionSurface =>
      match geometry with
      | PointGeometry mapPos =>
        p <- createOverlayPoint mapPos false index ;;
        ret (index + 1, overlayPoints ++ [p])
      | LineGeometry mapPoses =>
        lineOverlayPoints projectionSurface None mapPoses index overlayPoints
      | PolygonGeometry rings =>
        polygonOverlayPoints projectionSurface rings index overlayPoints
      | MultiGeometry geometries =>
        (fix children (geometries : list Geometry) (index : Z) (overlayPoints : list Point)
           : M (Z * list Point) :=
           match geometries with
           | [] => ret (index, overlayPoints)
           | geometry :: geometries =>
             '(index, overlayPoints) <-
               createGeometryOverlayPoints geometry index overlayPoints ;;
             children geometries index overlayPoints
           end) geometries index overlayPoints
      end
    end
  end.

(** [syncElementOverlayPoints]; a null geometry is none of the four classes and
    gives no point. *)
Definition syncElementOverlayPoints (element : option ElementPtr) : M unit :=
  overlayPoints <-
    match element with
    | Some element =>
      e <- deref element ;;
      if isVisible e then
        match getGeometry e with
        | Some geometry =>
          '(_, overlayPoints) <- createGeometryOverlayPoints geometry 0 [] ;;
          ret overlayPoints
        | None => ret []
        end
      else ret []
    | None => ret []
    end ;;
  modify (set_overlayPoints overlayPoints).

(** ** Point update *)

(** The two [_overlayPoints.insert] statements of an odd local index: a virtual
    point at [index + 1], then a real one at [index - 0]. *)
Definition insertOverlayPoints (index : Z) (mapPos : MapPos) : M unit :=
  p <- createOverlayPoint mapPos true INT_MAX ;;
  overlayPoints <- gets _overlayPoints ;;
  overlayPoints <- lift (vec_insert overlayPoints (index + 1) p) ;;
  _ <- modify (set_overlayPoints overlayPoints) ;;
  q <- createOverlayPoint mapPos false INT_MAX ;;
  overlayPoints <- gets _overlayPoints ;;
  overlayPoints <- lift (vec_insert overlayPoints (index - 0) q) ;;
  modify (set_overlayPoints overlayPoints).

(** The loop over the rings of [updateGeometryPoint].  [done] are the rings
    already passed and [todo] the ring at hand and those after it.  The result
    is the vector [rings] when a ring took the index ([geometry] is assigned),
    with [offset] and [points] as the loop leaves them. *)
Fixpoint updateRings (done todo : list (list MapPos)) (offset points index : Z)
    (mapPos : MapPos) : M (option (list (list MapPos)) * Z * Z) :=
  match todo with
  | [] => ret (None, offset, points)
  | ring :: rest =>
    let closed := closedRing ring in
    let offset := offset + points in
    let points := static_cast_int (size ring * 2) - (if closed then 2 else 0) in
    let localIndex := index - offset in
    if bool_decide (localIndex < points) then
      if bool_decide (Z.rem localIndex 2 = 0) then
        ring <- lift (vec_set ring (Z.quot localIndex 2) mapPos) ;;
        ring <- (if closed && bool_decide (localIndex = 0)
                 then lift (vec_back_gets_front ring) else ret ring) ;;
        ret (Some (done ++ ring :: rest), offset, points)
      else
        ring <- lift (vec_insert ring (Z.quot localIndex 2 + 1) mapPos) ;;
        _ <- insertOverlayPoints index mapPos ;;
        ret (Some (done ++ ring :: rest), offset, points)
    else updateRings (done ++ [ring]) rest offset points index mapPos
  end.

(** [updateGeometryPoint] on a non-null geometry; the result is the returned
    pointer and the value of [offset] at return. *)
Fixpoint updateGeometryPoint (geometry : Geometry) (offset index : Z) (mapPos : MapPos)
    {struct geometry} : M (option Geometry * Z) :=
  if bool_decide (index < offset) then ret (Some geometry, offset) else
  match geometry with
  | PointGeometry _ =>
    let points := 1 in
    ret (Some (if bool_decide (index - offset < points)
               then PointGeometry mapPos else geometry), offset + points)
  | LineGeometry mapPoses =>
    let points := static_cast_int (size mapPoses * 2) - 1 in
    let localIndex := index - offset in
    if bool_decide (localIndex < points) then
      if bool_decide (Z.rem localIndex 2 = 0) then
        mapPoses <- lift (vec_set mapPoses (Z.quot localIndex 2) mapPos) ;;
        ret (Some (LineGeometry mapPoses), offset + points)
      else
        mapPoses <- lift (vec_insert mapPoses (Z.quot localIndex 2 + 1) mapPos) ;;
        _ <- insertOverlayPoints index mapPos ;;
        ret (Some (LineGeometry mapPoses), offset + points)
    else ret (Some geometry, offset + points)
  | PolygonGeometry rings =>
    '(assigned, offset, points) <- updateRings [] rings offset 0 index mapPos ;;
    ret (Some (match assigned with
               | Some rings => PolygonGeometry rings
               | None => geometry
               end), offset + points)
  | MultiGeometry geometries =>
    '(geometries, offset) <-
      (fix children (todo : list Geometry) (geometries : list Geometry) (offset : Z)
         : M (list Geometry * Z) :=
         match todo with
         | [] => ret (geometries, offset)
         | child :: todo =>
           '(geom, offset) <- updateGeometryPoint child offset index mapPos ;;
           children todo
             (match geom with Some geom => geometries ++ [geom] | None => geometries end)
             offset
         end) geometries [] offset ;;
    ret (Some (MultiGeometry geometries), offset + 0)
  end.

(** ** Point removal *)

(** The loop over the rings of [removeGeometryPoint].  The first component of
    the result is [None] when [geometry] is left as it was, [Some None] when it
    is reset to null and [Some (Some rings)] when it is assigned a new polygon. *)
Fixpoint removeRings (done todo : list (list MapPos)) (offset points index : Z)
    : M (option (option (list (list MapPos))) * Z * Z) :=
  match todo with
  | [] => ret (None, offset, points)
  | ring :: rest =>
    let closed := closedRing ring in
    let offset := offset + points in
    let points := static_cast_int (size ring * 2) - (if closed then 2 else 0) in
    let localIndex := index - offset in
    if bool_decide (localIndex < points) then
      if bool_decide (Z.rem localIndex 2 = 0) then
        if bool_decide (points > 6) then
          ring <- lift (vec_erase ring (Z.quot localIndex 2)) ;;
          ring <- (if closed && bool_decide (localIndex = 0)
                   then lift (vec_back_gets_front ring) else ret ring) ;;
          overlayPoints <- gets _overlayPoints ;;
          overlayPoints <- lift (vec_erase overlayPoints (index + 1)) ;;
          overlayPoints <- lift (vec_erase overlayPoints index) ;;
          _ <- modify (set_overlayPoints overlayPoints) ;;
          ret (Some (Some (done ++ ring :: rest)), offset, points)
        else
          let rings := done ++ ring :: rest in
          (* std::find(rings.begin(), rings.end(), ring) - rings.begin() *)
          let n := match list_find (λ r, r = ring) rings with
                   | Some (n, _) => Z.of_nat n
                   | None => size rings
                   end in
          if bool_decide (n > 0) then
            rings <- lift (vec_erase rings n) ;;
            ret (Some (Some rings), offset, points)
          else ret (Some None, offset, points)
      else ret (None, offset, points)
    else removeRings (done ++ [ring]) rest offset points index
  end.

Fixpoint removeGeometryPoint (geometry : Geometry) (offset index : Z)
    {struct geometry} : M (option Geometry * Z) :=
  if bool_decide (index < offset) then ret (Some geometry, offset) else
  match geometry with
  | PointGeometry _ =>
    let points := 1 in
    ret (if bool_decide (index - offset < points) then None else Some geometry,
         offset + points)
  | LineGeometry mapPoses =>
    let points := static_cast_int (size mapPoses * 2) - 1 in
    let localIndex := index - offset in
    if bool_decide (localIndex < points) then
      if bool_decide (Z.rem localIndex 2 = 0) then
        if bool_decide (size mapPoses > 2) then
          mapPoses <- lift (vec_erase mapPoses (Z.quot localIndex 2)) ;;
          overlayPoints <- gets _overlayPoints ;;
          overlayPoints <- lift (vec_erase overlayPoints index) ;;
          overlayPoints <- lift (vec_erase overlayPoints
                                   (if bool_decide (localIndex > 0) then index - 1 else index)) ;;
          _ <- modify (set_overlayPoints overlayPoints) ;;
          ret (Some (LineGeometry mapPoses), offset + points)
        else ret (None, offset + points)
      else ret (Some geometry, offset + points)
    else ret (Some geometry, offset + points)
  | PolygonGeometry rings =>
    '(assigned, offset, points) <- removeRings [] rings offset 0 index ;;
    ret (match assigned with
         | Some (Some rings) => Some (PolygonGeometry rings)
         | Some None => None
         | None => Some geometry
         end, offset + points)
  | MultiGeometry geometries =>
    '(geometries, offset) <-
      (fix children (todo : list Geometry) (geometries : list Geometry) (offset : Z)
         : M (list Geometry * Z) :=
         match todo with
         | [] => ret (geometries, offset)
         | child :: todo =>
           '(geom, offset) <- removeGeometryPoint child offset index ;;
           children todo
             (match geom with Some geom => geometries ++ [geom] | None => geometries end)
             offset
         end) geometries [] offset ;;
    ret (match geometries with
         | [] => None
         | _ :: _ => Some (MultiGeometry geometries)
         end, offset + 0)
  end.

(** ** Element edits *)

Definition refresh : M unit := call CallRefresh.
Definition redraw : M unit := call CallRedraw.

(** [updateGeometryPoints] on a non-null geometry, past the projection surface
    check. *)
Fixpoint translateGeometry (projectionSurface : ProjectionSurface) (geometry : Geometry)
    (mapPos0 mapPos1 : MapPos) : Geometry :=
  let updateMapPos := translateMapPos projectionSurface mapPos0 mapPos1 in
  match geometry with
  | PointGeometry mapPos => PointGeometry (updateMapPos mapPos)
  | LineGeometry mapPoses => LineGeometry (map updateMapPos mapPoses)
  | PolygonGeometry rings => PolygonGeometry (map (map updateMapPos) rings)
  | MultiGeometry geometries =>
    MultiGeometry
      (map (λ geometry, translateGeometry projectionSurface geometry mapPos0 mapPos1)
           geometries)
  end.

Definition updateGeometryPoints (geometry : option Geometry) (viewState : ViewState)
    (mapPos0 mapPos1 : MapPos) : option Geometry :=
  match ViewState_getProjectionSurface viewState with
  | None => geometry
  | Some projectionSurface =>
    match geometry with
    | Some geometry => Some (translateGeometry projectionSurface geometry mapPos0 mapPos1)
    | None => None
    end
  end.

(** [vectorEditEventListener->onElementModify(element, geometry)], when there
    is a listener *)
Definition notifyElementModify (element : ElementPtr) (geometry : option Geometry) : M unit :=
  vectorEditEventListener <- gets _vectorEditEventListener ;;
  match vectorEditEventListener with
  | Some listener =>
    _ <- call (CallOnElementModify element geometry) ;;
    modify_elements (onElementModify listener element geometry)
  | None => ret tt
  end.

(** [vectorEditEventListener->onElementDelete(element)], when there is a listener *)
Definition notifyElementDelete (element : ElementPtr) : M unit :=
  vectorEditEventListener <- gets _vectorEditEventListener ;;
  match vectorEditEventListener with
  | Some listener =>
    _ <- call (CallOnElementDelete element) ;;
    modify_elements (onElementDelete listener element)
  | None => ret tt
  end.

Definition updateElementGeometry (element : option ElementPtr) (geometry : option Geometry)
    (viewState : ViewState) (mapPos0 mapPos1 : MapPos) : M unit :=
  match element with
  | None => ret tt
  | Some element =>
    let geometry := if bool_decide (mapPos0 ≠ mapPos1)
                    then updateGeometryPoints geometry viewState mapPos0 mapPos1
                    else geometry in
    _ <- notifyElementModify element geometry ;;
    _ <- syncElementOverlayPoints (Some element) ;;
    redraw
  end.

(** [removeElement]; its callers pass the selected element, never null. *)
Definition removeElement (element : ElementPtr) : M unit :=
  _ <- notifyElementDelete element ;;
  _ <- syncElementOverlayPoints None ;;
  redraw.

(** [std::find(_overlayPoints.begin(), _overlayPoints.end(), dragPoint)]: the
    index of the first overlay point that is the object [dragPoint]. *)
Definition findOverlayPoint (overlayPoints : list Point) (dragPoint : option PointPtr)
    : option nat :=
  fst <$> list_find (λ p, Some (pt_addr p) = dragPoint) overlayPoints.

(** The common tail of [updateElementPoint] and [removeElementPoint]. *)
Definition commitElementPoint (element : ElementPtr) (geometry : option Geometry) : M unit :=
  element <-
    match geometry with
    | Some geometry =>
      _ <- notifyElementModify element (Some geometry) ;;
      ret (Some element)
    | None =>
      _ <- notifyElementDelete element ;;
      ret None
    end ;;
  _ <- syncElementOverlayPoints element ;;
  redraw.

Definition updateElementPoint (element : option ElementPtr) (dragPoint : option PointPtr)
    (mapPos : MapPos) : M unit :=
  match element with
  | None => ret tt
  | Some element =>
    overlayPoints <- gets _overlayPoints ;;
    match findOverlayPoint overlayPoints dragPoint with
    | None => ret tt
    | Some it =>
      let offset := 0 in
      let index := static_cast_int (Z.of_nat it) in
      e <- deref element ;;
      geometry <-
        match getGeometry e with
        | Some geometry =>
          '(geometry, _) <- updateGeometryPoint geometry offset index mapPos ;;
          ret geometry
        | None => ret None
        end ;;
      commitElementPoint element geometry
    end
  end.

Definition removeElementPoint (element : option ElementPtr) (dragPoint : option PointPtr)
    : M unit :=
  match element with
  | None => ret tt
  | Some element =>
    overlayPoints <- gets _overlayPoints ;;
    match findOverlayPoint overlayPoints dragPoint with
    | None => ret tt
    | Some it =>
      let offset := 0 in
      let index := static_cast_int (Z.of_nat it) in
      e <- deref element ;;
      geometry <-
        match getGeometry e with
        | Some geometry =>
          '(geometry, _) <- removeGeometryPoint geometry offset index ;;
          ret geometry
        | None => ret None
        end ;;
      commitElementPoint element geometry
    end
  end.

(** ** Selection *)

Definition getSelectedVectorElement : M (option ElementPtr) := gets _selectedVectorElement.

Definition setSelectedVectorElement (element : option ElementPtr) : M unit :=
  oldSelectedVectorElement <- gets _selectedVectorElement ;;
  if bool_decide (element = oldSelectedVectorElement) then ret tt else
  _ <- modify (set_selectedVectorElement None) ;;
  _ <- modify (set_overlayPoints []) ;;
  _ <- modify (set_overlayDragPoint None) ;;
  _ <- modify (set_overlayDragGeometry None) ;;
  _ <- modify (set_overlayDragStarted false) ;;
  _ <- modify (set_overlayStyles None None None) ;;
  vectorEditEventListener <- gets _vectorEditEventListener ;;
  _ <- match vectorEditEventListener with
       | Some listener =>
         _ <- match oldSelectedVectorElement with
              | Some old => call (CallOnElementDeselected old)
              | None => ret tt
              end ;;
         match element with
         | Some e =>
           _ <- call (CallOnElementSelect e) ;;
           if onElementSelect listener e then
             _ <- call (CallOnSelectDragPointStyle e VECTOR_ELEMENT_DRAG_POINT_STYLE_NORMAL) ;;
             let overlayStyleNormal :=
               onSelectDragPointStyle listener e VECTOR_ELEMENT_DRAG_POINT_STYLE_NORMAL in
             _ <- call (CallOnSelectDragPointStyle e VECTOR_ELEMENT_DRAG_POINT_STYLE_VIRTUAL) ;;
             let overlayStyleVirtual :=
               onSelectDragPointStyle listener e VECTOR_ELEMENT_DRAG_POINT_STYLE_VIRTUAL in
             _ <- call (CallOnSelectDragPointStyle e VECTOR_ELEMENT_DRAG_POINT_STYLE_SELECTED) ;;
             let overlayStyleSelected :=
               onSelectDragPointStyle listener e VECTOR_ELEMENT_DRAG_POINT_STYLE_SELECTED in
             _ <- modify (set_selectedVectorElement element) ;;
             modify (set_overlayStyles overlayStyleNormal overlayStyleVirtual
                                       overlayStyleSelected)
           else ret tt
         | None => ret tt
         end
       | None => ret tt
       end ;;
  refresh.

(** ** The listener *)

Definition getVectorEditEventListener : M (option VectorEditEventListener) :=
  gets _vectorEditEventListener.

Definition setVectorEditEventListener (listener : option VectorEditEventListener) : M unit :=
  modify (set_vectorEditEventListener listener).

(** [IsSameElement], on the element store that holds the two objects *)
Definition IsSameElement (store : ElementStore) (element1 element2 : option ElementPtr)
    : bool :=
  match element1, element2 with
  | Some e1, Some e2 =>
    if bool_decide (e1 = e2) then true
    else if bool_decide (getId (store e1) = -1) then false
    else bool_decide (getId (store e1) = getId (store e2))
  | _, _ => bool_decide (element1 = element2)
  end.

(** ** The touch handler *)

(** The [action] code, by the case of the [switch] it selects. *)
Inductive TouchAction :=
| ACTION_POINTER_1_DOWN
| ACTION_MOVE
| ACTION_POINTER_1_UP
| ACTION_OTHER.

(** What the two [calculateRayIntersectedElements] calls of a pointer-down put
    into [results], nearest first: the overlay renderer's hits (overlay points)
    and the layer's own hits (rendered vector elements). *)
Record RayIntersections := {
  overlayResults : list PointPtr;
  layerResults : list ElementPtr
}.

(** [dragResult] of a drag callback; [IGNORE] without a listener. *)
Definition askListener (vectorEditEventListener : option VectorEditEventListener)
    (callback : VectorEditEventListener → VectorElementDragInfo → VectorElementDragResult)
    (logged : VectorElementDragInfo → Call) (dragInfo : VectorElementDragInfo)
    : M VectorElementDragResult :=
  match vectorEditEventListener with
  | Some listener =>
    _ <- call (logged dragInfo) ;;
    ret (callback listener dragInfo)
  | None => ret VECTOR_ELEMENT_DRAG_RESULT_IGNORE
  end.

(** Pointer down, first part: the hit on an overlay point.  [Some b] is
    [return b]; [None] falls through to the hits on the layer's elements. *)
Definition pointerDownOverlay (vectorEditEventListener : option VectorEditEventListener)
    (selectedElement : ElementPtr) (selectedPoint : option PointPtr)
    (screenPos1 : ScreenPos) (mapPos1 : MapPos) (results : list PointPtr)
    : M (option bool) :=
  match results with
  | [] => ret None
  | front :: _ =>
    dragResult <-
      askListener vectorEditEventListener onDragStart CallOnDragStart
        {| getVectorElement := selectedElement;
           getDragMode := VECTOR_ELEMENT_DRAG_MODE_VERTEX;
           getScreenPos := screenPos1; getMapPos := mapPos1 |} ;;
    _ <- modify (set_overlayDragMode VECTOR_ELEMENT_DRAG_MODE_VERTEX) ;;
    _ <- modify (set_overlayDragPoint (Some front)) ;;
    match dragResult with
    | VECTOR_ELEMENT_DRAG_RESULT_IGNORE =>
      _ <- modify (set_overlayDragPoint None) ;;
      ret None
    | VECTOR_ELEMENT_DRAG_RESULT_STOP =>
      _ <- modify (set_overlayDragPoint None) ;;
      ret (Some true)
    | VECTOR_ELEMENT_DRAG_RESULT_MODIFY =>
      _ <- modify (set_overlayDragStarted true) ;;
      _ <- updateElementPoint (Some selectedElement) selectedPoint mapPos1 ;;
      ret (Some true)
    | VECTOR_ELEMENT_DRAG_RESULT_DELETE =>
      _ <- removeElementPoint (Some selectedElement) selectedPoint ;;
      ret (Some true)
    end
  end.

(** Pointer down, second part: the body of the loop over the hits on the
    layer's elements, for a hit that is the selected element.  [Some b] is
    [return b]; [continue] is the rest of the loop, which [break] in the
    [switch] goes on with. *)
Definition pointerDownElement (dragResult : VectorElementDragResult)
    (selectedElement : ElementPtr) (viewState : ViewState) (mapPos1 : MapPos)
    (continue : M (option bool)) : M (option bool) :=
  _ <- modify (set_overlayDragMode VECTOR_ELEMENT_DRAG_MODE_ELEMENT) ;;
  e <- deref selectedElement ;;
  _ <- modify (set_overlayDragGeometry (getGeometry e)) ;;
  _ <- modify (set_overlayDragGeometryPos mapPos1) ;;
  match dragResult with
  | VECTOR_ELEMENT_DRAG_RESULT_IGNORE =>
    _ <- modify (set_overlayDragGeometry None) ;;
    continue
  | VECTOR_ELEMENT_DRAG_RESULT_STOP =>
    _ <- modify (set_overlayDragGeometry None) ;;
    ret (Some false)
  | VECTOR_ELEMENT_DRAG_RESULT_MODIFY =>
    _ <- modify (set_overlayDragStarted true) ;;
    e <- deref selectedElement ;;
    _ <- updateElementGeometry (Some selectedElement) (getGeometry e) viewState
           MapPos_default MapPos_default ;;
    ret (Some true)
  | VECTOR_ELEMENT_DRAG_RESULT_DELETE =>
    _ <- removeElement selectedElement ;;
    ret (Some true)
  end.

(** The loop over the hits on the layer's elements.  [None] is the end of the
    loop without [return]. *)
Fixpoint pointerDownElements (vectorEditEventListener : option VectorEditEventListener)
    (selectedElement : ElementPtr) (viewState : ViewState)
    (screenPos1 : ScreenPos) (mapPos1 : MapPos) (results : list ElementPtr)
    : M (option bool) :=
  match results with
  | [] => ret None
  | result :: results =>
    if bool_decide (result ≠ selectedElement)
    then pointerDownElements vectorEditEventListener selectedElement viewState
           screenPos1 mapPos1 results
    else
      dragResult <-
        askListener vectorEditEventListener onDragStart CallOnDragStart
          {| getVectorElement := selectedElement;
             getDragMode := VECTOR_ELEMENT_DRAG_MODE_ELEMENT;
             getScreenPos := screenPos1; getMapPos := mapPos1 |} ;;
      pointerDownElement dragResult selectedElement viewState mapPos1
        (pointerDownElements vectorEditEventListener selectedElement viewState
           screenPos1 mapPos1 results)
  end.

(** The drag edit of a move or an up under [MODIFY]. *)
Definition dragModify (selectedElement : ElementPtr) (selectedPoint : option PointPtr)
    (selectedGeometry : option Geometry) (viewState : ViewState) (mapPos1 : MapPos)
    : M unit :=
  dragMode <- gets _overlayDragMode ;;
  match dragMode with
  | VECTOR_ELEMENT_DRAG_MODE_VERTEX =>
    updateElementPoint (Some selectedElement) selectedPoint mapPos1
  | VECTOR_ELEMENT_DRAG_MODE_ELEMENT =>
    dragGeometryPos <- gets _overlayDragGeometryPos ;;
    updateElementGeometry (Some selectedElement) selectedGeometry viewState
      dragGeometryPos mapPos1
  end.

(** The removal of a move or an up under [DELETE]. *)
Definition dragDelete (selectedElement : ElementPtr) (selectedPoint : option PointPtr)
    : M unit :=
  dragMode <- gets _overlayDragMode ;;
  match dragMode with
  | VECTOR_ELEMENT_DRAG_MODE_VERTEX =>
    removeElementPoint (Some selectedElement) selectedPoint
  | VECTOR_ELEMENT_DRAG_MODE_ELEMENT => removeElement selectedElement
  end.

(** [TouchHandlerListener::onTouchEvent].  [expired] says that [_layer.lock()]
    gives null. *)
Definition onTouchEvent (expired : bool) (action : TouchAction)
    (screenPos1 screenPos2 : ScreenPos) (results : RayIntersections) : M bool :=
  if expired then ret false else
  vectorEditEventListener <- gets _vectorEditEventListener ;;
  mapRenderer <- gets getMapRenderer ;;
  match mapRenderer with
  | None => ret false
  | Some mapRenderer =>
  match getProjectionSurface mapRenderer with
  | None => ret false
  | Some projectionSurface =>
  let viewState := getViewState mapRenderer in
  let worldPos1 := screenToWorld viewState screenPos1 in
  if norm_isnan worldPos1 then ret false else
  let mapPos1 := worldToMapPos projectionSurface worldPos1 in
  selectedElement <- getSelectedVectorElement ;;
  match selectedElement with
  | None => ret false
  | Some selectedElement =>
  selectedPoint <- gets _overlayDragPoint ;;
  selectedGeometry <- gets _overlayDragGeometry ;;
  match action with
  | ACTION_POINTER_1_DOWN =>
    returned <- pointerDownOverlay vectorEditEventListener selectedElement selectedPoint
                  screenPos1 mapPos1 (overlayResults results) ;;
    match returned with
    | Some b => ret b
    | None =>
      returned <- pointerDownElements vectorEditEventListener selectedElement viewState
                    screenPos1 mapPos1 (layerResults results) ;;
      match returned with
      | Some b => ret b
      | None => ret false
      end
    end
  | ACTION_MOVE =>
    dragStarted <- gets _overlayDragStarted ;;
    if negb dragStarted then ret false else
    dragMode <- gets _overlayDragMode ;;
    dragResult <-
      askListener vectorEditEventListener onDragMove CallOnDragMove
        {| getVectorElement := selectedElement; getDragMode := dragMode;
           getScreenPos := screenPos1; getMapPos := mapPos1 |} ;;
    match dragResult with
    | VECTOR_ELEMENT_DRAG_RESULT_IGNORE => ret false
    | VECTOR_ELEMENT_DRAG_RESULT_STOP =>
      _ <- modify (set_overlayDragPoint None) ;;
      _ <- modify (set_overlayDragGeometry None) ;;
      _ <- modify (set_overlayDragStarted false) ;;
      _ <- refresh ;;
      ret true
    | VECTOR_ELEMENT_DRAG_RESULT_MODIFY =>
      _ <- dragModify selectedElement selectedPoint selectedGeometry viewState mapPos1 ;;
      ret true
    | VECTOR_ELEMENT_DRAG_RESULT_DELETE =>
      _ <- modify (set_overlayDragPoint None) ;;
      _ <- modify (set_overlayDragGeometry None) ;;
      _ <- modify (set_overlayDragStarted false) ;;
      _ <- dragDelete selectedElement selectedPoint ;;
      ret true
    end
  | ACTION_POINTER_1_UP =>
    dragStarted <- gets _overlayDragStarted ;;
    if negb dragStarted then ret false else
    dragMode <- gets _overlayDragMode ;;
    dragResult <-
      askListener vectorEditEventListener onDragEnd CallOnDragEnd
        {| getVectorElement := selectedElement; getDragMode := dragMode;
           getScreenPos := screenPos1; getMapPos := mapPos1 |} ;;
    _ <- modify (set_overlayDragStarted false) ;;
    _ <- modify (set_overlayDragPoint None) ;;
    _ <- modify (set_overlayDragGeometry None) ;;
    match dragResult with
    | VECTOR_ELEMENT_DRAG_RESULT_IGNORE =>
      _ <- refresh ;;
      ret false
    | VECTOR_ELEMENT_DRAG_RESULT_STOP =>
      _ <- refresh ;;
      ret true
    | VECTOR_ELEMENT_DRAG_RESULT_MODIFY =>
      _ <- dragModify selectedElement selectedPoint selectedGeometry viewState mapPos1 ;;
      _ <- refresh ;;
      ret true
    | VECTOR_ELEMENT_DRAG_RESULT_DELETE =>
      _ <- modify (set_overlayDragPoint None) ;;
      _ <- modify (set_overlayDragGeometry None) ;;
      _ <- dragDelete selectedElement selectedPoint ;;
      _ <- refresh ;;
      ret true
    end
  | ACTION_OTHER => ret false
  end
  end
  end
  end.

(** ** The listener of the data source *)

(** [DataSourceListener::onElementsAdded] and [onElementsChanged]; [expired]
    says that [_layer.lock()] gives null, which is logged as an error and
    nothing else. *)
Definition DataSourceListener_onElementsAdded (expired : bool) : M unit :=
  if expired then ret tt else refresh.

Definition DataSourceListener_onElementsChanged (expired : bool) : M unit :=
  if expired then ret tt else refresh.

(** [DataSourceListener::onElementsRemoved] *)
Definition DataSourceListener_onElementsRemoved (expired : bool) : M unit :=
  if expired then ret tt else
  _ <- setSelectedVectorElement None ;;
  refresh.

End Layer.

(** ** Vocabulary of the statements: slot counts, hosts of vertices, worlds *)

Section Vocabulary.
Context `{Collaborators}.

(** Slots of one polygon ring: two per vertex, less two when the ring is closed. *)
Definition ringSlotCount (ring : list MapPos) : Z :=
  2 * size ring - (if closedRing ring then 2 else 0).

Definition ringsSlotCount (rings : list (list MapPos)) : Z :=
  foldr (λ ring n, ringSlotCount ring + n) 0 rings.

(** Slots of a geometry: 1 for a point, [2N - 1] for a line of [N] vertices,
    the sum over the rings for a polygon, the sum over the children for a
    collection. *)
Fixpoint slotCount (geometry : Geometry) : Z :=
  match geometry with
  | PointGeometry _ => 1
  | LineGeometry mapPoses => 2 * size mapPoses - 1
  | PolygonGeometry rings => ringsSlotCount rings
  | MultiGeometry geometries =>
    (fix children (geometries : list Geometry) : Z :=
       match geometries with
       | [] => 0
       | geometry :: geometries => slotCount geometry + children geometries
       end) geometries
  end.

(** Every line of the tree has a vertex (the data model asks for two). *)
Fixpoint linesNonEmpty (geometry : Geometry) : Prop :=
  match geometry with
  | PointGeometry _ => True
  | LineGeometry mapPoses => mapPoses ≠ []
  | PolygonGeometry _ => True
  | MultiGeometry geometries =>
    (fix children (geometries : list Geometry) : Prop :=
       match geometries with
       | [] => True
       | geometry :: geometries => linesNonEmpty geometry ∧ children geometries
       end) geometries
  end.

(** Twice the size of the vector is an [int]. *)
Definition fitsInt (v : list MapPos) : Prop := size v * 2 < 2 ^ 31.

(** Where a vector of vertices sits: it is a line, or the ring of a polygon
    between the rings [pre] and [post]. *)
Inductive Host :=
| InLine
| InRing (pre post : list (list MapPos)).

Definition hostGeometry (host : Host) (vertices : list MapPos) : Geometry :=
  match host with
  | InLine => LineGeometry vertices
  | InRing pre post => PolygonGeometry (pre ++ vertices :: post)
  end.

(** The slots of the host in front of the vertices. *)
Definition hostOffset (host : Host) : Z :=
  match host with
  | InLine => 0
  | InRing pre _ => ringsSlotCount pre
  end.

(** The slots of the vertices. *)
Definition hostSlotCount (host : Host) (vertices : list MapPos) : Z :=
  match host with
  | InLine => 2 * size vertices - 1
  | InRing _ _ => ringSlotCount vertices
  end.

Definition hostFitsInt (host : Host) (vertices : list MapPos) : Prop :=
  match host with
  | InLine => fitsInt vertices
  | InRing pre _ => Forall fitsInt pre ∧ fitsInt vertices
  end.

(** The world with other overlay points. *)
Definition withOverlayPoints (overlayPoints : list Point) (w : World) : World :=
  {| layer := set_overlayPoints overlayPoints (layer w);
     elements := elements w; next_point := next_point w; calls := calls w |}.

(** Only the overlay points and the allocator differ between the two worlds. *)
Definition overlayOnly (w w' : World) : Prop :=
  elements w' = elements w ∧ calls w' = calls w
  ∧ ∃ overlayPoints, layer w' = set_overlayPoints overlayPoints (layer w).

(** A ring that was closed is closed afterwards. *)
Definition keepsClosed (ring ring' : list MapPos) : Prop :=
  closedRing ring = true → closedRing ring' = true.

(** The two point mutators. *)
Inductive Mutation :=
| Update (mapPos : MapPos)
| Remove.

Definition mutate (mutation : Mutation) (geometry : Geometry) (offset index : Z)
    : M (option Geometry * Z) :=
  match mutation with
  | Update mapPos => updateGeometryPoint geometry offset index mapPos
  | Remove => removeGeometryPoint geometry offset index
  end.

(** The calls of [w'] are those of [w] and further ones. *)
Definition extendsCalls (w w' : World) : Prop :=
  ∃ extra, calls w' = calls w ++ extra.

(** The selection is the same in both worlds and the calls only grew. *)
Definition keepsSelection (w w' : World) : Prop :=
  _selectedVectorElement (layer w') = _selectedVectorElement (layer w)
  ∧ extendsCalls w w'.

(** The [dragInfo] of a pointer event on [element]. *)
Definition dragInfoOf (element : ElementPtr) (dragMode : VectorElementDragMode)
    (mapRenderer : MapRenderer) (projectionSurface : ProjectionSurface)
    (screenPos1 : ScreenPos) : VectorElementDragInfo :=
  {| getVectorElement := element; getDragMode := dragMode; getScreenPos := screenPos1;
     getMapPos := worldToMapPos projectionSurface
                    (screenToWorld (getViewState mapRenderer) screenPos1) |}.

(** The overlay points after the two splices at [index]: a new real point in
    front of the point that was there, a new virtual point behind it. *)
Definition splicedOverlayPoints (w : World) (n : nat) (mapPos : MapPos) : list Point :=
  let overlayPoints := _overlayPoints (layer w) in
  take n overlayPoints
  ++ {| pt_addr := S (next_point w); getPos := mapPos;
        getStyle := _overlayStyleNormal (layer w) |}
  :: drop n (take (S n) overlayPoints)
  ++ {| pt_addr := next_point w; getPos := mapPos;
        getStyle := _overlayStyleVirtual (layer w) |}
  :: drop (S n) overlayPoints.

(** The world after the two splices: the overlay points are spliced and two
    addresses are taken. *)
Definition splicedWorld (w : World) (n : nat) (mapPos : MapPos) : World :=
  {| layer := set_overlayPoints (splicedOverlayPoints w n mapPos) (layer w);
     elements := elements w;
     next_point := S (S (next_point w));
     calls := calls w |}.

(** *** Well-formed trees and the children of a collection *)

(** Every line of the tree has a vertex and twice the size of every vector of
    vertices is an [int]. *)
Fixpoint wellSized (geometry : Geometry) : Prop :=
  match geometry with
  | PointGeometry _ => True
  | LineGeometry mapPoses => mapPoses ≠ [] ∧ fitsInt mapPoses
  | PolygonGeometry rings => Forall fitsInt rings
  | MultiGeometry geometries =>
    (fix children (geometries : list Geometry) : Prop :=
       match geometries with
       | [] => True
       | geometry :: geometries => wellSized geometry ∧ children geometries
       end) geometries
  end.

(** No collection of the tree is empty. *)
Fixpoint collectionsNonEmpty (geometry : Geometry) : Prop :=
  match geometry with
  | MultiGeometry geometries =>
    geometries ≠ []
    ∧ (fix children (geometries : list Geometry) : Prop :=
         match geometries with
         | [] => True
         | geometry :: geometries => collectionsNonEmpty geometry ∧ children geometries
         end) geometries
  | _ => True
  end.

(** The loop over the children of a collection, in either point mutator. *)
Definition mutateChildren (mutation : Mutation) (index : Z)
    : list Geometry → list Geometry → Z → M (list Geometry * Z) :=
  fix children (todo : list Geometry) (geometries : list Geometry) (offset : Z)
    : M (list Geometry * Z) :=
    match todo with
    | [] => ret (geometries, offset)
    | child :: todo =>
      bind (mutate mutation child offset index)
        (λ '(geom, offset),
           children todo
             (match geom with Some geom => geometries ++ [geom] | None => geometries end)
             offset)
    end.

(** What a collection becomes once its children are collected. *)
Definition collected (mutation : Mutation) (geometries : list Geometry) : option Geometry :=
  match mutation, geometries with
  | Remove, [] => None
  | _, _ => Some (MultiGeometry geometries)
  end.


(** The vertices after vertex [k] took [mapPos]: in a closed ring whose first
    vertex is written, the closing position is written too. *)
Definition replacedVertices (host : Host) (vertices : list MapPos) (k : nat)
    (mapPos : MapPos) : list MapPos :=
  match host with
  | InLine => <[k := mapPos]> vertices
  | InRing _ _ =>
    if closedRing vertices && bool_decide (k = 0%nat)
    then <[Nat.pred (length vertices) := mapPos]> (<[k := mapPos]> vertices)
    else <[k := mapPos]> vertices
  end.

(** *** Handles

    A handle is a map position and the [virtualPoint] flag of its overlay
    point. *)

(** The handles of a line behind the vertex [prev]: for each further vertex
    the middle of the segment that ends there, then the vertex. *)
Fixpoint segmentHandles (projectionSurface : ProjectionSurface) (prev : MapPos)
    (mapPoses : list MapPos) : list (MapPos * bool) :=
  match mapPoses with
  | [] => []
  | mapPos :: rest =>
    (midMapPos projectionSurface prev mapPos, true) :: (mapPos, false)
    :: segmentHandles projectionSurface mapPos rest
  end.

Definition lineHandles (projectionSurface : ProjectionSurface) (mapPoses : list MapPos)
    : list (MapPos * bool) :=
  match mapPoses with
  | [] => []
  | first :: rest => (first, false) :: segmentHandles projectionSurface first rest
  end.

(** The handles of the vertices of a ring: each vertex, then the middle of the
    segment to the next vertex, which is [first] for the last vertex. *)
Fixpoint ringHandlesFrom (projectionSurface : ProjectionSurface) (first : MapPos)
    (vertices : list MapPos) : list (MapPos * bool) :=
  match vertices with
  | [] => []
  | mapPos :: rest =>
    (mapPos, false)
    :: (midMapPos projectionSurface mapPos (default first (head rest)), true)
    :: ringHandlesFrom projectionSurface first rest
  end.

(** The closing position of a closed ring is no vertex of its own. *)
Definition ringHandles (projectionSurface : ProjectionSurface) (ring : list MapPos)
    : list (MapPos * bool) :=
  let vertices := if closedRing ring then take (Nat.pred (length ring)) ring else ring in
  match vertices with
  | [] => []
  | first :: _ => ringHandlesFrom projectionSurface first vertices
  end.

Fixpoint handles (projectionSurface : ProjectionSurface) (geometry : Geometry)
    : list (MapPos * bool) :=
  match geometry with
  | PointGeometry mapPos => [(mapPos, false)]
  | LineGeometry mapPoses => lineHandles projectionSurface mapPoses
  | PolygonGeometry rings => concat (ringHandles projectionSurface <$> rings)
  | MultiGeometry geometries =>
    (fix children (geometries : list Geometry) : list (MapPos * bool) :=
       match geometries with
       | [] => []
       | geometry :: geometries => handles projectionSurface geometry ++ children geometries
       end) geometries
  end.

(** The style of a point that is not the drag point. *)
Definition styleFor (l : EditableVectorLayer) (virtualPoint : bool) : option PointStyle :=
  if virtualPoint then _overlayStyleVirtual l else _overlayStyleNormal l.

(** The overlay point that a rebuild started in the world [w] gives the handle
    at index [j]: the object that is at [j] of the overlay points of [w], with
    the position of the handle and the selected style when it is the drag
    point; behind the overlay points of [w], the next new object. *)
Definition builtPoint (w : World) (j : nat) (handle : MapPos * bool) : Point :=
  match _overlayPoints (layer w) !! j with
  | Some old =>
    {| pt_addr := pt_addr old; getPos := handle.1;
       getStyle := if bool_decide (Some (pt_addr old) = _overlayDragPoint (layer w))
                   then _overlayStyleSelected (layer w)
                   else styleFor (layer w) handle.2 |}
  | None =>
    {| pt_addr := (next_point w + (j - length (_overlayPoints (layer w))))%nat;
       getPos := handle.1; getStyle := styleFor (layer w) handle.2 |}
  end.

Fixpoint builtPoints (w : World) (start : nat) (hs : list (MapPos * bool)) : list Point :=
  match hs with
  | [] => []
  | handle :: hs => builtPoint w start handle :: builtPoints w (S start) hs
  end.

(** The world in the middle of a rebuild started in [w0], at index [j]: the
    overlay points of the layer are the objects they were, rewritten, and an
    address was taken for each index behind them. *)
Definition buildState (w0 : World) (j : nat) (w : World) : Prop :=
  elements w = elements w0 ∧ calls w = calls w0
  ∧ next_point w = (next_point w0 + (j - length (_overlayPoints (layer w0))))%nat
  ∧ ∃ overlayPoints,
      layer w = set_overlayPoints overlayPoints (layer w0)
      ∧ pt_addr <$> overlayPoints = pt_addr <$> _overlayPoints (layer w0).

(** The handles that the loop over the vertices [todo] of a ring makes. *)
Fixpoint ringSlots (projectionSurface : ProjectionSurface) (ring : list MapPos)
    (todo : list nat) : list (MapPos * bool) :=
  match todo with
  | [] => []
  | i :: todo =>
    match ring !! i,
          ring !! (if bool_decide (i + 1 < length ring)%nat then (i + 1)%nat else 0%nat) with
    | Some mapPos, Some nextMapPos =>
      (mapPos, false) :: (midMapPos projectionSurface mapPos nextMapPos, true)
      :: ringSlots projectionSurface ring todo
    | _, _ => ringSlots projectionSurface ring todo
    end
  end.

(** *** Frames *)

(** Every run of [m] that returns relates the world it started in to the
    world it leaves by [R]. *)
Definition preserves {A} (R : World → World → Prop) (m : M A) : Prop :=
  ∀ w a w', m w = Some (a, w') → R w w'.

(** The layer differs in its overlay points at most and the calls only grew:
    what an edit of the selected element does to the layer. *)
Definition editFrame (w w' : World) : Prop :=
  (∃ overlayPoints, layer w' = set_overlayPoints overlayPoints (layer w))
  ∧ extendsCalls w w'.

(** The fields of the layer that belong to its set-up and its selection. *)
Definition sameConfiguration (l l' : EditableVectorLayer) : Prop :=
  getMapRenderer l' = getMapRenderer l
  ∧ _selectedVectorElement l' = _selectedVectorElement l
  ∧ _overlayStyleNormal l' = _overlayStyleNormal l
  ∧ _overlayStyleVirtual l' = _overlayStyleVirtual l
  ∧ _overlayStyleSelected l' = _overlayStyleSelected l
  ∧ _vectorEditEventListener l' = _vectorEditEventListener l.

(** Set-up and selection are the same and the calls only grew: what a touch
    event does to the layer. *)
Definition touchFrame (w w' : World) : Prop :=
  sameConfiguration (layer w) (layer w') ∧ extendsCalls w w'.

(** *** Positions, selection calls, worlds after a run *)

(** The positions of a geometry, in the order of its vertices. *)
Fixpoint positions (geometry : Geometry) : list MapPos :=
  match geometry with
  | PointGeometry mapPos => [mapPos]
  | LineGeometry mapPoses => mapPoses
  | PolygonGeometry rings => concat rings
  | MultiGeometry geometries =>
    (fix children (geometries : list Geometry) : list MapPos :=
       match geometries with
       | [] => []
       | geometry :: geometries => positions geometry ++ children geometries
       end) geometries
  end.

(** *** Trees of the same shape *)

(** [moved] has the shape of [geometry]: the same kind at every node, as many
    vertices in every line and in every ring, as many rings in every polygon
    and as many children in every collection, and every ring that is closed in
    [geometry] is closed in [moved]. *)
Fixpoint sameShape (geometry moved : Geometry) {struct geometry} : Prop :=
  match geometry, moved with
  | PointGeometry _, PointGeometry _ => True
  | LineGeometry mapPoses, LineGeometry mapPoses' => length mapPoses' = length mapPoses
  | PolygonGeometry rings, PolygonGeometry rings' =>
    Forall2 (λ ring ring', length ring' = length ring ∧ keepsClosed ring ring') rings rings'
  | MultiGeometry geometries, MultiGeometry geometries' =>
    (fix children (geometries geometries' : list Geometry) {struct geometries} : Prop :=
       match geometries, geometries' with
       | [], [] => True
       | geometry :: geometries, moved :: geometries' =>
         sameShape geometry moved ∧ children geometries geometries'
       | _, _ => False
       end) geometries geometries'
  | _, _ => False
  end.

(** The calls of a selection that the listener [listener] accepts or
    refuses. *)
Definition selectCalls (listener : VectorEditEventListener) (element : ElementPtr)
    : list Call :=
  CallOnElementSelect element
  :: (if onElementSelect listener element
      then [CallOnSelectDragPointStyle element VECTOR_ELEMENT_DRAG_POINT_STYLE_NORMAL;
            CallOnSelectDragPointStyle element VECTOR_ELEMENT_DRAG_POINT_STYLE_VIRTUAL;
            CallOnSelectDragPointStyle element VECTOR_ELEMENT_DRAG_POINT_STYLE_SELECTED]
      else []).

(** The world that a run leaves; the world it started in when the run is
    undefined. *)
Definition after {A} (m : M A) (w : World) : World :=
  match m w with
  | Some (_, w') => w'
  | None => w
  end.

End Vocabulary.

(** ** A sample instance of the collaborators

    Map and screen positions are pairs of integers, a world position is a map
    position or NaN ([None]); screen positions with a negative abscissa miss the
    projection surface. *)

Definition sample : Collaborators :=
  Build_Collaborators
    (Z * Z)%type _ (0, 0)
    (Z * Z)%type (option (Z * Z)) nat unit unit
    (λ _ p, if bool_decide (fst p < 0) then None else Some p)
    (λ w, match w with None => true | Some _ => false end)
    (λ _ w, default (0, 0) w)
    (λ _ a b, ((fst a + fst b) `div` 2, (snd a + snd b) `div` 2))
    (λ _ p0 p1 p, (fst p + fst p1 - fst p0, snd p + snd p1 - snd p0))
    (λ _, Some tt).

Section Sample.
#[local] Existing Instance sample.

Definition sampleRenderer : @MapRenderer sample :=
  {| getProjectionSurface := Some tt; getViewState := tt |}.

(** A listener that answers every drag callback with [dragResult], accepts
    every selection, stores the geometry it is given and hides what it is asked
    to delete. *)
Definition sampleListener (dragResult : VectorElementDragResult)
    : @VectorEditEventListener sample :=
  {| onElementSelect := λ _, true;
     onSelectDragPointStyle := λ _ style,
       Some (match style with
             | VECTOR_ELEMENT_DRAG_POINT_STYLE_NORMAL => 0%nat
             | VECTOR_ELEMENT_DRAG_POINT_STYLE_VIRTUAL => 1%nat
             | VECTOR_ELEMENT_DRAG_POINT_STYLE_SELECTED => 2%nat
             end);
     onDragStart := λ _, dragResult;
     onDragMove := λ _, dragResult;
     onDragEnd := λ _, dragResult;
     onElementModify := λ element geometry store e,
       if bool_decide (e = element)
       then {| getId := getId (store e); getGeometry := geometry;
               isVisible := isVisible (store e) |}
       else store e;
     onElementDelete := λ element store e,
       if bool_decide (e = element)
       then {| getId := getId (store e); getGeometry := getGeometry (store e);
               isVisible := false |}
       else store e |}.

(** A layer attached to [sampleRenderer], with nothing selected. *)
Definition sampleLayer (listener : option (@VectorEditEventListener sample))
    : @EditableVectorLayer sample :=
  {| getMapRenderer := Some sampleRenderer;
     _selectedVectorElement := None;
     _overlayStyleNormal := None; _overlayStyleVirtual := None;
     _overlayStyleSelected := None;
     _overlayPoints := []; _overlayDragPoint := None;
     _overlayDragGeometry := None; _overlayDragGeometryPos := (0, 0);
     _overlayDragStarted := false;
     _overlayDragMode := VECTOR_ELEMENT_DRAG_MODE_VERTEX;
     _vectorEditEventListener := listener |}.

(** A store in which every element is visible, has [geometry] and the id that
    [ids] gives its address. *)
Definition sampleStore (ids : nat → Z) (geometry : @Geometry sample)
    : @ElementStore sample :=
  λ e, {| getId := ids e; getGeometry := Some geometry; isVisible := true |}.

Definition sampleWorld (listener : option (@VectorEditEventListener sample))
    (ids : nat → Z) (geometry : @Geometry sample) : @World sample :=
  {| layer := sampleLayer listener; elements := sampleStore ids geometry;
     next_point := 0%nat; calls := [] |}.

(** The world after element [element] of [sampleWorld] was selected and its
    overlay points were built. *)
Definition selectedWorld (listener : option (@VectorEditEventListener sample))
    (ids : nat → Z) (geometry : @Geometry sample) (element : nat)
    : option (@World sample) :=
  match setSelectedVectorElement (Some element) (sampleWorld listener ids geometry) with
  | Some (_, w) =>
    match syncElementOverlayPoints (Some element) w with
    | Some (_, w) => Some w
    | None => None
    end
  | None => None
  end.

(** Elements without an id. *)
Definition transient : nat → Z := λ _, -1.

(** A world whose layer has no map renderer. *)
Definition detachedWorld (geometry : @Geometry sample) : @World sample :=
  {| layer :=
       {| getMapRenderer := None;
          _selectedVectorElement := None;
          _overlayStyleNormal := None; _overlayStyleVirtual := None;
          _overlayStyleSelected := None;
          _overlayPoints := []; _overlayDragPoint := None;
          _overlayDragGeometry := None; _overlayDragGeometryPos := (0, 0);
          _overlayDragStarted := false;
          _overlayDragMode := VECTOR_ELEMENT_DRAG_MODE_VERTEX;
          _vectorEditEventListener := None |};
     elements := sampleStore transient geometry;
     next_point := 0%nat; calls := [] |}.

(** [selectedWorld] as a world; the selection does not fail on the samples. *)
Definition selected (listener : option (@VectorEditEventListener sample))
    (ids : nat → Z) (geometry : @Geometry sample) (element : nat) : @World sample :=
  default (sampleWorld listener ids geometry) (selectedWorld listener ids geometry element).

Definition sampleLine2 : @Geometry sample := LineGeometry [(0, 0); (0, 10)].

Definition sampleLine3 : @Geometry sample := LineGeometry [(0, 0); (0, 10); (10, 10)].

(** The closed square of four vertices. *)
Definition sampleSquare : list (Z * Z) := [(0, 0); (0, 10); (10, 10); (10, 0); (0, 0)].

(** A closed triangle: a ring of six slots. *)
Definition sampleTriangle : list (Z * Z) := [(2, 2); (2, 4); (4, 4); (2, 2)].

Definition sampleCollection : @Geometry sample :=
  MultiGeometry [PointGeometry (7, 7); sampleLine3; PolygonGeometry [sampleSquare]].

(** What the statements on the sample look at: the value returned, the calls,
    the geometry of element 7, the overlay points, the drag point and whether a
    drag has started. *)
Definition observed {A} (r : option (A * @World sample)) :=
  (λ '(a, w), (a, calls w, getGeometry (elements w 7%nat), _overlayPoints (layer w),
               _overlayDragPoint (layer w), _overlayDragStarted (layer w))) <$> r.

(** A listener like [sampleListener] that answers [start] to [onDragStart],
    [move] to [onDragMove] and [finish] to [onDragEnd]. *)
Definition phasedListener (start move finish : VectorElementDragResult)
    : @VectorEditEventListener sample :=
  {| onElementSelect := λ _, true;
     onSelectDragPointStyle :=
       onSelectDragPointStyle (sampleListener VECTOR_ELEMENT_DRAG_RESULT_IGNORE);
     onDragStart := λ _, start;
     onDragMove := λ _, move;
     onDragEnd := λ _, finish;
     onElementModify := onElementModify (sampleListener VECTOR_ELEMENT_DRAG_RESULT_IGNORE);
     onElementDelete := onElementDelete (sampleListener VECTOR_ELEMENT_DRAG_RESULT_IGNORE) |}.

Definition noHits : RayIntersections := {| overlayResults := []; layerResults := [] |}.

(** The line [sampleLine3] is element 7 and is selected; the pointer went down
    on the handle of its middle vertex and the listener answered [MODIFY]:
    a drag of the vertex is going on. *)
Definition vertexDragWorld (move finish : VectorElementDragResult) : @World sample :=
  after (onTouchEvent false ACTION_POINTER_1_DOWN (3, 3) (0, 0)
           {| overlayResults := [2%nat]; layerResults := [7%nat] |})
    (selected (Some (phasedListener VECTOR_ELEMENT_DRAG_RESULT_MODIFY move finish))
       transient sampleLine3 7%nat).

(** The same with the pointer down on the line itself: a drag of the whole
    element is going on. *)
Definition elementDragWorld (move finish : VectorElementDragResult) : @World sample :=
  after (onTouchEvent false ACTION_POINTER_1_DOWN (3, 3) (0, 0)
           {| overlayResults := []; layerResults := [7%nat] |})
    (selected (Some (phasedListener VECTOR_ELEMENT_DRAG_RESULT_MODIFY move finish))
       transient sampleLine3 7%nat).

(** A world whose layer has a map renderer without a projection surface. *)
Definition surfacelessWorld (geometry : @Geometry sample) : @World sample :=
  {| layer :=
       {| getMapRenderer := Some {| getProjectionSurface := None; getViewState := tt |};
          _selectedVectorElement := None;
          _overlayStyleNormal := None; _overlayStyleVirtual := None;
          _overlayStyleSelected := None;
          _overlayPoints := []; _overlayDragPoint := None;
          _overlayDragGeometry := None; _overlayDragGeometryPos := (0, 0);
          _overlayDragStarted := false;
          _overlayDragMode := VECTOR_ELEMENT_DRAG_MODE_VERTEX;
          _vectorEditEventListener := None |};
     elements := sampleStore transient geometry;
     next_point := 0%nat; calls := [] |}.

(** The world [w] after the application took the listener of the layer away. *)
Definition unheard (w : @World sample) : @World sample :=
  after (setVectorEditEventListener None) w.

End Sample.

(** * Properties *)

Section Properties.
Context `{Collaborators}.

(** ** Integers and vectors *)

Lemma static_cast_int_small (n : Z) :
  - 2 ^ 31 ≤ n < 2 ^ 31 → static_cast_int n = n.
Proof.
  intros Hn. unfold static_cast_int.
  rewrite Z.mod_small; lia.
Qed.

Lemma static_cast_int_le (n : Z) : 0 ≤ n → static_cast_int n ≤ n.
Proof.
  intros Hn. unfold static_cast_int.
  assert (Hm : (n + 2 ^ 31) mod 2 ^ 32 ≤ n + 2 ^ 31) by (apply Z.mod_le; lia).
  lia.
Qed.

Lemma size_nonneg {A} (v : list A) : 0 ≤ size v.
Proof. unfold size. lia. Qed.

Lemma size_app {A} (u v : list A) : size (u ++ v) = size u + size v.
Proof. unfold size. rewrite length_app. lia. Qed.

Lemma size_cons {A} (x : A) (v : list A) : size (x :: v) = 1 + size v.
Proof. unfold size. simpl. lia. Qed.

Lemma vec_insert_Some {A} (v : list A) (i : Z) (x : A) :
  0 ≤ i ≤ size v →
  vec_insert v i x = Some (take (Z.to_nat i) v ++ x :: drop (Z.to_nat i) v).
Proof. intros Hi. unfold vec_insert. by rewrite bool_decide_true. Qed.

Lemma vec_erase_Some {A} (v : list A) (i : Z) :
  0 ≤ i < size v → vec_erase v i = Some (delete (Z.to_nat i) v).
Proof. intros Hi. unfold vec_erase. by rewrite bool_decide_true. Qed.

(** ** The overlay point build *)

Lemma set_overlayPoints_same (l : EditableVectorLayer) :
  set_overlayPoints (_overlayPoints l) l = l.
Proof. by destruct l. Qed.

Lemma overlayOnly_refl (w : World) : overlayOnly w w.
Proof.
  repeat split. exists (_overlayPoints (layer w)). by rewrite set_overlayPoints_same.
Qed.

Lemma overlayOnly_trans (w1 w2 w3 : World) :
  overlayOnly w1 w2 → overlayOnly w2 w3 → overlayOnly w1 w3.
Proof.
  intros (He1 & Hc1 & ov1 & Hl1) (He2 & Hc2 & ov2 & Hl2).
  repeat split; [congruence | congruence |].
  exists ov2. rewrite Hl2, Hl1. reflexivity.
Qed.

Lemma overlayOnly_renderer (w w' : World) :
  overlayOnly w w' → getMapRenderer (layer w') = getMapRenderer (layer w).
Proof. intros (_ & _ & ov & ->). reflexivity. Qed.

Lemma createOverlayPoint_runs (mapPos : MapPos) (virtualPoint : bool) (index : Z) (w : World) :
  ∃ p w', createOverlayPoint mapPos virtualPoint index w = Some (p, w') ∧ overlayOnly w w'.
Proof.
  unfold createOverlayPoint, bind, gets. simpl.
  destruct (bool_decide (0 ≤ index)) eqn:H0; simpl.
  - destruct (bool_decide (index < static_cast_int (size (_overlayPoints (layer w))))) eqn:H1;
      simpl.
    + apply bool_decide_eq_true in H0, H1.
      pose proof (static_cast_int_le (size (_overlayPoints (layer w))) (size_nonneg _)) as Hle.
      destruct (lookup_lt_is_Some_2 (_overlayPoints (layer w)) (Z.to_nat index)) as [p Hp].
      { unfold size in *. lia. }
      unfold lift, vec_get. rewrite bool_decide_true by done. rewrite Hp.
      eexists _, _. split; [reflexivity|]. repeat split. eexists. reflexivity.
    + eexists _, _. split; [reflexivity|]. repeat split.
      exists (_overlayPoints (layer w)). simpl. by rewrite set_overlayPoints_same.
  - eexists _, _. split; [reflexivity|]. repeat split.
    exists (_overlayPoints (layer w)). simpl. by rewrite set_overlayPoints_same.
Qed.

Lemma lineOverlayPoints_runs (projectionSurface : ProjectionSurface) (mapPoses : list MapPos) :
  ∀ (prev : option MapPos) (index : Z) (overlayPoints : list Point) (w : World),
  ∃ index' overlayPoints' w',
    lineOverlayPoints projectionSurface prev mapPoses index overlayPoints w
      = Some ((index', overlayPoints'), w')
    ∧ overlayOnly w w'
    ∧ size overlayPoints' = size overlayPoints + 2 * size mapPoses
        - (match prev, mapPoses with None, _ :: _ => 1 | _, _ => 0 end).
Proof.
  induction mapPoses as [|mapPos rest IH]; intros prev index overlayPoints w.
  - simpl. eexists _, _, _. split; [reflexivity|]. split; [apply overlayOnly_refl|].
    destruct prev; unfold size; simpl; lia.
  - cbn [lineOverlayPoints]. unfold bind at 1.
    destruct prev as [prevMapPos|].
    + unfold bind at 1.
      destruct (createOverlayPoint_runs (midMapPos projectionSurface prevMapPos mapPos)
                  true index w) as (p & w1 & -> & Hr1).
      cbn [ret]. unfold bind at 1.
      destruct (createOverlayPoint_runs mapPos false (index + 1) w1) as (q & w2 & -> & Hr2).
      destruct (IH (Some mapPos) (index + 1 + 1) ((overlayPoints ++ [p]) ++ [q]) w2)
        as (index' & out & w3 & -> & Hr3 & Hsz).
      eexists _, _, _. split; [reflexivity|].
      split; [eauto using overlayOnly_trans|].
      rewrite Hsz, !size_app, !size_cons. unfold size; simpl. lia.
    + cbn [ret]. unfold bind at 1.
      destruct (createOverlayPoint_runs mapPos false index w) as (q & w2 & -> & Hr2).
      destruct (IH (Some mapPos) (index + 1) (overlayPoints ++ [q]) w2)
        as (index' & out & w3 & -> & Hr3 & Hsz).
      eexists _, _, _. split; [reflexivity|].
      split; [eauto using overlayOnly_trans|].
      rewrite Hsz, !size_app, !size_cons. unfold size; simpl. lia.
Qed.

Lemma ringOverlayPoints_runs (projectionSurface : ProjectionSurface) (ring : list MapPos)
    (todo : list nat) :
  Forall (λ i, (i < length ring)%nat) todo →
  ∀ (index : Z) (overlayPoints : list Point) (w : World),
  ∃ index' overlayPoints' w',
    ringOverlayPoints projectionSurface ring todo index overlayPoints w
      = Some ((index', overlayPoints'), w')
    ∧ overlayOnly w w'
    ∧ size overlayPoints' = size overlayPoints + 2 * size todo.
Proof.
  intros Hall. induction Hall as [|i todo Hi Hall IH]; intros index overlayPoints w.
  - simpl. eexists _, _, _. split; [reflexivity|]. split; [apply overlayOnly_refl|].
    unfold size; simpl; lia.
  - cbn [ringOverlayPoints].
    destruct (lookup_lt_is_Some_2 ring i Hi) as [mapPos HmapPos].
    assert (Hnext : ((if bool_decide (i + 1 < length ring)%nat then (i + 1)%nat else 0%nat)
                     < length ring)%nat) by (case_bool_decide; lia).
    destruct (lookup_lt_is_Some_2 ring _ Hnext) as [nextMapPos HnextMapPos].
    unfold bind at 1. unfold lift at 1. rewrite HmapPos.
    unfold bind at 1.
    destruct (createOverlayPoint_runs mapPos false index w) as (p & w1 & -> & Hr1).
    unfold bind at 1. unfold lift at 1. rewrite HnextMapPos.
    unfold bind at 1.
    destruct (createOverlayPoint_runs (midMapPos projectionSurface mapPos nextMapPos)
                true (index + 1) w1) as (q & w2 & -> & Hr2).
    destruct (IH (index + 2) (overlayPoints ++ [p; q]) w2)
      as (index' & out & w3 & -> & Hr3 & Hsz).
    eexists _, _, _. split; [reflexivity|].
    split; [eauto using overlayOnly_trans|].
    rewrite Hsz, !size_app, !size_cons. unfold size; simpl. lia.
Qed.

Lemma closedRing_nonempty (ring : list MapPos) : closedRing ring = true → ring ≠ [].
Proof. by destruct ring. Qed.

Lemma polygonOverlayPoints_runs (projectionSurface : ProjectionSurface)
    (rings : list (list MapPos)) :
  ∀ (index : Z) (overlayPoints : list Point) (w : World),
  ∃ index' overlayPoints' w',
    polygonOverlayPoints projectionSurface rings index overlayPoints w
      = Some ((index', overlayPoints'), w')
    ∧ overlayOnly w w'
    ∧ size overlayPoints' = size overlayPoints + ringsSlotCount rings.
Proof.
  unfold ringsSlotCount.
  induction rings as [|ring rings IH]; intros index overlayPoints w.
  - simpl. eexists _, _, _. split; [reflexivity|]. split; [apply overlayOnly_refl|]. lia.
  - cbn [polygonOverlayPoints foldr]. unfold bind at 1.
    destruct (ringOverlayPoints_runs projectionSurface ring
                (seq 0 (length ring - (if closedRing ring then 1 else 0)))) with
      (index := index) (overlayPoints := overlayPoints) (w := w)
      as (index1 & out1 & w1 & -> & Hr1 & Hsz1).
    { apply Forall_seq. intros j Hj. destruct (closedRing ring); lia. }
    destruct (IH index1 out1 w1) as (index2 & out2 & w2 & -> & Hr2 & Hsz2).
    eexists _, _, _. split; [reflexivity|].
    split; [eauto using overlayOnly_trans|].
    rewrite Hsz2, Hsz1. unfold ringSlotCount, size. rewrite length_seq.
    destruct (closedRing ring) eqn:Hc.
    + apply closedRing_nonempty in Hc. destruct ring; [done|]. simpl. lia.
    + lia.
Qed.

(** Induction on geometry trees, with the hypothesis on every child of a
    collection. *)
Lemma Geometry_tree_ind (P : Geometry → Prop) :
  (∀ pos, P (PointGeometry pos)) →
  (∀ poses, P (LineGeometry poses)) →
  (∀ rings, P (PolygonGeometry rings)) →
  (∀ geometries, Forall P geometries → P (MultiGeometry geometries)) →
  ∀ geometry, P geometry.
Proof.
  intros HPoint HLine HPolygon HMulti.
  fix IH 1. intros [pos|poses|rings|geometries].
  - apply HPoint.
  - apply HLine.
  - apply HPolygon.
  - apply HMulti. induction geometries as [|g gs IHgs]; constructor; [apply IH | apply IHgs].
Qed.

(** The build returns on every geometry; it touches the overlay points only,
    and gives a point per slot when no line is empty. *)
Lemma createGeometryOverlayPoints_runs (geometry : Geometry) :
  ∀ (index : Z) (overlayPoints : list Point) (w : World),
  ∃ index' overlayPoints' w',
    createGeometryOverlayPoints geometry index overlayPoints w
      = Some ((index', overlayPoints'), w')
    ∧ overlayOnly w w'
    ∧ ∀ (mapRenderer : MapRenderer) (projectionSurface : ProjectionSurface),
        getMapRenderer (layer w) = Some mapRenderer →
        getProjectionSurface mapRenderer = Some projectionSurface →
        linesNonEmpty geometry →
        size overlayPoints' = size overlayPoints + slotCount geometry.
Proof.
  induction geometry as [pos|poses|rings|geometries IH] using Geometry_tree_ind;
    intros index overlayPoints w;
    cbn [createGeometryOverlayPoints]; unfold bind at 1, gets at 1;
    (destruct (getMapRenderer (layer w)) as [mapRenderer|] eqn:Hmr;
     [|by eexists _, _, _; split; [reflexivity|]; split; [apply overlayOnly_refl|]]);
    (destruct (getProjectionSurface mapRenderer) as [projectionSurface|] eqn:Hps;
     [|by eexists _, _, _; split; [reflexivity|]; split; [apply overlayOnly_refl|];
          intros mr ps [= <-]; congruence]).
  - unfold bind at 1.
    destruct (createOverlayPoint_runs pos false index w) as (p & w1 & -> & Hr1).
    eexists _, _, _. split; [reflexivity|]. split; [done|]. intros _ _ _ _ _.
    rewrite size_app. unfold size; simpl; lia.
  - destruct (lineOverlayPoints_runs projectionSurface poses None index overlayPoints w)
      as (index' & out & w1 & -> & Hr1 & Hsz).
    eexists _, _, _. split; [reflexivity|]. split; [done|]. intros _ _ _ _ Hlines.
    rewrite Hsz. simpl in Hlines. destruct poses; [done|]. simpl. lia.
  - destruct (polygonOverlayPoints_runs projectionSurface rings index overlayPoints w)
      as (index' & out & w1 & -> & Hr1 & Hsz).
    eexists _, _, _. split; [reflexivity|]. split; [done|]. intros _ _ _ _ _.
    by rewrite Hsz.
  - cbn [slotCount linesNonEmpty].
    revert index overlayPoints w Hmr.
    induction IH as [|g gs Hg _ IHgs]; intros index overlayPoints w Hmr.
    + eexists _, _, _. split; [reflexivity|]. split; [apply overlayOnly_refl|].
      intros _ _ _ _ _. lia.
    + unfold bind at 1.
      destruct (Hg index overlayPoints w) as (index1 & out1 & w1 & -> & Hr1 & Hsz1).
      assert (Hmr1 : getMapRenderer (layer w1) = Some mapRenderer)
        by (by rewrite (overlayOnly_renderer _ _ Hr1)).
      destruct (IHgs index1 out1 w1 Hmr1) as (index2 & out2 & w2 & -> & Hr2 & Hsz2).
      eexists _, _, _. split; [reflexivity|].
      split; [eauto using overlayOnly_trans|].
      intros mr ps Hmr' Hps' [Hlg Hlgs].
      assert (mr = mapRenderer) as -> by congruence.
      rewrite (Hsz2 mapRenderer ps eq_refl Hps' Hlgs), (Hsz1 mapRenderer ps Hmr Hps' Hlg). lia.
Qed.

(** C1, as the code has it.  On a layer that has a map renderer with a
    projection surface, and for a geometry tree whose lines have at least one
    vertex, the overlay point build started at index 0 on an empty vector gives
    as many points as the tree has slots: 1 for a point, [2N - 1] for a line of [N] vertices, for
    a polygon the sum over its rings of twice the ring's length, less 2 when the
    ring is closed, and for a collection the sum over its children.  On a layer
    without a map renderer, or whose map renderer has no projection surface,
    the build returns at once for every geometry: the index and the vector are
    returned as they were given and the world is as it was. *)
Theorem createGeometryOverlayPoints_size (geometry : Geometry) (w : World) :
  (∀ (mapRenderer : MapRenderer) (projectionSurface : ProjectionSurface),
     getMapRenderer (layer w) = Some mapRenderer →
     getProjectionSurface mapRenderer = Some projectionSurface →
     linesNonEmpty geometry →
     ∃ index overlayPoints w',
       createGeometryOverlayPoints geometry 0 [] w = Some ((index, overlayPoints), w')
       ∧ size overlayPoints = slotCount geometry)
  ∧ (getMapRenderer (layer w) = None
     ∨ (∃ mapRenderer, getMapRenderer (layer w) = Some mapRenderer
                       ∧ getProjectionSurface mapRenderer = None) →
     ∀ (index : Z) (overlayPoints : list Point),
       createGeometryOverlayPoints geometry index overlayPoints w
       = Some ((index, overlayPoints), w)).
Proof.
  split.
  - intros mapRenderer projectionSurface Hmr Hps Hlines.
    destruct (createGeometryOverlayPoints_runs geometry 0 [] w)
      as (index & out & w' & Hrun & _ & Hsz).
    exists index, out, w'. split; [done|].
    rewrite (Hsz _ _ Hmr Hps Hlines). unfold size; simpl; lia.
  - intros Hdetached index overlayPoints.
    destruct geometry; cbn [createGeometryOverlayPoints]; unfold bind at 1, gets at 1;
      destruct Hdetached as [-> | (mapRenderer & -> & ->)]; reflexivity.
Qed.

(** ** Insertion at a virtual handle *)

Lemma static_cast_int_range (n : Z) : - 2 ^ 31 ≤ static_cast_int n ≤ INT_MAX.
Proof.
  unfold static_cast_int, INT_MAX.
  assert (Hm : 0 ≤ (n + 2 ^ 31) mod 2 ^ 32 < 2 ^ 32) by (apply Z.mod_pos_bound; lia).
  lia.
Qed.

(** At index [INT_MAX] no overlay point is reused. *)
Lemma createOverlayPoint_INT_MAX (mapPos : MapPos) (virtualPoint : bool) (w : World) :
  createOverlayPoint mapPos virtualPoint INT_MAX w
  = make_shared_Point mapPos
      (if virtualPoint then _overlayStyleVirtual (layer w) else _overlayStyleNormal (layer w)) w.
Proof.
  unfold createOverlayPoint, bind, gets. cbn beta iota.
  pose proof (static_cast_int_range (size (_overlayPoints (layer w)))) as Hr.
  rewrite (bool_decide_false (INT_MAX < _)) by lia.
  rewrite andb_false_r. reflexivity.
Qed.

Lemma insertOverlayPoints_spliced (n : nat) (mapPos : MapPos) (w : World) :
  (n < length (_overlayPoints (layer w)))%nat →
  insertOverlayPoints (Z.of_nat n) mapPos w = Some (tt, splicedWorld w n mapPos).
Proof.
  intros Hn. unfold insertOverlayPoints.
  unfold bind at 1. rewrite createOverlayPoint_INT_MAX. unfold make_shared_Point.
  unfold bind at 1, gets at 1. cbn [layer].
  unfold bind at 1, lift at 1.
  rewrite vec_insert_Some by (unfold size; lia).
  unfold bind at 1, modify at 1. cbn [layer elements next_point calls].
  unfold bind at 1. rewrite createOverlayPoint_INT_MAX. unfold make_shared_Point.
  unfold bind at 1, gets at 1. cbn [layer set_overlayPoints _overlayPoints
    _overlayStyleNormal _overlayStyleVirtual elements next_point calls].
  unfold bind at 1, lift at 1.
  rewrite vec_insert_Some.
  2:{ unfold size. rewrite length_app, length_take. simpl. lia. }
  unfold modify. cbn [layer set_overlayPoints _overlayPoints elements next_point calls].
  unfold splicedWorld, splicedOverlayPoints, set_overlayPoints. cbn.
  replace (Z.to_nat (Z.of_nat n - 0)) with n by lia.
  replace (Z.to_nat (Z.of_nat n + 1)) with (S n) by lia.
  do 4 f_equal.
  rewrite take_app_le by (rewrite length_take; lia).
  rewrite take_take, Nat.min_l by lia.
  rewrite drop_app_le by (rewrite length_take; lia).
  reflexivity.
Qed.

Lemma splicedOverlayPoints_size (w : World) (n : nat) (mapPos : MapPos) :
  (n < length (_overlayPoints (layer w)))%nat →
  size (splicedOverlayPoints w n mapPos) = size (_overlayPoints (layer w)) + 2.
Proof.
  intros Hn. unfold splicedOverlayPoints, size.
  rewrite length_app, length_take. cbn [length].
  rewrite length_app, length_drop, length_take. cbn [length].
  rewrite length_drop. lia.
Qed.

(** The point the splices leave between the two new ones is the point that was
    at the index. *)
Lemma splicedOverlayPoints_middle (w : World) (n : nat) (mapPos : MapPos) (p : Point) :
  _overlayPoints (layer w) !! n = Some p →
  drop n (take (S n) (_overlayPoints (layer w))) = [p].
Proof.
  intros Hp. rewrite (take_S_r _ _ _ Hp).
  rewrite drop_app_length' by (rewrite length_take; apply lookup_lt_Some in Hp; lia).
  done.
Qed.

Lemma odd_rem_quot (k : nat) :
  Z.rem (2 * Z.of_nat k + 1) 2 ≠ 0 ∧ Z.quot (2 * Z.of_nat k + 1) 2 = Z.of_nat k.
Proof.
  rewrite Z.rem_mod_nonneg, Z.quot_div_nonneg by lia.
  split; Z.div_mod_to_equations; lia.
Qed.

Lemma even_rem_quot (k : nat) :
  Z.rem (2 * Z.of_nat k) 2 = 0 ∧ Z.quot (2 * Z.of_nat k) 2 = Z.of_nat k.
Proof.
  rewrite Z.rem_mod_nonneg, Z.quot_div_nonneg by lia.
  split; Z.div_mod_to_equations; lia.
Qed.

Lemma ringSlotCount_nonneg (ring : list MapPos) : 0 ≤ ringSlotCount ring.
Proof.
  unfold ringSlotCount. destruct (closedRing ring) eqn:Hc.
  - apply closedRing_nonempty in Hc. destruct ring; [done|]. rewrite size_cons.
    pose proof (size_nonneg ring). lia.
  - pose proof (size_nonneg ring). lia.
Qed.

Lemma ringsSlotCount_nonneg (rings : list (list MapPos)) : 0 ≤ ringsSlotCount rings.
Proof.
  unfold ringsSlotCount. induction rings as [|ring rings IH]; simpl; [lia|].
  pose proof (ringSlotCount_nonneg ring). lia.
Qed.

Lemma ringsSlotCount_cons (ring : list MapPos) (rings : list (list MapPos)) :
  ringsSlotCount (ring :: rings) = ringSlotCount ring + ringsSlotCount rings.
Proof. reflexivity. Qed.

(** The [points] of a ring whose size fits. *)
Lemma ring_points (ring : list MapPos) :
  fitsInt ring →
  static_cast_int (size ring * 2) - (if closedRing ring then 2 else 0) = ringSlotCount ring.
Proof.
  intros Hfit. unfold fitsInt in Hfit. pose proof (size_nonneg ring).
  rewrite static_cast_int_small by lia. unfold ringSlotCount. lia.
Qed.

(** The loop of [updateGeometryPoint] passes the rings in front of the index. *)
Lemma updateRings_pre (pre : list (list MapPos)) :
  ∀ (done todo : list (list MapPos)) (offset points index : Z) (mapPos : MapPos) (w : World),
  Forall fitsInt pre →
  offset + points + ringsSlotCount pre ≤ index →
  ∃ offset' points',
    offset' + points' = offset + points + ringsSlotCount pre
    ∧ updateRings done (pre ++ todo) offset points index mapPos w
      = updateRings (done ++ pre) todo offset' points' index mapPos w.
Proof.
  induction pre as [|ring pre IH]; intros done todo offset points index mapPos w Hfit Hle.
  - exists offset, points. rewrite app_nil_r. split; [unfold ringsSlotCount; simpl; lia | done].
  - apply Forall_cons in Hfit as [Hring Hpre]. rewrite ringsSlotCount_cons in Hle.
    pose proof (ringsSlotCount_nonneg pre) as Hnn.
    cbn [app updateRings]. rewrite (ring_points ring Hring).
    rewrite bool_decide_false by lia.
    destruct (IH (done ++ [ring]) todo (offset + points) (ringSlotCount ring) index mapPos w
                Hpre ltac:(lia)) as (offset' & points' & Hsum & ->).
    exists offset', points'. rewrite ringsSlotCount_cons, <- app_assoc. split; [lia | done].
Qed.

(** The ring step of [updateGeometryPoint] at an odd local index. *)
Lemma updateRings_odd (done post : list (list MapPos)) (ring : list MapPos)
    (offset points : Z) (k n : nat) (mapPos : MapPos) (w : World) :
  fitsInt ring →
  Z.of_nat n = offset + points + (2 * Z.of_nat k + 1) →
  2 * Z.of_nat k + 1 < ringSlotCount ring →
  (n < length (_overlayPoints (layer w)))%nat →
  updateRings done (ring :: post) offset points (Z.of_nat n) mapPos w
  = Some ((Some (done ++ (take (S k) ring ++ mapPos :: drop (S k) ring) :: post),
           offset + points, ringSlotCount ring), splicedWorld w n mapPos).
Proof.
  intros Hfit Hn Hk Hov. cbn [updateRings]. rewrite (ring_points ring Hfit).
  replace (Z.of_nat n - (offset + points)) with (2 * Z.of_nat k + 1) by lia.
  destruct (odd_rem_quot k) as [Hrem Hquot].
  rewrite bool_decide_true by done. rewrite (bool_decide_false _ Hrem), Hquot.
  unfold bind at 1, lift at 1. rewrite vec_insert_Some.
  2:{ unfold ringSlotCount in Hk. pose proof (size_nonneg ring).
      unfold size in *. destruct (closedRing ring); lia. }
  unfold bind at 1. rewrite (insertOverlayPoints_spliced n mapPos w Hov).
  replace (Z.to_nat (Z.of_nat k + 1)) with (S k) by lia. reflexivity.
Qed.

(** C2.  For a line, or a ring of a polygon, and an odd local index [2k + 1]
    within its slots, [updateGeometryPoint] returns the geometry with [mapPos]
    inserted as vertex [k + 1] of that line or ring, and splices two new points
    into the overlay points around the point at the flat index: one with the
    normal (real vertex) style in front of it and one with the virtual style
    behind it.  The overlay points are two more than before. *)
Theorem updateGeometryPoint_odd_inserts (host : Host) (vertices : list MapPos)
    (offset : Z) (k n : nat) (mapPos : MapPos) (w : World) (dragged : Point) :
  hostFitsInt host vertices →
  Z.of_nat n = offset + hostOffset host + (2 * Z.of_nat k + 1) →
  2 * Z.of_nat k + 1 < hostSlotCount host vertices →
  _overlayPoints (layer w) !! n = Some dragged →
  ∃ w',
    updateGeometryPoint (hostGeometry host vertices) offset (Z.of_nat n) mapPos w
    = Some ((Some (hostGeometry host (take (S k) vertices ++ mapPos :: drop (S k) vertices)),
             offset + hostOffset host + hostSlotCount host vertices), w')
    ∧ (take (S k) vertices ++ mapPos :: drop (S k) vertices) !! S k = Some mapPos
    ∧ _overlayPoints (layer w')
      = take n (_overlayPoints (layer w))
        ++ [ {| pt_addr := S (next_point w); getPos := mapPos;
                getStyle := _overlayStyleNormal (layer w) |};
             dragged;
             {| pt_addr := next_point w; getPos := mapPos;
                getStyle := _overlayStyleVirtual (layer w) |} ]
        ++ drop (S n) (_overlayPoints (layer w))
    ∧ size (_overlayPoints (layer w')) = size (_overlayPoints (layer w)) + 2.
Proof.
  intros Hfit Hn Hk Hdragged.
  assert (Hov : (n < length (_overlayPoints (layer w)))%nat)
    by (by apply lookup_lt_Some in Hdragged).
  assert (Hvertices : (S k ≤ length vertices)%nat).
  { pose proof (size_nonneg vertices). destruct host; cbn [hostSlotCount] in Hk.
    - unfold size in *. lia.
    - unfold ringSlotCount, size in *. destruct (closedRing vertices); lia. }
  exists (splicedWorld w n mapPos). split; [|split; [|split]].
  - destruct host as [|pre post];
      cbn [hostGeometry hostOffset hostSlotCount hostFitsInt] in *.
    + unfold fitsInt in Hfit. pose proof (size_nonneg vertices).
      cbn [updateGeometryPoint]. rewrite bool_decide_false by lia.
      rewrite static_cast_int_small by lia.
      replace (Z.of_nat n - offset) with (2 * Z.of_nat k + 1) by lia.
      destruct (odd_rem_quot k) as [Hrem Hquot].
      rewrite bool_decide_true by lia. rewrite (bool_decide_false _ Hrem), Hquot.
      unfold bind at 1, lift at 1. rewrite vec_insert_Some by (unfold size; lia).
      unfold bind at 1. rewrite (insertOverlayPoints_spliced n mapPos w Hov).
      replace (Z.to_nat (Z.of_nat k + 1)) with (S k) by lia. unfold ret.
      repeat (f_equal; try lia).
    + destruct Hfit as [Hpre Hring]. pose proof (ringsSlotCount_nonneg pre).
      cbn [updateGeometryPoint]. rewrite bool_decide_false by lia.
      unfold bind at 1.
      destruct (updateRings_pre pre [] (vertices :: post) offset 0 (Z.of_nat n) mapPos w
                  Hpre ltac:(lia)) as (offset' & points' & Hsum & ->).
      rewrite (updateRings_odd _ post vertices offset' points' k n mapPos w Hring
                 ltac:(lia) Hk Hov).
      unfold ret. cbn [app]. repeat (f_equal; try lia).
  - rewrite lookup_app_r by (rewrite length_take; lia).
    rewrite length_take, Nat.min_l by lia. by rewrite Nat.sub_diag.
  - cbn [splicedWorld layer set_overlayPoints _overlayPoints]. unfold splicedOverlayPoints.
    by rewrite (splicedOverlayPoints_middle w n mapPos dragged Hdragged).
  - cbn [splicedWorld layer set_overlayPoints _overlayPoints].
    by apply splicedOverlayPoints_size.
Qed.

(** ** Removal of a vertex *)

(** Two erasures at the same position take out the entry there and the one
    behind it. *)
Lemma delete_delete_same {A} (v : list A) (n : nat) :
  (n < length v)%nat → delete n (delete n v) = take n v ++ drop (S (S n)) v.
Proof.
  intros Hn. rewrite !delete_take_drop.
  rewrite take_app_le by (rewrite length_take; lia).
  rewrite take_take, Nat.min_l by lia.
  rewrite drop_app_ge by (rewrite length_take; lia).
  rewrite length_take, Nat.min_l by lia.
  rewrite drop_drop. do 2 f_equal. lia.
Qed.

(** An erasure and then one at the position in front take out the entry and
    the one in front of it. *)
Lemma delete_delete_pred {A} (v : list A) (n : nat) :
  (n < length v)%nat → delete n (delete (S n) v) = take n v ++ drop (S (S n)) v.
Proof.
  intros Hn. rewrite !delete_take_drop.
  rewrite take_app_le by (rewrite length_take; lia).
  rewrite take_take, Nat.min_l by lia.
  rewrite drop_app_le by (rewrite length_take; lia).
  rewrite (drop_ge (take (S n) v)) by (rewrite length_take; lia).
  reflexivity.
Qed.

(** C3.  [removeGeometryPoint] on a line at an even local index [2k] within
    its slots.  A line of more than two vertices loses vertex [k], and the
    overlay points lose two entries: the vertex's own and the midpoint in front
    of it, or, for the first vertex, the midpoint behind it.  A line of two
    vertices gives null.  A line of three vertices gives a line of two. *)
Theorem removeGeometryPoint_line (mapPoses : list MapPos) (offset : Z) (k n : nat)
    (w : World) :
  fitsInt mapPoses →
  0 ≤ offset →
  Z.of_nat n = offset + 2 * Z.of_nat k →
  2 * Z.of_nat k < 2 * size mapPoses - 1 →
  let overlayPoints := _overlayPoints (layer w) in
  let survivors :=
    match k with
    | O => take n overlayPoints ++ drop (n + 2) overlayPoints
    | S _ => take (n - 1) overlayPoints ++ drop (n + 1) overlayPoints
    end in
  (size mapPoses > 2 →
   offset + (2 * size mapPoses - 1) ≤ size overlayPoints →
   removeGeometryPoint (LineGeometry mapPoses) offset (Z.of_nat n) w
   = Some ((Some (LineGeometry (delete k mapPoses)), offset + (2 * size mapPoses - 1)),
           withOverlayPoints survivors w)
   ∧ size (delete k mapPoses) = size mapPoses - 1
   ∧ size survivors = size overlayPoints - 2)
  ∧ (size mapPoses = 2 →
     removeGeometryPoint (LineGeometry mapPoses) offset (Z.of_nat n) w
     = Some ((None, offset + 3), w))
  ∧ (size mapPoses = 3 →
     offset + 5 ≤ size overlayPoints →
     ∃ a b,
       removeGeometryPoint (LineGeometry mapPoses) offset (Z.of_nat n) w
       = Some ((Some (LineGeometry [a; b]), offset + 5), withOverlayPoints survivors w)).
Proof.
  intros Hfit Hoffset Hn Hk overlayPoints survivors.
  unfold fitsInt in Hfit. pose proof (size_nonneg mapPoses) as Hsz0.
  destruct (even_rem_quot k) as [Hrem Hquot].
  assert (Hrun : size mapPoses > 2 →
                 offset + (2 * size mapPoses - 1) ≤ size overlayPoints →
                 removeGeometryPoint (LineGeometry mapPoses) offset (Z.of_nat n) w
                 = Some ((Some (LineGeometry (delete k mapPoses)),
                          offset + (2 * size mapPoses - 1)),
                         withOverlayPoints survivors w)).
  { intros Hgt Hcover. cbn [removeGeometryPoint].
    rewrite bool_decide_false by lia. rewrite static_cast_int_small by lia.
    replace (Z.of_nat n - offset) with (2 * Z.of_nat k) by lia.
    rewrite bool_decide_true by lia. rewrite (bool_decide_true _ Hrem), Hquot.
    rewrite (bool_decide_true (size mapPoses > 2)) by done.
    unfold bind at 1, lift at 1. rewrite vec_erase_Some by (unfold size in *; lia).
    unfold bind at 1, gets at 1. fold overlayPoints.
    unfold bind at 1, lift at 1. rewrite vec_erase_Some by (unfold size in *; lia).
    unfold bind at 1, lift at 1. rewrite vec_erase_Some.
    2:{ unfold size in *. rewrite length_delete by (apply lookup_lt_is_Some_2; lia).
        case_bool_decide; lia. }
    unfold bind at 1, modify at 1, ret, withOverlayPoints.
    rewrite !Nat2Z.id.
    assert (Hsurvivors :
      delete (Z.to_nat (if bool_decide (2 * Z.of_nat k > 0)
                        then Z.of_nat n - 1 else Z.of_nat n)) (delete n overlayPoints)
      = survivors).
    { unfold survivors. destruct k as [|k].
      - rewrite bool_decide_false by lia. rewrite Nat2Z.id.
        rewrite delete_delete_same by (unfold size in *; lia).
        do 2 f_equal. lia.
      - rewrite bool_decide_true by lia.
        assert (Hpos : ∃ m, n = S m) by (exists (Nat.pred n); lia).
        destruct Hpos as [m ->].
        replace (Z.to_nat (Z.of_nat (S m) - 1)) with m by lia.
        rewrite delete_delete_pred by (unfold size in *; lia).
        replace (S m - 1)%nat with m by lia. do 2 f_equal. lia. }
    rewrite Hsurvivors. repeat (f_equal; try lia). }
  assert (Hlen : (k < length mapPoses)%nat) by (unfold size in *; lia).
  split; [|split].
  - intros Hgt Hcover. split; [by apply Hrun|]. split.
    + unfold size. rewrite length_delete by (by apply lookup_lt_is_Some_2). lia.
    + unfold survivors, size in *. destruct k as [|k];
        rewrite length_app, length_take, length_drop; lia.
  - intros H2. cbn [removeGeometryPoint].
    rewrite bool_decide_false by lia. rewrite static_cast_int_small by lia.
    replace (Z.of_nat n - offset) with (2 * Z.of_nat k) by lia.
    rewrite bool_decide_true by lia. rewrite (bool_decide_true _ Hrem).
    rewrite (bool_decide_false (size mapPoses > 2)) by lia.
    unfold ret. repeat (f_equal; try lia).
  - intros H3 Hcover.
    destruct mapPoses as [|a [|b [|c [|d rest]]]]; unfold size in H3; simpl in H3; try lia.
    rewrite Hrun by (unfold size in *; simpl in *; lia).
    destruct k as [|[|[|k]]]; simpl in Hlen; try lia; cbn [delete list_delete];
      eexists _, _; repeat (f_equal; try (unfold size; simpl; lia)).
Qed.

(** ** The touch handler *)

Lemma extendsCalls_refl (w : World) : extendsCalls w w.
Proof. exists []. by rewrite app_nil_r. Qed.

Lemma extendsCalls_trans (w1 w2 w3 : World) :
  extendsCalls w1 w2 → extendsCalls w2 w3 → extendsCalls w1 w3.
Proof.
  intros [e1 H1] [e2 H2]. exists (e1 ++ e2). by rewrite H2, H1, app_assoc.
Qed.

Lemma keepsSelection_refl (w : World) : keepsSelection w w.
Proof. split; [done | apply extendsCalls_refl]. Qed.

Lemma keepsSelection_trans (w1 w2 w3 : World) :
  keepsSelection w1 w2 → keepsSelection w2 w3 → keepsSelection w1 w3.
Proof.
  intros [Hs1 Hc1] [Hs2 Hc2]. split; [congruence | eauto using extendsCalls_trans].
Qed.

Lemma overlayOnly_keepsSelection (w w' : World) : overlayOnly w w' → keepsSelection w w'.
Proof.
  intros (_ & Hc & ov & Hl). split; [by rewrite Hl|].
  exists []. by rewrite app_nil_r.
Qed.

Lemma syncElementOverlayPoints_runs (element : option ElementPtr) (w : World) :
  ∃ w', syncElementOverlayPoints element w = Some (tt, w') ∧ overlayOnly w w'.
Proof.
  assert (Hset : ∀ ov w1, overlayOnly w w1 →
            ∃ w', modify (set_overlayPoints ov) w1 = Some (tt, w') ∧ overlayOnly w w').
  { intros ov w1 (He & Hc & ov1 & Hl). eexists. split; [reflexivity|].
    repeat split; [done | done |]. exists ov. cbn [layer]. by rewrite Hl. }
  unfold syncElementOverlayPoints. unfold bind at 1.
  destruct element as [element|]; [|apply Hset, overlayOnly_refl].
  unfold bind at 1, deref at 1.
  destruct (isVisible (elements w element)); [|apply Hset, overlayOnly_refl].
  destruct (getGeometry (elements w element)) as [geometry|]; [|apply Hset, overlayOnly_refl].
  unfold bind at 1.
  destruct (createGeometryOverlayPoints_runs geometry 0 [] w)
    as (index & out & w1 & -> & Hr & _).
  by apply Hset.
Qed.

Lemma notifyElementModify_runs (element : ElementPtr) (geometry : option Geometry) (w : World) :
  ∃ w', notifyElementModify element geometry w = Some (tt, w')
        ∧ layer w' = layer w ∧ extendsCalls w w'.
Proof.
  unfold notifyElementModify, bind, gets, call, modify_elements.
  destruct (_vectorEditEventListener (layer w)).
  - eexists. split; [reflexivity|]. split; [done|]. by eexists.
  - eexists. split; [reflexivity|]. split; [done|]. apply extendsCalls_refl.
Qed.

Lemma notifyElementDelete_runs (element : ElementPtr) (w : World) :
  ∃ w', notifyElementDelete element w = Some (tt, w')
        ∧ layer w' = layer w ∧ extendsCalls w w'.
Proof.
  unfold notifyElementDelete, bind, gets, call, modify_elements.
  destruct (_vectorEditEventListener (layer w)).
  - eexists. split; [reflexivity|]. split; [done|]. by eexists.
  - eexists. split; [reflexivity|]. split; [done|]. apply extendsCalls_refl.
Qed.

Lemma redraw_runs (w : World) :
  ∃ w', redraw w = Some (tt, w') ∧ layer w' = layer w ∧ extendsCalls w w'.
Proof. eexists. split; [reflexivity|]. split; [done|]. by eexists. Qed.

Lemma updateElementGeometry_runs (element : option ElementPtr) (geometry : option Geometry)
    (viewState : ViewState) (mapPos0 mapPos1 : MapPos) (w : World) :
  ∃ w', updateElementGeometry element geometry viewState mapPos0 mapPos1 w = Some (tt, w')
        ∧ keepsSelection w w'.
Proof.
  unfold updateElementGeometry. destruct element as [element|].
  - unfold bind at 1.
    destruct (notifyElementModify_runs element
                (if bool_decide (mapPos0 ≠ mapPos1)
                 then updateGeometryPoints geometry viewState mapPos0 mapPos1
                 else geometry) w) as (w1 & -> & Hl1 & Hc1).
    unfold bind at 1.
    destruct (syncElementOverlayPoints_runs (Some element) w1) as (w2 & -> & Ho2).
    destruct (redraw_runs w2) as (w3 & -> & Hl3 & Hc3).
    eexists. split; [reflexivity|].
    apply (keepsSelection_trans _ w1); [by split; [rewrite Hl1|]|].
    apply (keepsSelection_trans _ w2); [by apply overlayOnly_keepsSelection|].
    by split; [rewrite Hl3|].
  - eexists. split; [reflexivity | apply keepsSelection_refl].
Qed.

Lemma removeElement_runs (element : ElementPtr) (w : World) :
  ∃ w', removeElement element w = Some (tt, w') ∧ keepsSelection w w'.
Proof.
  unfold removeElement. unfold bind at 1.
  destruct (notifyElementDelete_runs element w) as (w1 & -> & Hl1 & Hc1).
  unfold bind at 1.
  destruct (syncElementOverlayPoints_runs None w1) as (w2 & -> & Ho2).
  destruct (redraw_runs w2) as (w3 & -> & Hl3 & Hc3).
  eexists. split; [reflexivity|].
  apply (keepsSelection_trans _ w1); [by split; [rewrite Hl1|]|].
  apply (keepsSelection_trans _ w2); [by apply overlayOnly_keepsSelection|].
  by split; [rewrite Hl3|].
Qed.

Lemma askListener_runs (vectorEditEventListener : option VectorEditEventListener)
    (callback : VectorEditEventListener → VectorElementDragInfo → VectorElementDragResult)
    (logged : VectorElementDragInfo → Call) (dragInfo : VectorElementDragInfo) (w : World) :
  ∃ dragResult w1,
    askListener vectorEditEventListener callback logged dragInfo w = Some (dragResult, w1)
    ∧ layer w1 = layer w ∧ extendsCalls w w1.
Proof.
  unfold askListener. destruct vectorEditEventListener.
  - eexists _, _. split; [reflexivity|]. split; [done|]. by eexists.
  - eexists _, _. split; [reflexivity|]. split; [done|]. apply extendsCalls_refl.
Qed.

(** The body of the loop over the layer's hits returns when the rest of the
    loop does. *)
Lemma pointerDownElement_runs (dragResult : VectorElementDragResult)
    (selectedElement : ElementPtr) (viewState : ViewState) (mapPos1 : MapPos)
    (continue : M (option bool)) (w : World) :
  (∀ w1, ∃ returned w', continue w1 = Some (returned, w') ∧ keepsSelection w1 w') →
  ∃ returned w',
    pointerDownElement dragResult selectedElement viewState mapPos1 continue w
    = Some (returned, w')
    ∧ keepsSelection w w'.
Proof.
  intros Hcontinue. unfold pointerDownElement.
  unfold bind at 1, modify at 1. unfold bind at 1, deref at 1.
  unfold bind at 1, modify at 1. unfold bind at 1, modify at 1.
  cbn [layer elements next_point calls].
  match goal with
  | |- context [match dragResult with _ => _ end ?w0] =>
      remember w0 as w2 eqn:Ew2;
      assert (Hw2 : keepsSelection w w2)
        by (subst w2; split; [reflexivity | exists []; cbn; by rewrite app_nil_r]);
      clear Ew2
  end.
  destruct dragResult.
  - unfold bind at 1, modify at 1.
    match goal with
    | |- context [continue ?w3] => destruct (Hcontinue w3) as (returned & w' & -> & Hk)
    end.
    eexists _, _. split; [reflexivity|].
    eapply keepsSelection_trans; [exact Hw2|].
    eapply keepsSelection_trans; [|exact Hk].
    split; [reflexivity | exists []; cbn; by rewrite app_nil_r].
  - eexists _, _. split; [reflexivity|].
    eapply keepsSelection_trans; [exact Hw2|].
    split; [reflexivity | exists []; cbn; by rewrite app_nil_r].
  - unfold bind at 1, modify at 1. unfold bind at 1, deref at 1. cbn [elements].
    unfold bind at 1.
    match goal with
    | |- context [updateElementGeometry ?e ?g ?v ?a ?b ?w3] =>
        destruct (updateElementGeometry_runs e g v a b w3) as (w' & -> & Hk)
    end.
    eexists _, _. split; [reflexivity|].
    eapply keepsSelection_trans; [exact Hw2|].
    eapply keepsSelection_trans; [|exact Hk].
    split; [reflexivity | exists []; cbn; by rewrite app_nil_r].
  - unfold bind at 1.
    destruct (removeElement_runs selectedElement w2) as (w' & -> & Hk).
    eexists _, _. split; [reflexivity|].
    eapply keepsSelection_trans; [exact Hw2| exact Hk].
Qed.

(** The loop over the layer's hits returns, whatever the listener answers. *)
Lemma pointerDownElements_runs (vectorEditEventListener : option VectorEditEventListener)
    (selectedElement : ElementPtr) (viewState : ViewState) (screenPos1 : ScreenPos)
    (mapPos1 : MapPos) (results : list ElementPtr) :
  ∀ w : World,
  ∃ returned w',
    pointerDownElements vectorEditEventListener selectedElement viewState screenPos1 mapPos1
      results w = Some (returned, w')
    ∧ keepsSelection w w'.
Proof.
  induction results as [|result results IH]; intros w.
  - eexists _, _. split; [reflexivity | apply keepsSelection_refl].
  - cbn [pointerDownElements]. case_bool_decide as Hresult; [apply IH|].
    unfold bind at 1.
    match goal with
    | |- context [askListener ?l ?cb ?lg ?info w] =>
        destruct (askListener_runs l cb lg info w) as (dragResult & w1 & -> & Hl1 & Hc1)
    end.
    destruct (pointerDownElement_runs dragResult selectedElement viewState mapPos1 _ w1 IH)
      as (returned & w' & -> & Hk).
    eexists _, _. split; [reflexivity|].
    eapply keepsSelection_trans; [|exact Hk]. by split; [rewrite Hl1|].
Qed.

(** Hits on other objects than the selected element are passed over. *)
Lemma pointerDownElements_others (vectorEditEventListener : option VectorEditEventListener)
    (selectedElement : ElementPtr) (viewState : ViewState) (screenPos1 : ScreenPos)
    (mapPos1 : MapPos) (others results : list ElementPtr) (w : World) :
  selectedElement ∉ others →
  pointerDownElements vectorEditEventListener selectedElement viewState screenPos1 mapPos1
    (others ++ results) w
  = pointerDownElements vectorEditEventListener selectedElement viewState screenPos1 mapPos1
      results w.
Proof.
  induction others as [|other others IH]; intros Hothers; [done|].
  apply not_elem_of_cons in Hothers as [Hother Hothers].
  cbn [app pointerDownElements]. rewrite bool_decide_true by done. by apply IH.
Qed.

(** Pointer down on a layer with a renderer, a projection surface, a finite
    world position and a selection: the two parts of the case. *)
Lemma onTouchEvent_pointer_down (w : World) (mapRenderer : MapRenderer)
    (projectionSurface : ProjectionSurface) (selectedElement : ElementPtr)
    (screenPos1 screenPos2 : ScreenPos) (results : RayIntersections) :
  getMapRenderer (layer w) = Some mapRenderer →
  getProjectionSurface mapRenderer = Some projectionSurface →
  norm_isnan (screenToWorld (getViewState mapRenderer) screenPos1) = false →
  _selectedVectorElement (layer w) = Some selectedElement →
  let mapPos1 :=
    worldToMapPos projectionSurface (screenToWorld (getViewState mapRenderer) screenPos1) in
  onTouchEvent false ACTION_POINTER_1_DOWN screenPos1 screenPos2 results w
  = match pointerDownOverlay (_vectorEditEventListener (layer w)) selectedElement
            (_overlayDragPoint (layer w)) screenPos1 mapPos1 (overlayResults results) w with
    | Some (Some b, w1) => Some (b, w1)
    | Some (None, w1) =>
      match pointerDownElements (_vectorEditEventListener (layer w)) selectedElement
              (getViewState mapRenderer) screenPos1 mapPos1 (layerResults results) w1 with
      | Some (Some b, w2) => Some (b, w2)
      | Some (None, w2) => Some (false, w2)
      | None => None
      end
    | None => None
    end.
Proof.
  intros Hmr Hps Hnan Hsel mapPos1.
  unfold onTouchEvent, bind, gets, getSelectedVectorElement, ret.
  rewrite Hmr, Hps, Hnan. unfold gets. rewrite Hsel.
  destruct (pointerDownOverlay _ _ _ _ _ _ w) as [[[b|] w1]|]; [done | | done].
  by destruct (pointerDownElements _ _ _ _ _ _ w1) as [[[b|] w2]|].
Qed.

(** C8.  When the world position of the event is not a number, the touch
    handler returns false and the world is as before: no field of the layer
    changed, no geometry changed and no call was made. *)
Theorem onTouchEvent_nan (expired : bool) (action : TouchAction)
    (screenPos1 screenPos2 : ScreenPos) (results : RayIntersections) (w : World)
    (mapRenderer : MapRenderer) :
  getMapRenderer (layer w) = Some mapRenderer →
  norm_isnan (screenToWorld (getViewState mapRenderer) screenPos1) = true →
  onTouchEvent expired action screenPos1 screenPos2 results w = Some (false, w).
Proof.
  intros Hmr Hnan. unfold onTouchEvent. destruct expired; [done|].
  unfold bind, gets. rewrite Hmr.
  destruct (getProjectionSurface mapRenderer); [|done].
  by rewrite Hnan.
Qed.

(** Without a drag point the point edits do nothing: no overlay point is the
    null pointer. *)
Lemma findOverlayPoint_null (overlayPoints : list Point) :
  findOverlayPoint overlayPoints None = None.
Proof.
  unfold findOverlayPoint.
  destruct (list_find _ overlayPoints) as [[i p]|] eqn:Hfind; [|done].
  by apply list_find_Some in Hfind as (_ & Hp & _).
Qed.

Lemma updateElementPoint_null (element : option ElementPtr) (mapPos : MapPos) (w : World) :
  updateElementPoint element None mapPos w = Some (tt, w).
Proof.
  unfold updateElementPoint. destruct element; [|done].
  unfold bind, gets. by rewrite findOverlayPoint_null.
Qed.

Lemma removeElementPoint_null (element : option ElementPtr) (w : World) :
  removeElementPoint element None w = Some (tt, w).
Proof.
  unfold removeElementPoint. destruct element; [|done].
  unfold bind, gets. by rewrite findOverlayPoint_null.
Qed.

(** Pointer down on an overlay point, answered [STOP]: the event is consumed,
    the drag point is null again, and nothing but the call of [onDragStart] was
    done. *)
Lemma pointerDown_vertex_stop (w : World) (mapRenderer : MapRenderer)
    (projectionSurface : ProjectionSurface) (selectedElement : ElementPtr)
    (listener : VectorEditEventListener) (screenPos1 screenPos2 : ScreenPos)
    (results : RayIntersections) (front : PointPtr) (others : list PointPtr) :
  getMapRenderer (layer w) = Some mapRenderer →
  getProjectionSurface mapRenderer = Some projectionSurface →
  norm_isnan (screenToWorld (getViewState mapRenderer) screenPos1) = false →
  _selectedVectorElement (layer w) = Some selectedElement →
  _vectorEditEventListener (layer w) = Some listener →
  overlayResults results = front :: others →
  let dragInfo := dragInfoOf selectedElement VECTOR_ELEMENT_DRAG_MODE_VERTEX
                    mapRenderer projectionSurface screenPos1 in
  onDragStart listener dragInfo = VECTOR_ELEMENT_DRAG_RESULT_STOP →
  onTouchEvent false ACTION_POINTER_1_DOWN screenPos1 screenPos2 results w
  = Some (true,
          {| layer := set_overlayDragPoint None
                        (set_overlayDragPoint (Some front)
                           (set_overlayDragMode VECTOR_ELEMENT_DRAG_MODE_VERTEX (layer w)));
             elements := elements w; next_point := next_point w;
             calls := calls w ++ [CallOnDragStart dragInfo] |}).
Proof.
  intros Hmr Hps Hnan Hsel Hl Hfront dragInfo Hstop.
  rewrite (onTouchEvent_pointer_down w mapRenderer projectionSurface selectedElement)
    by done.
  unfold pointerDownOverlay. rewrite Hfront, Hl.
  unfold askListener, bind, call, ret, modify. cbn.
  fold dragInfo. unfold dragInfoOf in dragInfo. fold dragInfo. by rewrite Hstop.
Qed.

(** Pointer down on the selected element itself, no overlay point hit,
    answered [STOP]: the handler returns false. *)
Lemma pointerDown_element_stop (w : World) (mapRenderer : MapRenderer)
    (projectionSurface : ProjectionSurface) (selectedElement : ElementPtr)
    (listener : VectorEditEventListener) (screenPos1 screenPos2 : ScreenPos)
    (results : RayIntersections) (others : list ElementPtr) :
  getMapRenderer (layer w) = Some mapRenderer →
  getProjectionSurface mapRenderer = Some projectionSurface →
  norm_isnan (screenToWorld (getViewState mapRenderer) screenPos1) = false →
  _selectedVectorElement (layer w) = Some selectedElement →
  _vectorEditEventListener (layer w) = Some listener →
  overlayResults results = [] →
  layerResults results = selectedElement :: others →
  let dragInfo := dragInfoOf selectedElement VECTOR_ELEMENT_DRAG_MODE_ELEMENT
                    mapRenderer projectionSurface screenPos1 in
  onDragStart listener dragInfo = VECTOR_ELEMENT_DRAG_RESULT_STOP →
  onTouchEvent false ACTION_POINTER_1_DOWN screenPos1 screenPos2 results w
  = Some (false,
          {| layer := set_overlayDragGeometry None
                        (set_overlayDragGeometryPos (getMapPos dragInfo)
                           (set_overlayDragGeometry
                              (getGeometry (elements w selectedElement))
                              (set_overlayDragMode VECTOR_ELEMENT_DRAG_MODE_ELEMENT
                                 (layer w))));
             elements := elements w; next_point := next_point w;
             calls := calls w ++ [CallOnDragStart dragInfo] |}).
Proof.
  intros Hmr Hps Hnan Hsel Hl Hnone Hhit dragInfo Hstop.
  rewrite (onTouchEvent_pointer_down w mapRenderer projectionSurface selectedElement)
    by done.
  unfold pointerDownOverlay. rewrite Hnone, Hhit, Hl. unfold ret at 1.
  cbn [pointerDownElements]. rewrite bool_decide_false by (by intros []).
  unfold askListener, pointerDownElement, bind, call, ret, modify, deref. cbn.
  fold dragInfo. unfold dragInfoOf in dragInfo. fold dragInfo. by rewrite Hstop.
Qed.

(** Pointer down on an overlay point while no drag point is set, answered
    [MODIFY]: the drag is started on the hit point, and this is all: no
    geometry is computed, [onElementModify] is not called. *)
Lemma pointerDown_vertex_modify (w : World) (mapRenderer : MapRenderer)
    (projectionSurface : ProjectionSurface) (selectedElement : ElementPtr)
    (listener : VectorEditEventListener) (screenPos1 screenPos2 : ScreenPos)
    (results : RayIntersections) (front : PointPtr) (others : list PointPtr) :
  getMapRenderer (layer w) = Some mapRenderer →
  getProjectionSurface mapRenderer = Some projectionSurface →
  norm_isnan (screenToWorld (getViewState mapRenderer) screenPos1) = false →
  _selectedVectorElement (layer w) = Some selectedElement →
  _vectorEditEventListener (layer w) = Some listener →
  _overlayDragPoint (layer w) = None →
  overlayResults results = front :: others →
  let dragInfo := dragInfoOf selectedElement VECTOR_ELEMENT_DRAG_MODE_VERTEX
                    mapRenderer projectionSurface screenPos1 in
  onDragStart listener dragInfo = VECTOR_ELEMENT_DRAG_RESULT_MODIFY →
  onTouchEvent false ACTION_POINTER_1_DOWN screenPos1 screenPos2 results w
  = Some (true,
          {| layer := set_overlayDragStarted true
                        (set_overlayDragPoint (Some front)
                           (set_overlayDragMode VECTOR_ELEMENT_DRAG_MODE_VERTEX (layer w)));
             elements := elements w; next_point := next_point w;
             calls := calls w ++ [CallOnDragStart dragInfo] |}).
Proof.
  intros Hmr Hps Hnan Hsel Hl Hdrag Hfront dragInfo Hmodify.
  rewrite (onTouchEvent_pointer_down w mapRenderer projectionSurface selectedElement)
    by done.
  unfold pointerDownOverlay. rewrite Hfront, Hl, Hdrag.
  unfold askListener. unfold bind at 1. unfold bind at 1, call at 1, ret at 1.
  fold dragInfo. unfold dragInfoOf in dragInfo. fold dragInfo. rewrite Hmodify.
  unfold bind at 1, modify at 1. unfold bind at 1, modify at 1.
  unfold bind at 1, modify at 1. unfold bind at 1.
  by rewrite updateElementPoint_null.
Qed.

(** C6, as the code has it.  At pointer down with no overlay point hit and a
    listener set, a hit on a rendered element makes a candidate drag of the
    whole element exactly when the hit object is the selected object itself
    (the pointers are compared, the ids are not looked at).  Without such a hit
    the handler returns false and nothing changed.  With one, [onDragStart]
    is called for an element drag; the selection stays as it was. *)
Theorem pointerDown_element_identity (w : World) (mapRenderer : MapRenderer)
    (projectionSurface : ProjectionSurface) (selectedElement : ElementPtr)
    (listener : VectorEditEventListener) (screenPos1 screenPos2 : ScreenPos)
    (results : RayIntersections) :
  getMapRenderer (layer w) = Some mapRenderer →
  getProjectionSurface mapRenderer = Some projectionSurface →
  norm_isnan (screenToWorld (getViewState mapRenderer) screenPos1) = false →
  _selectedVectorElement (layer w) = Some selectedElement →
  _vectorEditEventListener (layer w) = Some listener →
  overlayResults results = [] →
  (selectedElement ∉ layerResults results →
   onTouchEvent false ACTION_POINTER_1_DOWN screenPos1 screenPos2 results w
   = Some (false, w))
  ∧ (selectedElement ∈ layerResults results →
     ∃ consumed w' further,
       onTouchEvent false ACTION_POINTER_1_DOWN screenPos1 screenPos2 results w
       = Some (consumed, w')
       ∧ calls w'
         = calls w
           ++ CallOnDragStart (dragInfoOf selectedElement VECTOR_ELEMENT_DRAG_MODE_ELEMENT
                                 mapRenderer projectionSurface screenPos1) :: further
       ∧ _selectedVectorElement (layer w') = Some selectedElement).
Proof.
  intros Hmr Hps Hnan Hsel Hl Hnone.
  rewrite (onTouchEvent_pointer_down w mapRenderer projectionSurface selectedElement)
    by done.
  unfold pointerDownOverlay. rewrite Hnone, Hl. unfold ret at 1. unfold ret at 1.
  split.
  - intros Hothers.
    rewrite <- (app_nil_r (layerResults results)).
    by rewrite pointerDownElements_others.
  - intros (others & rest & -> & Hothers)%list_elem_of_split_l.
    rewrite pointerDownElements_others by done.
    cbn [pointerDownElements]. rewrite bool_decide_false by (by intros []).
    unfold bind at 1, askListener at 1. unfold bind at 1, call at 1, ret at 1.
    match goal with
    | |- context [pointerDownElement ?r ?e ?v ?m ?c ?w1] =>
        destruct (pointerDownElement_runs r e v m c w1) as (returned & w' & -> & Hk)
    end.
    { intros w1. apply pointerDownElements_runs. }
    destruct Hk as [Hsel' [further Hcalls]]. cbn [calls layer] in Hsel', Hcalls.
    exists (default false returned), w', further.
    split; [by destruct returned|]. split.
    + by rewrite Hcalls, <- app_assoc.
    + by rewrite Hsel'.
Qed.

(** C9.  Selecting an element other than the selected one: the selection, the
    overlay points, the drag state and the three styles are cleared first.
    Without a listener nothing more happens but the refresh, and the layer has
    no selection afterwards.  The element is the selection afterwards exactly
    when there is a listener whose [onElementSelect] accepts it. *)
Theorem setSelectedVectorElement_commit (element : ElementPtr) (w : World) :
  _selectedVectorElement (layer w) ≠ Some element →
  ∃ w',
    setSelectedVectorElement (Some element) w = Some (tt, w')
    ∧ _overlayPoints (layer w') = []
    ∧ _overlayDragPoint (layer w') = None
    ∧ _overlayDragGeometry (layer w') = None
    ∧ _overlayDragStarted (layer w') = false
    ∧ (_vectorEditEventListener (layer w) = None →
       getSelectedVectorElement w' = Some (None, w')
       ∧ _overlayStyleNormal (layer w') = None
       ∧ _overlayStyleVirtual (layer w') = None
       ∧ _overlayStyleSelected (layer w') = None
       ∧ calls w' = calls w ++ [CallRefresh]
       ∧ elements w' = elements w)
    ∧ (_selectedVectorElement (layer w') = Some element
       ↔ ∃ listener, _vectorEditEventListener (layer w) = Some listener
                     ∧ onElementSelect listener element = true).
Proof.
  intros Hnew. unfold setSelectedVectorElement.
  unfold bind at 1, gets at 1. rewrite bool_decide_false by congruence.
  unfold bind, modify, gets, refresh, call, ret, getSelectedVectorElement. cbn.
  destruct (_vectorEditEventListener (layer w)) as [listener|] eqn:Hl.
  - destruct (_selectedVectorElement (layer w)) as [old|] eqn:Hold; cbn;
      destruct (onElementSelect listener element) eqn:Haccept; cbn;
      (eexists; split; [reflexivity|]; cbn; repeat (split; [done|])).
    all: try (split; [intros _; by exists listener | done]).
    all: intros (l & [= <-] & Hyes); congruence.
  - eexists. split; [reflexivity|]. cbn. repeat (split; [done|]).
    by intros (l & Hsome & _).
Qed.

(** ** Removal in a polygon *)

(** The loop of [removeGeometryPoint] passes the rings in front of the index. *)
Lemma removeRings_pre (pre : list (list MapPos)) :
  ∀ (passed todo : list (list MapPos)) (offset points index : Z) (w : World),
  Forall fitsInt pre →
  offset + points + ringsSlotCount pre ≤ index →
  ∃ offset' points',
    offset' + points' = offset + points + ringsSlotCount pre
    ∧ removeRings passed (pre ++ todo) offset points index w
      = removeRings (passed ++ pre) todo offset' points' index w.
Proof.
  induction pre as [|ring pre IH]; intros passed todo offset points index w Hfit Hle.
  - exists offset, points. rewrite app_nil_r.
    split; [unfold ringsSlotCount; simpl; lia | reflexivity].
  - apply Forall_cons in Hfit as [Hring Hpre]. rewrite ringsSlotCount_cons in Hle.
    pose proof (ringsSlotCount_nonneg pre) as Hnn.
    cbn [app removeRings]. rewrite (ring_points ring Hring).
    rewrite bool_decide_false by lia.
    destruct (IH (passed ++ [ring]) todo (offset + points) (ringSlotCount ring) index w
                Hpre ltac:(lia)) as (offset' & points' & Hsum & ->).
    exists offset', points'. rewrite ringsSlotCount_cons, <- app_assoc.
    split; [lia | reflexivity].
Qed.

(** [std::find] of a ring in the rings gives the first ring of that value. *)
Lemma list_find_ring (pre post : list (list MapPos)) (ring : list MapPos) :
  ring ∉ pre →
  list_find (λ r, r = ring) (pre ++ ring :: post) = Some (length pre, ring).
Proof.
  intros Hpre. apply list_find_Some. split; [by apply list_lookup_middle|].
  split; [done|]. intros j r Hr Hj Heq. subst r.
  rewrite lookup_app_l in Hr by done. apply Hpre. by eapply list_elem_of_lookup_2.
Qed.

(** Removal at an even local index [2k] of the ring between [pre] and [post].
    A ring of more than six slots loses vertex [k], its closing position is
    rewritten when [k] is 0 and the ring is closed, and the overlay points
    lose the vertex's entry and the one behind it.  A ring of at most six
    slots is dropped: the rings are searched for the first ring of the same
    positions, and it is that ring which is erased, unless it is the first
    ring of the polygon, in which case the result is null. *)
Lemma removeGeometryPoint_ring (pre post : list (list MapPos)) (ring : list MapPos)
    (offset : Z) (k n : nat) (w : World) :
  Forall fitsInt pre → fitsInt ring →
  Z.of_nat n = offset + ringsSlotCount pre + 2 * Z.of_nat k →
  2 * Z.of_nat k < ringSlotCount ring →
  let overlayPoints := _overlayPoints (layer w) in
  let after := offset + ringsSlotCount pre + ringSlotCount ring in
  (ringSlotCount ring > 6 →
   Z.of_nat n + 1 < size overlayPoints →
   ∃ ring',
     (if closedRing ring && bool_decide (k = 0%nat)
      then vec_back_gets_front (delete k ring) else Some (delete k ring)) = Some ring'
     ∧ removeGeometryPoint (PolygonGeometry (pre ++ ring :: post)) offset (Z.of_nat n) w
       = Some ((Some (PolygonGeometry (pre ++ ring' :: post)), after),
               withOverlayPoints (take n overlayPoints ++ drop (S (S n)) overlayPoints) w))
  ∧ (ringSlotCount ring ≤ 6 →
     ∀ (first rest : list (list MapPos)),
     pre ++ ring :: post = first ++ ring :: rest → ring ∉ first →
     removeGeometryPoint (PolygonGeometry (pre ++ ring :: post)) offset (Z.of_nat n) w
     = Some ((match first with
              | [] => None
              | _ :: _ => Some (PolygonGeometry (first ++ rest))
              end, after), w)).
Proof.
  intros Hpre Hring Hn Hk overlayPoints after.
  pose proof (ringsSlotCount_nonneg pre) as Hnn.
  destruct (even_rem_quot k) as [Hrem Hquot].
  destruct (removeRings_pre pre [] (ring :: post) offset 0 (Z.of_nat n) w Hpre ltac:(lia))
    as (offset' & points' & Hsum & Hloop).
  cbn [app] in Hloop.
  split.
  - intros Hmany Hcover.
    assert (Hlen : (k < Nat.pred (length ring) ∨ closedRing ring = false ∧ k < length ring)%nat).
    { unfold ringSlotCount, size in Hk. destruct (closedRing ring); lia. }
    assert (Hklen : (k < length ring)%nat) by lia.
    assert (Hring' : ∃ ring',
              (if closedRing ring && bool_decide (k = 0%nat)
               then vec_back_gets_front (delete k ring) else Some (delete k ring))
              = Some ring').
    { destruct (closedRing ring && bool_decide (k = 0%nat)); [|by eexists].
      unfold vec_back_gets_front. rewrite head_lookup.
      destruct (lookup_lt_is_Some_2 (delete k ring) 0%nat) as [x ->]; [|by eexists].
      rewrite length_delete by (by apply lookup_lt_is_Some_2).
      unfold ringSlotCount, size in Hmany. destruct (closedRing ring); lia. }
    destruct Hring' as [ring' Hring']. exists ring'. split; [done|].
    cbn [removeGeometryPoint]. rewrite bool_decide_false by lia.
    unfold bind at 1. rewrite Hloop. cbn [removeRings]. rewrite (ring_points ring Hring).
    replace (Z.of_nat n - (offset' + points')) with (2 * Z.of_nat k) by lia.
    rewrite bool_decide_true by done. rewrite (bool_decide_true _ Hrem), Hquot.
    rewrite (bool_decide_true (ringSlotCount ring > 6)) by done.
    unfold bind at 1, lift at 1. rewrite vec_erase_Some by (unfold size; lia).
    rewrite Nat2Z.id.
    replace (bool_decide (2 * Z.of_nat k = 0)) with (bool_decide (k = 0%nat))
      by (apply bool_decide_ext; lia).
    unfold bind at 1.
    destruct (closedRing ring && bool_decide (k = 0%nat)).
    + unfold lift at 1. rewrite Hring'.
      unfold bind at 1, gets at 1. fold overlayPoints.
      unfold bind at 1, lift at 1. rewrite vec_erase_Some by (unfold size in *; lia).
      unfold bind at 1, lift at 1. rewrite vec_erase_Some.
      2:{ unfold size in *. rewrite length_delete by (apply lookup_lt_is_Some_2; lia). lia. }
      unfold bind at 1, modify at 1, ret, withOverlayPoints.
      replace (Z.to_nat (Z.of_nat n + 1)) with (S n) by lia. rewrite Nat2Z.id.
      rewrite delete_delete_pred by (unfold size in *; lia).
      repeat (f_equal; try lia).
    + injection Hring' as <-. unfold ret at 1.
      unfold bind at 1, gets at 1. fold overlayPoints.
      unfold bind at 1, lift at 1. rewrite vec_erase_Some by (unfold size in *; lia).
      unfold bind at 1, lift at 1. rewrite vec_erase_Some.
      2:{ unfold size in *. rewrite length_delete by (apply lookup_lt_is_Some_2; lia). lia. }
      unfold bind at 1, modify at 1, ret, withOverlayPoints.
      replace (Z.to_nat (Z.of_nat n + 1)) with (S n) by lia. rewrite Nat2Z.id.
      rewrite delete_delete_pred by (unfold size in *; lia).
      repeat (f_equal; try lia).
  - intros Hfew first rest Hsplit Hfirst.
    cbn [removeGeometryPoint]. rewrite bool_decide_false by lia.
    unfold bind at 1. rewrite Hloop. cbn [removeRings]. rewrite (ring_points ring Hring).
    replace (Z.of_nat n - (offset' + points')) with (2 * Z.of_nat k) by lia.
    rewrite bool_decide_true by done. rewrite (bool_decide_true _ Hrem).
    rewrite (bool_decide_false (ringSlotCount ring > 6)) by lia.
    rewrite Hsplit, (list_find_ring first rest ring Hfirst).
    destruct first as [|ring0 first].
    + rewrite bool_decide_false by (simpl; lia). unfold ret.
      repeat (f_equal; try lia).
    + rewrite bool_decide_true by (simpl; lia).
      unfold bind at 1, lift at 1.
      rewrite vec_erase_Some.
      2:{ unfold size. rewrite length_app. simpl. lia. }
      rewrite Nat2Z.id, delete_middle. unfold ret.
      repeat (f_equal; try lia).
Qed.

(** ** Ring closure *)

Lemma lift_Some {A} (o : option A) (w w' : World) (a : A) :
  lift o w = Some (a, w') → o = Some a ∧ w' = w.
Proof. unfold lift. destruct o; intros [= <- <-]; done. Qed.

Lemma vec_set_inv {A} (v v' : list A) (i : Z) (x : A) :
  vec_set v i x = Some v' → 0 ≤ i < size v ∧ v' = <[Z.to_nat i := x]> v.
Proof. unfold vec_set. case_bool_decide; intros [= <-]; done. Qed.

Lemma vec_insert_inv {A} (v v' : list A) (i : Z) (x : A) :
  vec_insert v i x = Some v' →
  0 ≤ i ≤ size v ∧ v' = take (Z.to_nat i) v ++ x :: drop (Z.to_nat i) v.
Proof. unfold vec_insert. case_bool_decide; intros [= <-]; done. Qed.

Lemma vec_erase_inv {A} (v v' : list A) (i : Z) :
  vec_erase v i = Some v' → 0 ≤ i < size v ∧ v' = delete (Z.to_nat i) v.
Proof. unfold vec_erase. case_bool_decide; intros [= <-]; done. Qed.

Lemma closedRing_lookup (ring : list MapPos) :
  closedRing ring = true
  ↔ ∃ pos, ring !! 0%nat = Some pos ∧ ring !! Nat.pred (length ring) = Some pos.
Proof.
  unfold closedRing. rewrite head_lookup, last_lookup. split.
  - destruct (ring !! 0%nat) as [front|]; [|done].
    destruct (ring !! Nat.pred (length ring)) as [back|]; [|done].
    intros ->%bool_decide_eq_true. by exists back.
  - intros (pos & -> & ->). by apply bool_decide_eq_true.
Qed.

(** Writing a vertex strictly between the two ends keeps a ring closed. *)
Lemma closedRing_insert_inner (ring : list MapPos) (k : nat) (pos : MapPos) :
  (0 < k)%nat → (k < Nat.pred (length ring))%nat →
  keepsClosed ring (<[k := pos]> ring).
Proof.
  intros Hk0 Hk. unfold keepsClosed. rewrite !closedRing_lookup.
  intros (x & Hfront & Hback). exists x.
  rewrite length_insert, !list_lookup_insert_ne by lia. done.
Qed.

(** [ring.back() = ring.front()] closes a ring. *)
Lemma closedRing_back_gets_front (ring ring' : list MapPos) :
  vec_back_gets_front ring = Some ring' → closedRing ring' = true.
Proof.
  unfold vec_back_gets_front. rewrite head_lookup.
  destruct (ring !! 0%nat) as [front|] eqn:Hfront; [|done]. intros [= <-].
  apply closedRing_lookup. exists front. rewrite length_insert.
  assert (Hlen : (0 < length ring)%nat) by (by apply lookup_lt_Some in Hfront).
  split.
  - destruct (decide (Nat.pred (length ring) = 0%nat)) as [->|Hne].
    + by rewrite list_lookup_insert_eq.
    + by rewrite list_lookup_insert_ne.
  - rewrite list_lookup_insert_eq by lia. done.
Qed.

(** Inserting a vertex behind the first and in front of the last keeps a ring
    closed. *)
Lemma closedRing_splice_inner (ring : list MapPos) (j : nat) (pos : MapPos) :
  (0 < j)%nat → (j < length ring)%nat →
  keepsClosed ring (take j ring ++ pos :: drop j ring).
Proof.
  intros Hj0 Hj. unfold keepsClosed. rewrite !closedRing_lookup.
  intros (x & Hfront & Hback). exists x. split.
  - rewrite lookup_app_l by (rewrite length_take; lia).
    rewrite lookup_take_lt by lia. done.
  - rewrite length_app, length_take. cbn [length]. rewrite length_drop.
    rewrite lookup_app_r by (rewrite length_take; lia).
    rewrite length_take.
    replace (Nat.pred (j `min` length ring + S (length ring - j))
             - j `min` length ring)%nat with (S (length ring - j - 1)) by lia.
    change ((pos :: drop j ring) !! S (length ring - j - 1))
      with (drop j ring !! (length ring - j - 1)%nat).
    rewrite lookup_drop.
    replace (j + (length ring - j - 1))%nat with (Nat.pred (length ring)) by lia.
    done.
Qed.

(** Erasing a vertex strictly between the two ends keeps a ring closed. *)
Lemma closedRing_delete_inner (ring : list MapPos) (k : nat) :
  (0 < k)%nat → (k < Nat.pred (length ring))%nat →
  keepsClosed ring (delete k ring).
Proof.
  intros Hk0 Hk. unfold keepsClosed. rewrite !closedRing_lookup.
  intros (x & Hfront & Hback). exists x.
  rewrite length_delete by (apply lookup_lt_is_Some_2; lia).
  split.
  - by rewrite list_lookup_delete_lt by lia.
  - rewrite list_lookup_delete_ge by lia.
    replace (S (Nat.pred (length ring - 1))) with (Nat.pred (length ring)) by lia.
    done.
Qed.

Lemma even_local_index (localIndex : Z) :
  0 ≤ localIndex → Z.rem localIndex 2 = 0 →
  localIndex = 2 * Z.quot localIndex 2 ∧ 0 ≤ Z.quot localIndex 2.
Proof.
  intros Hnn. rewrite Z.rem_mod_nonneg, Z.quot_div_nonneg by lia.
  intros Hrem. split; Z.div_mod_to_equations; lia.
Qed.

Lemma odd_local_index (localIndex : Z) :
  0 ≤ localIndex → Z.rem localIndex 2 ≠ 0 →
  localIndex = 2 * Z.quot localIndex 2 + 1 ∧ 0 ≤ Z.quot localIndex 2.
Proof.
  intros Hnn. rewrite Z.rem_mod_nonneg, Z.quot_div_nonneg by lia.
  intros Hrem. split; Z.div_mod_to_equations; lia.
Qed.

Lemma Forall2_keepsClosed_refl (rings : list (list MapPos)) :
  Forall2 keepsClosed rings rings.
Proof. induction rings; constructor; [by intros ? | done]. Qed.

Lemma Forall2_keepsClosed_all (rings rings' : list (list MapPos)) :
  Forall2 keepsClosed rings rings' →
  Forall (λ ring, closedRing ring = true) rings →
  Forall (λ ring, closedRing ring = true) rings'.
Proof.
  induction 1 as [|r r' rs rs' Hr Hrs IH]; [done|].
  intros [Hc Hcs]%Forall_cons. constructor; [by apply Hr | by apply IH].
Qed.

(** The loop of [updateGeometryPoint] keeps closed rings closed. *)
Lemma updateRings_keepsClosed (index : Z) (mapPos : MapPos) (todo : list (list MapPos)) :
  ∀ (done : list (list MapPos)) (offset points : Z) (w w' : World)
    (rings' : list (list MapPos)) (offset' points' : Z),
  Forall fitsInt todo →
  offset + points ≤ index →
  updateRings done todo offset points index mapPos w = Some ((Some rings', offset', points'), w') →
  ∃ todo', rings' = done ++ todo' ∧ Forall2 keepsClosed todo todo'.
Proof.
  induction todo as [|ring rest IH];
    intros passed offset points w w' rings' offset' points' Hfit Hle Hrun;
    [discriminate Hrun|].
  apply Forall_cons in Hfit as [Hring Hrest].
  cbn [updateRings] in Hrun. rewrite (ring_points ring Hring) in Hrun.
  pose proof (ringSlotCount_nonneg ring) as Hnn.
  case_bool_decide as Hin.
  2:{ destruct (IH (passed ++ [ring]) (offset + points) (ringSlotCount ring) w w' rings'
                  offset' points' Hrest ltac:(lia) Hrun)
        as (todo' & -> & Hall).
      exists (ring :: todo'). rewrite <- app_assoc. split; [done|].
      constructor; [by intros ? | done]. }
  set (localIndex := index - (offset + points)) in *.
  assert (Hlocal : 0 ≤ localIndex) by (unfold localIndex; lia).
  assert (Hslots : ringSlotCount ring
                   = 2 * size ring - (if closedRing ring then 2 else 0)) by done.
  case_bool_decide as Hrem.
  - destruct (even_local_index localIndex Hlocal Hrem) as [Heven Hk].
    unfold bind at 1 in Hrun.
    destruct (lift (vec_set ring (localIndex `quot` 2) mapPos) w) as [[ring1 w1]|] eqn:Hset;
      [|done].
    apply lift_Some in Hset as [[Hrange ->]%vec_set_inv ->].
    unfold bind at 1 in Hrun.
    destruct (closedRing ring && bool_decide (localIndex = 0)) eqn:Hmirror.
    + destruct (lift (vec_back_gets_front (<[Z.to_nat (localIndex `quot` 2):=mapPos]> ring)) w)
        as [[ring2 w2]|] eqn:Hback; [|done].
      apply lift_Some in Hback as [Hback ->]. injection Hrun as <- <- <- <-.
      eexists (_ :: rest). split; [done|].
      constructor; [|apply Forall2_keepsClosed_refl].
      intros _. by eapply closedRing_back_gets_front.
    + injection Hrun as <- <- <- <-.
      eexists (_ :: rest). split; [done|].
      constructor; [|apply Forall2_keepsClosed_refl].
      intros Hclosed. rewrite Hclosed in Hmirror, Hslots. cbn in Hmirror.
      apply bool_decide_eq_false in Hmirror.
      apply closedRing_insert_inner; [| |done]; unfold size in *; lia.
  - destruct (odd_local_index localIndex Hlocal Hrem) as [Hodd Hk].
    unfold bind at 1 in Hrun.
    destruct (lift (vec_insert ring (localIndex `quot` 2 + 1) mapPos) w)
      as [[ring1 w1]|] eqn:Hins; [|done].
    apply lift_Some in Hins as [[Hrange ->]%vec_insert_inv ->].
    unfold bind at 1 in Hrun.
    destruct (insertOverlayPoints index mapPos w) as [[[] w1]|]; [|done].
    injection Hrun as <- <- <- <-.
    eexists (_ :: rest). split; [done|].
    constructor; [|apply Forall2_keepsClosed_refl].
    intros Hclosed. rewrite Hclosed in Hslots.
    apply closedRing_splice_inner; [| |done]; unfold size in *; lia.
Qed.

(** The loop of [removeGeometryPoint] keeps closed rings closed, or drops a
    ring. *)
Lemma removeRings_keepsClosed (index : Z) (todo : list (list MapPos)) :
  ∀ (done : list (list MapPos)) (offset points : Z) (w w' : World)
    (rings' : list (list MapPos)) (offset' points' : Z),
  Forall fitsInt todo →
  offset + points ≤ index →
  removeRings done todo offset points index w = Some ((Some (Some rings'), offset', points'), w') →
  (∃ todo', rings' = done ++ todo' ∧ Forall2 keepsClosed todo todo')
  ∨ ∃ n, rings' = delete n (done ++ todo).
Proof.
  induction todo as [|ring rest IH];
    intros passed offset points w w' rings' offset' points' Hfit Hle Hrun;
    [discriminate Hrun|].
  apply Forall_cons in Hfit as [Hring Hrest].
  cbn [removeRings] in Hrun. rewrite (ring_points ring Hring) in Hrun.
  pose proof (ringSlotCount_nonneg ring) as Hnn.
  case_bool_decide as Hin.
  2:{ destruct (IH (passed ++ [ring]) (offset + points) (ringSlotCount ring) w w' rings'
                  offset' points' Hrest ltac:(lia) Hrun)
        as [(todo' & -> & Hall)|[n ->]].
      - left. exists (ring :: todo'). rewrite <- app_assoc. split; [done|].
        constructor; [by intros ? | done].
      - right. exists n. by rewrite <- app_assoc. }
  set (localIndex := index - (offset + points)) in *.
  assert (Hlocal : 0 ≤ localIndex) by (unfold localIndex; lia).
  assert (Hslots : ringSlotCount ring
                   = 2 * size ring - (if closedRing ring then 2 else 0)) by done.
  case_bool_decide as Hrem; [|done].
  destruct (even_local_index localIndex Hlocal Hrem) as [Heven Hk].
  case_bool_decide as Hmany.
  - left. unfold bind at 1 in Hrun.
    destruct (lift (vec_erase ring (localIndex `quot` 2)) w) as [[ring1 w1]|] eqn:Herase;
      [|done].
    apply lift_Some in Herase as [[Hrange ->]%vec_erase_inv ->].
    unfold bind at 1 in Hrun.
    destruct ((if closedRing ring && bool_decide (localIndex = 0)
               then lift (vec_back_gets_front (delete (Z.to_nat (localIndex `quot` 2)) ring))
               else ret (delete (Z.to_nat (localIndex `quot` 2)) ring)) w)
      as [[ring2 w2]|] eqn:Hmirrored; [|done].
    assert (Hkept : keepsClosed ring ring2).
    { destruct (closedRing ring && bool_decide (localIndex = 0)) eqn:Hmirror.
      - apply lift_Some in Hmirrored as [Hback ->].
        intros _. by eapply closedRing_back_gets_front.
      - injection Hmirrored as <- <-.
        intros Hclosed. rewrite Hclosed in Hmirror, Hslots. cbn in Hmirror.
        apply bool_decide_eq_false in Hmirror.
        apply closedRing_delete_inner; [| |done]; unfold size in *; lia. }
    unfold bind at 1, gets at 1 in Hrun. unfold bind at 1 in Hrun.
    destruct (lift (vec_erase (_overlayPoints (layer w2)) (index + 1)) w2)
      as [[ov1 w3]|]; [|done].
    unfold bind at 1 in Hrun.
    destruct (lift (vec_erase ov1 index) w3) as [[ov2 w4]|]; [|done].
    injection Hrun as <- <- <- <-.
    eexists (_ :: rest). split; [done|].
    constructor; [done | apply Forall2_keepsClosed_refl].
  - right.
    destruct (list_find (λ r, r = ring) (passed ++ ring :: rest)) as [[n r]|]; cbn in Hrun.
    + case_bool_decide; [|done]. unfold bind at 1 in Hrun.
      destruct (lift (vec_erase (passed ++ ring :: rest) (Z.of_nat n)) w)
        as [[rings1 w1]|] eqn:Herase; [|done].
      apply lift_Some in Herase as [[Hrange ->]%vec_erase_inv ->].
      injection Hrun as <- <- <- <-. by eexists.
    + case_bool_decide; [|done]. unfold bind at 1 in Hrun.
      destruct (lift (vec_erase (passed ++ ring :: rest) (size (passed ++ ring :: rest))) w)
        as [[rings1 w1]|] eqn:Herase; [|done].
      apply lift_Some in Herase as [[Hrange ->]%vec_erase_inv ->]. lia.
Qed.

(** C10.  For a polygon, whichever of the two mutators runs and whatever the
    index is, the polygon it returns has its rings in the order of the given
    polygon, each ring that was closed (first position equal to last position)
    still closed; [removeGeometryPoint] may instead return the given rings less
    one.  In both cases, if all rings were closed, all rings are closed. *)
Theorem mutate_keeps_rings_closed (mutation : Mutation) (rings : list (list MapPos))
    (offset index : Z) (w w' : World) (geometry' : Geometry) (offset' : Z) :
  Forall fitsInt rings →
  mutate mutation (PolygonGeometry rings) offset index w = Some ((Some geometry', offset'), w') →
  ∃ rings',
    geometry' = PolygonGeometry rings'
    ∧ match mutation with
      | Update _ => Forall2 keepsClosed rings rings'
      | Remove => Forall2 keepsClosed rings rings' ∨ ∃ n, rings' = delete n rings
      end
    ∧ (Forall (λ ring, closedRing ring = true) rings →
       Forall (λ ring, closedRing ring = true) rings').
Proof.
  intros Hfit Hrun.
  pose proof (Forall2_keepsClosed_all rings) as Hall.
  destruct mutation as [mapPos|]; cbn [mutate] in Hrun.
  - cbn [updateGeometryPoint] in Hrun. case_bool_decide as Hlt.
    { injection Hrun as <- <- <-. exists rings.
      split; [done|]. split; [apply Forall2_keepsClosed_refl | done]. }
    unfold bind at 1 in Hrun.
    destruct (updateRings [] rings offset 0 index mapPos w)
      as [[[[assigned offset1] points1] w1]|] eqn:Hloop; [|done].
    injection Hrun as <- <- <-.
    destruct assigned as [rings'|].
    + destruct (updateRings_keepsClosed index mapPos rings [] offset 0 w w1 rings'
                  offset1 points1 Hfit ltac:(lia) Hloop) as (todo' & -> & Hkept).
      exists todo'. split; [done|]. split; [done | by apply Hall].
    + exists rings. split; [done|]. split; [apply Forall2_keepsClosed_refl | done].
  - cbn [removeGeometryPoint] in Hrun. case_bool_decide as Hlt.
    { injection Hrun as <- <- <-. exists rings.
      split; [done|]. split; [left; apply Forall2_keepsClosed_refl | done]. }
    unfold bind at 1 in Hrun.
    destruct (removeRings [] rings offset 0 index w)
      as [[[[assigned offset1] points1] w1]|] eqn:Hloop; [|done].
    destruct assigned as [[rings'|]|]; [| done |].
    + injection Hrun as <- <- <-.
      destruct (removeRings_keepsClosed index rings [] offset 0 w w1 rings'
                  offset1 points1 Hfit ltac:(lia) Hloop) as [(todo' & -> & Hkept)|[n ->]].
      * exists todo'. split; [done|]. split; [by left | by apply Hall].
      * exists (delete n rings). split; [done|]. split; [right; by exists n|].
        cbn [app]. rewrite !Forall_forall. intros Hclosed ring Hring.
        apply Hclosed. by eapply list_elem_of_delete_inv.
    + injection Hrun as <- <- <-. exists rings.
      split; [done|]. split; [left; apply Forall2_keepsClosed_refl | done].
Qed.

(** ** Runs on the sample *)

(** A run that returns [a] leaves the world [after] it. *)
Lemma returned_world {A} (m : M A) (a : A) (w : World) :
  fst <$> m w = Some a → m w = Some (a, after m w).
Proof. unfold after. destruct (m w) as [[a' w']|]; [|done]. by intros [= ->]. Qed.

End Properties.

(** * The sample layer *)

Section Examples.
#[local] Existing Instance sample.

(** ** C1: the overlay point build *)

Lemma createGeometryOverlayPoints_size_witness :
  (∃ index overlayPoints w',
     createGeometryOverlayPoints sampleCollection 0 []
       (sampleWorld None transient sampleCollection)
     = Some ((index, overlayPoints), w')
     ∧ size overlayPoints = 14)
  ∧ createGeometryOverlayPoints sampleCollection 0 [] (surfacelessWorld sampleCollection)
    = Some ((0, []), surfacelessWorld sampleCollection).
Proof.
  split.
  - apply (proj1 (createGeometryOverlayPoints_size (H := sample) sampleCollection
                    (sampleWorld None transient sampleCollection)) sampleRenderer tt).
    + reflexivity.
    + reflexivity.
    + simpl. repeat split; discriminate.
  - apply (proj2 (createGeometryOverlayPoints_size (H := sample) sampleCollection
                    (surfacelessWorld sampleCollection))).
    right. eexists. split; reflexivity.
Defined.

(** The closed square of the specification has eight handles, real and
    virtual in turn. *)
Example square_has_eight_handles :
  getPos <$> _overlayPoints
               (layer (selected None transient (PolygonGeometry [sampleSquare]) 7%nat))
  = [(0, 0); (0, 5); (0, 10); (5, 10); (10, 10); (10, 5); (10, 0); (5, 0)].
Proof. vm_compute. reflexivity. Qed.

(** Without a map renderer the build returns at once: a point geometry has
    one slot and gets no overlay point. *)
Lemma createGeometryOverlayPoints_size_detached :
  ∃ w',
    createGeometryOverlayPoints (PointGeometry (7, 7)) 0 []
      (detachedWorld (PointGeometry (7, 7)))
    = Some ((0, []), w')
    ∧ size (@nil (@Point sample)) ≠ slotCount (PointGeometry (H := sample) (7, 7)).
Proof. eexists. split; [vm_compute; reflexivity | discriminate]. Qed.

(** A map renderer without a projection surface: the vector that the build is
    given comes back as it is, whatever is in it. *)
Example surfaceless_build_returns_at_once :
  let given := [@Build_Point sample 4 (1, 1) None] in
  createGeometryOverlayPoints (PolygonGeometry [sampleSquare]) 3 given
    (surfacelessWorld sampleLine3)
  = Some ((3, given), surfacelessWorld sampleLine3).
Proof. vm_compute. reflexivity. Qed.

(** A line without vertices has no point, where [2N - 1] is -1. *)
Example empty_line_builds_nothing :
  ∃ w', createGeometryOverlayPoints (LineGeometry []) 0 []
          (sampleWorld None transient (LineGeometry []))
        = Some ((0, []), w')
  ∧ slotCount (LineGeometry []) = -1.
Proof. eexists. vm_compute. split; reflexivity. Qed.

(** ** C2: a virtual handle of the square is dragged *)

Lemma updateGeometryPoint_odd_inserts_witness :
  let w := selected (Some (sampleListener VECTOR_ELEMENT_DRAG_RESULT_MODIFY)) transient
             (PolygonGeometry [sampleSquare]) 7%nat in
  ∃ w',
    updateGeometryPoint (PolygonGeometry [sampleSquare]) 0 1 (0, 5) w
    = Some ((Some (PolygonGeometry [[(0, 0); (0, 5); (0, 10); (10, 10); (10, 0); (0, 0)]]),
             8), w')
    ∧ [(0, 0); (0, 5); (0, 10); (10, 10); (10, 0); (0, 0)] !! 1%nat = Some (0, 5)
    ∧ _overlayPoints (layer w')
      = take 1 (_overlayPoints (layer w))
        ++ [ {| pt_addr := 9; getPos := (0, 5); getStyle := Some 0%nat |};
             {| pt_addr := 1; getPos := (0, 5); getStyle := Some 1%nat |};
             {| pt_addr := 8; getPos := (0, 5); getStyle := Some 1%nat |} ]
        ++ drop 2 (_overlayPoints (layer w))
    ∧ size (_overlayPoints (layer w')) = size (_overlayPoints (layer w)) + 2.
Proof.
  intros w.
  apply (updateGeometryPoint_odd_inserts (H := sample)
           (InRing [] []) sampleSquare 0 0 1 (0, 5) w
           (@Build_Point sample 1 (0, 5) (Some 1%nat))).
  - split; [constructor | reflexivity].
  - reflexivity.
  - reflexivity.
  - reflexivity.
Defined.

(** The scenario of the specification, through the touch handler: the square
    is selected, the handle between (0,0) and (0,10) is hit and then moved to
    (0,5) under [MODIFY].  The ring gets the vertex and the handles become ten. *)
Example square_virtual_handle_dragged :
  let w := selected (Some (sampleListener VECTOR_ELEMENT_DRAG_RESULT_MODIFY)) transient
             (PolygonGeometry [sampleSquare]) 7%nat in
  ∃ w1 w2,
    onTouchEvent false ACTION_POINTER_1_DOWN (0, 5) (0, 0)
      {| overlayResults := [1%nat]; layerResults := [] |} w = Some (true, w1)
    ∧ onTouchEvent false ACTION_MOVE (0, 5) (0, 0)
        {| overlayResults := []; layerResults := [] |} w1 = Some (true, w2)
    ∧ getGeometry (elements w2 7%nat)
      = Some (PolygonGeometry [[(0, 0); (0, 5); (0, 10); (10, 10); (10, 0); (0, 0)]])
    ∧ length (_overlayPoints (layer w2)) = 10%nat.
Proof.
  intros w.
  pose (down := onTouchEvent false ACTION_POINTER_1_DOWN (0, 5) (0, 0)
                  {| overlayResults := [1%nat]; layerResults := [] |}).
  pose (move := onTouchEvent false ACTION_MOVE (0, 5) (0, 0)
                  {| overlayResults := []; layerResults := [] |}).
  exists (after down w), (after move (after down w)).
  split; [apply (returned_world down); vm_compute; reflexivity|].
  split; [apply (returned_world move); vm_compute; reflexivity|].
  split; vm_compute; reflexivity.
Qed.

(** ** C3: vertices of a line are removed *)

Lemma removeGeometryPoint_line_witness :
  let w := selected None transient sampleLine3 7%nat in
  (size [(0, 0); (0, 10); (10, 10)] > 2 →
   0 + (2 * size [(0, 0); (0, 10); (10, 10)] - 1) ≤ size (_overlayPoints (layer w)) →
   removeGeometryPoint sampleLine3 0 2 w
   = Some ((Some (LineGeometry [(0, 0); (10, 10)]), 5),
           withOverlayPoints
             (take 1 (_overlayPoints (layer w)) ++ drop 3 (_overlayPoints (layer w))) w)
   ∧ size [(0, 0); (10, 10)] = 3 - 1
   ∧ size (take 1 (_overlayPoints (layer w)) ++ drop 3 (_overlayPoints (layer w)))
     = size (_overlayPoints (layer w)) - 2)
  ∧ (size [(0, 0); (0, 10); (10, 10)] = 2 →
     removeGeometryPoint sampleLine3 0 2 w = Some ((None, 3), w))
  ∧ (size [(0, 0); (0, 10); (10, 10)] = 3 →
     0 + 5 ≤ size (_overlayPoints (layer w)) →
     ∃ a b,
       removeGeometryPoint sampleLine3 0 2 w
       = Some ((Some (LineGeometry [a; b]), 5),
               withOverlayPoints
                 (take 1 (_overlayPoints (layer w)) ++ drop 3 (_overlayPoints (layer w)))
                 w)).
Proof.
  intros w.
  apply (removeGeometryPoint_line (H := sample) [(0, 0); (0, 10); (10, 10)] 0 1 2 w).
  - reflexivity.
  - lia.
  - reflexivity.
  - reflexivity.
Defined.

(** The first vertex goes with the midpoint behind it. *)
Example line_first_vertex_removed :
  let w := selected None transient sampleLine3 7%nat in
  observed (removeGeometryPoint sampleLine3 0 0 w)
  = Some (Some (LineGeometry [(0, 10); (10, 10)]), 5, [CallRefresh], Some sampleLine3,
          drop 2 (_overlayPoints (layer w)), None, false).
Proof. vm_compute. reflexivity. Qed.

(** A line of two vertices degenerates. *)
Example line_of_two_degenerates :
  let w := selected None transient sampleLine2 7%nat in
  fst <$> removeGeometryPoint sampleLine2 0 2 w = Some (None, 3)
  ∧ fst <$> removeGeometryPoint sampleLine2 0 0 w = Some (None, 3).
Proof. vm_compute. split; reflexivity. Qed.

(** ** C4: rings of a polygon are dropped *)

(** C4.  A polygon of two rings of the same positions, and the handle at flat
    index 6, which is local index 0 of the second ring (ring index 1, six
    slots).  [std::find] looks the ring up by value and finds ring index 0, so
    the whole polygon degenerates to null, although the ring at hand is not the
    outer boundary. *)
Theorem removeGeometryPoint_twin_ring :
  let polygon := PolygonGeometry [sampleTriangle; sampleTriangle] in
  let w := selected None transient polygon 7%nat in
  removeGeometryPoint polygon 0 6 w = Some ((None, 12), w).
Proof.
  intros polygon w.
  apply (proj2 (removeGeometryPoint_ring (H := sample) [sampleTriangle] [] sampleTriangle
                  0 0 6 w ltac:(by repeat constructor) ltac:(reflexivity)
                  ltac:(reflexivity) ltac:(reflexivity))
           ltac:(vm_compute; discriminate) [] [sampleTriangle]);
    [reflexivity | apply not_elem_of_nil].
Qed.

(** A second ring of other positions is dropped alone. *)
Example inner_ring_dropped :
  let polygon := PolygonGeometry [sampleSquare; sampleTriangle] in
  let w := selected None transient polygon 7%nat in
  removeGeometryPoint polygon 0 8 w
  = Some ((Some (PolygonGeometry [sampleSquare]), 14), w).
Proof.
  intros polygon w.
  apply (proj2 (removeGeometryPoint_ring (H := sample) [sampleSquare] [] sampleTriangle
                  0 0 8 w ltac:(by repeat constructor) ltac:(reflexivity)
                  ltac:(reflexivity) ltac:(reflexivity))
           ltac:(vm_compute; discriminate) [sampleSquare] []);
    [reflexivity | by intros [[=]|[]%not_elem_of_nil]%elem_of_cons].
Qed.

(** The first vertex of the square is removed, and the closing position
    follows the new first vertex. *)
Example square_first_vertex_removed :
  let polygon := PolygonGeometry [sampleSquare] in
  let w := selected None transient polygon 7%nat in
  fst <$> removeGeometryPoint polygon 0 0 w
  = Some (Some (PolygonGeometry [[(0, 10); (10, 10); (10, 0); (0, 10)]]), 8).
Proof. vm_compute. reflexivity. Qed.

(** ** C5 and C7: pointer down *)

(** C5.  The line is selected, the pointer goes down on the line itself and
    not on a handle, and the listener answers [STOP].  The handler returns
    false: the event is not consumed.  Nothing was edited and no drag has
    started. *)
Theorem pointerDown_element_stop_not_consumed :
  let w := selected (Some (sampleListener VECTOR_ELEMENT_DRAG_RESULT_STOP)) transient
             sampleLine3 7%nat in
  observed (onTouchEvent false ACTION_POINTER_1_DOWN (3, 3) (0, 0)
              {| overlayResults := []; layerResults := [7%nat] |} w)
  = Some (false,
          calls w ++ [CallOnDragStart
                        {| getVectorElement := 7%nat;
                           getDragMode := VECTOR_ELEMENT_DRAG_MODE_ELEMENT;
                           getScreenPos := (3, 3); getMapPos := (3, 3) |}],
          Some sampleLine3, _overlayPoints (layer w), None, false).
Proof. vm_compute. reflexivity. Qed.

(** The same answer to a hit on a handle consumes the event. *)
Example pointerDown_vertex_stop_consumed :
  let w := selected (Some (sampleListener VECTOR_ELEMENT_DRAG_RESULT_STOP)) transient
             sampleLine3 7%nat in
  observed (onTouchEvent false ACTION_POINTER_1_DOWN (3, 3) (0, 0)
              {| overlayResults := [2%nat]; layerResults := [7%nat] |} w)
  = Some (true,
          calls w ++ [CallOnDragStart
                        {| getVectorElement := 7%nat;
                           getDragMode := VECTOR_ELEMENT_DRAG_MODE_VERTEX;
                           getScreenPos := (3, 3); getMapPos := (3, 3) |}],
          Some sampleLine3, _overlayPoints (layer w), None, false).
Proof. vm_compute. reflexivity. Qed.

(** C7.  The line is selected, the pointer goes down at (3,3) on the handle of
    its middle vertex (the overlay point of address 2), and the listener
    answers [MODIFY].  The event is consumed and the drag is started on that
    handle, but [updateElementPoint] is given the drag point read before the
    hit, which is null: [onElementModify] is not called and the vertex stays at
    (0,10). *)
Theorem pointerDown_vertex_modify_moves_nothing :
  let w := selected (Some (sampleListener VECTOR_ELEMENT_DRAG_RESULT_MODIFY)) transient
             sampleLine3 7%nat in
  observed (onTouchEvent false ACTION_POINTER_1_DOWN (3, 3) (0, 0)
              {| overlayResults := [2%nat]; layerResults := [7%nat] |} w)
  = Some (true,
          calls w ++ [CallOnDragStart
                        {| getVectorElement := 7%nat;
                           getDragMode := VECTOR_ELEMENT_DRAG_MODE_VERTEX;
                           getScreenPos := (3, 3); getMapPos := (3, 3) |}],
          Some sampleLine3, _overlayPoints (layer w), Some 2%nat, true).
Proof. vm_compute. reflexivity. Qed.

(** The move that follows does move the vertex. *)
Example move_after_pointerDown_moves_vertex :
  let w := selected (Some (sampleListener VECTOR_ELEMENT_DRAG_RESULT_MODIFY)) transient
             sampleLine3 7%nat in
  ∃ w1 w2,
    onTouchEvent false ACTION_POINTER_1_DOWN (3, 3) (0, 0)
      {| overlayResults := [2%nat]; layerResults := [7%nat] |} w = Some (true, w1)
    ∧ onTouchEvent false ACTION_MOVE (4, 4) (0, 0)
        {| overlayResults := []; layerResults := [] |} w1 = Some (true, w2)
    ∧ getGeometry (elements w2 7%nat) = Some (LineGeometry [(0, 0); (4, 4); (10, 10)])
    ∧ CallOnElementModify 7%nat (Some (LineGeometry [(0, 0); (4, 4); (10, 10)]))
      ∈ calls w2.
Proof.
  intros w.
  pose (down := onTouchEvent false ACTION_POINTER_1_DOWN (3, 3) (0, 0)
                  {| overlayResults := [2%nat]; layerResults := [7%nat] |}).
  pose (move := onTouchEvent false ACTION_MOVE (4, 4) (0, 0)
                  {| overlayResults := []; layerResults := [] |}).
  exists (after down w), (after move (after down w)).
  split; [apply (returned_world down); vm_compute; reflexivity|].
  split; [apply (returned_world move); vm_compute; reflexivity|].
  split; [vm_compute; reflexivity|]. vm_compute.
  apply list_elem_of_In. simpl. repeat ((left; reflexivity) || right).
Qed.

(** The same defect with [DELETE]: the hit handle's vertex is not removed and
    the listener hears of no edit. *)
Example pointerDown_vertex_delete_removes_nothing :
  let w := selected (Some (sampleListener VECTOR_ELEMENT_DRAG_RESULT_DELETE)) transient
             sampleLine3 7%nat in
  observed (onTouchEvent false ACTION_POINTER_1_DOWN (3, 3) (0, 0)
              {| overlayResults := [2%nat]; layerResults := [7%nat] |} w)
  = Some (true,
          calls w ++ [CallOnDragStart
                        {| getVectorElement := 7%nat;
                           getDragMode := VECTOR_ELEMENT_DRAG_MODE_VERTEX;
                           getScreenPos := (3, 3); getMapPos := (3, 3) |}],
          Some sampleLine3, _overlayPoints (layer w), Some 2%nat, false).
Proof. vm_compute. reflexivity. Qed.

(** With a drag point left from an earlier pointer down (the handle of the
    middle vertex), a pointer down on the handle of the first vertex moves the
    middle vertex. *)
Example pointerDown_moves_earlier_drag_point :
  let w := selected (Some (sampleListener VECTOR_ELEMENT_DRAG_RESULT_MODIFY)) transient
             sampleLine3 7%nat in
  ∃ w1 w2,
    onTouchEvent false ACTION_POINTER_1_DOWN (3, 3) (0, 0)
      {| overlayResults := [2%nat]; layerResults := [] |} w = Some (true, w1)
    ∧ onTouchEvent false ACTION_POINTER_1_DOWN (1, 1) (0, 0)
        {| overlayResults := [0%nat]; layerResults := [] |} w1 = Some (true, w2)
    ∧ getGeometry (elements w2 7%nat) = Some (LineGeometry [(0, 0); (1, 1); (10, 10)]).
Proof.
  intros w.
  pose (first := onTouchEvent false ACTION_POINTER_1_DOWN (3, 3) (0, 0)
                   {| overlayResults := [2%nat]; layerResults := [] |}).
  pose (second := onTouchEvent false ACTION_POINTER_1_DOWN (1, 1) (0, 0)
                    {| overlayResults := [0%nat]; layerResults := [] |}).
  exists (after first w), (after second (after first w)).
  split; [apply (returned_world first); vm_compute; reflexivity|].
  split; [apply (returned_world second); vm_compute; reflexivity|].
  vm_compute. reflexivity.
Qed.

(** ** C6: hits on elements *)

Lemma pointerDown_element_identity_witness :
  let w := selected (Some (sampleListener VECTOR_ELEMENT_DRAG_RESULT_STOP)) transient
             sampleLine3 7%nat in
  let results := {| overlayResults := []; layerResults := [8%nat; 7%nat] |} in
  (7%nat ∉ layerResults results →
   onTouchEvent false ACTION_POINTER_1_DOWN (3, 3) (0, 0) results w = Some (false, w))
  ∧ (7%nat ∈ layerResults results →
     ∃ consumed w' further,
       onTouchEvent false ACTION_POINTER_1_DOWN (3, 3) (0, 0) results w
       = Some (consumed, w')
       ∧ calls w'
         = calls w
           ++ CallOnDragStart {| getVectorElement := 7%nat;
                                 getDragMode := VECTOR_ELEMENT_DRAG_MODE_ELEMENT;
                                 getScreenPos := (3, 3); getMapPos := (3, 3) |} :: further
       ∧ _selectedVectorElement (layer w') = Some 7%nat).
Proof.
  intros w results.
  apply (pointerDown_element_identity (H := sample) w sampleRenderer tt 7%nat
           (sampleListener VECTOR_ELEMENT_DRAG_RESULT_STOP) (3, 3) (0, 0) results);
    reflexivity.
Defined.

(** Elements 7 and 8 are two objects with the id 5, and element 7 is selected.
    [IsSameElement] takes them for the same element, but a pointer down that
    hits element 8 is not taken for a hit on the selection: the listener is not
    asked, the event is not consumed and no drag starts. *)
Lemma pointerDown_same_id_not_dragged :
  let w := selected (Some (sampleListener VECTOR_ELEMENT_DRAG_RESULT_MODIFY)) (λ _, 5)
             sampleLine3 7%nat in
  IsSameElement (elements w) (Some 8%nat) (Some 7%nat) = true
  ∧ observed (onTouchEvent false ACTION_POINTER_1_DOWN (3, 3) (0, 0)
                {| overlayResults := []; layerResults := [8%nat] |} w)
    = Some (false, calls w, Some sampleLine3, _overlayPoints (layer w), None, false).
Proof. vm_compute. split; reflexivity. Qed.

(** ** C8: a position off the projection surface *)

Lemma onTouchEvent_nan_witness :
  let w := selected (Some (sampleListener VECTOR_ELEMENT_DRAG_RESULT_MODIFY)) transient
             sampleLine3 7%nat in
  onTouchEvent false ACTION_POINTER_1_DOWN (-1, 3) (0, 0)
    {| overlayResults := [2%nat]; layerResults := [7%nat] |} w
  = Some (false, w).
Proof.
  intros w.
  apply (onTouchEvent_nan (H := sample) false ACTION_POINTER_1_DOWN (-1, 3) (0, 0)
           {| overlayResults := [2%nat]; layerResults := [7%nat] |} w sampleRenderer);
    reflexivity.
Defined.

(** ** C9: selection *)

Lemma setSelectedVectorElement_commit_witness :
  let heard := vertexDragWorld VECTOR_ELEMENT_DRAG_RESULT_MODIFY
                 VECTOR_ELEMENT_DRAG_RESULT_MODIFY in
  let w := unheard (elementDragWorld VECTOR_ELEMENT_DRAG_RESULT_MODIFY
                      VECTOR_ELEMENT_DRAG_RESULT_MODIFY) in
  (_selectedVectorElement (layer heard) = Some 7%nat
   ∧ length (_overlayPoints (layer heard)) = 5%nat
   ∧ _overlayDragPoint (layer heard) = Some 2%nat
   ∧ _overlayDragStarted (layer heard) = true
   ∧ ∃ w',
       setSelectedVectorElement (Some 8%nat) heard = Some (tt, w')
       ∧ _overlayPoints (layer w') = []
       ∧ _overlayDragPoint (layer w') = None
       ∧ _overlayDragGeometry (layer w') = None
       ∧ _overlayDragStarted (layer w') = false
       ∧ _selectedVectorElement (layer w') = Some 8%nat)
  ∧ (_selectedVectorElement (layer w) = Some 7%nat
     ∧ length (_overlayPoints (layer w)) = 5%nat
     ∧ _overlayDragGeometry (layer w) = Some sampleLine3
     ∧ _overlayDragStarted (layer w) = true
     ∧ _overlayStyleNormal (layer w) = Some 0%nat
     ∧ _overlayStyleVirtual (layer w) = Some 1%nat
     ∧ _overlayStyleSelected (layer w) = Some 2%nat
     ∧ ∃ w',
         setSelectedVectorElement (Some 8%nat) w = Some (tt, w')
         ∧ _overlayPoints (layer w') = []
         ∧ _overlayDragPoint (layer w') = None
         ∧ _overlayDragGeometry (layer w') = None
         ∧ _overlayDragStarted (layer w') = false
         ∧ getSelectedVectorElement w' = Some (None, w')
         ∧ _overlayStyleNormal (layer w') = None
         ∧ _overlayStyleVirtual (layer w') = None
         ∧ _overlayStyleSelected (layer w') = None
         ∧ calls w' = calls w ++ [CallRefresh]
         ∧ elements w' = elements w
         ∧ _selectedVectorElement (layer w') ≠ Some 8%nat).
Proof.
  cbv zeta. split.
  - do 4 (split; [by vm_compute|]).
    destruct (setSelectedVectorElement_commit (H := sample) 8%nat
                (vertexDragWorld VECTOR_ELEMENT_DRAG_RESULT_MODIFY
                   VECTOR_ELEMENT_DRAG_RESULT_MODIFY))
      as (w' & Hrun & Hpoints & Hpoint & Hgeometry & Hstarted & _ & Hiff);
      [by vm_compute|].
    exists w'. do 5 (split; [assumption|]).
    apply Hiff. eexists. split; [vm_compute; reflexivity | reflexivity].
  - do 7 (split; [by vm_compute|]).
    destruct (setSelectedVectorElement_commit (H := sample) 8%nat
                (unheard (elementDragWorld VECTOR_ELEMENT_DRAG_RESULT_MODIFY
                            VECTOR_ELEMENT_DRAG_RESULT_MODIFY)))
      as (w' & Hrun & Hpoints & Hpoint & Hgeometry & Hstarted & Hnone & Hiff);
      [by vm_compute|].
    destruct Hnone as (Hnull & Hnormal & Hvirtual & Hselected & Hcalls & Helements);
      [vm_compute; reflexivity|].
    exists w'. do 11 (split; [assumption|]).
    intros (listener & Hsome & _)%Hiff. revert Hsome. by vm_compute.
Defined.

(** With a listener that accepts, the element is selected; with one that
    refuses, it is not. *)
Example selection_follows_listener :
  let refusing :=
    {| onElementSelect := λ _, false;
       onSelectDragPointStyle := λ _ _, None;
       onDragStart := λ _, VECTOR_ELEMENT_DRAG_RESULT_IGNORE;
       onDragMove := λ _, VECTOR_ELEMENT_DRAG_RESULT_IGNORE;
       onDragEnd := λ _, VECTOR_ELEMENT_DRAG_RESULT_IGNORE;
       onElementModify := λ _ _ store, store;
       onElementDelete := λ _ store, store |} in
  (λ r, _selectedVectorElement (layer (snd r)))
    <$> setSelectedVectorElement (Some 7%nat)
          (sampleWorld (Some (sampleListener VECTOR_ELEMENT_DRAG_RESULT_IGNORE))
             transient sampleLine3)
  = Some (Some 7%nat)
  ∧ (λ r, _selectedVectorElement (layer (snd r)))
      <$> setSelectedVectorElement (Some 7%nat)
            (sampleWorld (Some refusing) transient sampleLine3)
    = Some None.
Proof. vm_compute. split; reflexivity. Qed.

(** ** C10: the first vertex of the closed square *)

Lemma mutate_keeps_rings_closed_witness :
  ∃ rings',
    PolygonGeometry [[(5, 5); (0, 10); (10, 10); (10, 0); (5, 5)]] = PolygonGeometry rings'
    ∧ Forall2 keepsClosed [sampleSquare] rings'
    ∧ (Forall (λ ring, closedRing ring = true) [sampleSquare] →
       Forall (λ ring, closedRing ring = true) rings').
Proof.
  apply (mutate_keeps_rings_closed (H := sample) (Update (H := sample) (5, 5))
           [sampleSquare] 0 0
           (selected None transient (PolygonGeometry (H := sample) [sampleSquare]) 7%nat)
           (selected None transient (PolygonGeometry (H := sample) [sampleSquare]) 7%nat)
           (PolygonGeometry (H := sample) [[(5, 5); (0, 10); (10, 10); (10, 0); (5, 5)]])
           8).
  - by repeat constructor.
  - vm_compute. reflexivity.
Defined.

(** Removal of the first vertex of the square leaves a closed ring. *)
Example square_stays_closed_under_removal :
  let w := selected None transient (PolygonGeometry [sampleSquare]) 7%nat in
  ∃ ring w',
    mutate Remove (PolygonGeometry [sampleSquare]) 0 0 w
    = Some ((Some (PolygonGeometry [ring]), 8), w')
    ∧ closedRing ring = true.
Proof. intros w. eexists _, _. split; vm_compute; reflexivity. Qed.

End Examples.

(** * Further properties

    The point mutators on whole trees, the overlay points a rebuild makes,
    what the touch handler and the edits leave alone, the protocol of a
    selection, and the listener of the data source. *)

Section Coverage.
Context `{Collaborators}.

Lemma mutate_collection (mutation : Mutation) (geometries : list Geometry)
    (offset index : Z) :
  mutate mutation (MultiGeometry geometries) offset index
  = if bool_decide (index < offset) then ret (Some (MultiGeometry geometries), offset)
    else bind (mutateChildren mutation index geometries [] offset)
           (λ '(geometries, offset), ret (collected mutation geometries, offset + 0)).
Proof.
  destruct mutation; reflexivity.
Qed.


Lemma bind_Some {A B} (m : M A) (k : A → M B) (w w' : World) (b : B) :
  bind m k w = Some (b, w') ↔ ∃ a w1, m w = Some (a, w1) ∧ k a w1 = Some (b, w').
Proof.
  unfold bind. destruct (m w) as [[a w1]|]; split.
  - intros Hk. by exists a, w1.
  - by intros (a' & w1' & [= <- <-] & Hk).
  - done.
  - by intros (a' & w1' & Hm & _).
Qed.

Lemma slotCount_cons (geometry : Geometry) (geometries : list Geometry) :
  slotCount (MultiGeometry (geometry :: geometries))
  = slotCount geometry + slotCount (MultiGeometry geometries).
Proof. reflexivity. Qed.

Lemma slotCount_app (pre post : list Geometry) :
  slotCount (MultiGeometry (pre ++ post))
  = slotCount (MultiGeometry pre) + slotCount (MultiGeometry post).
Proof.
  induction pre as [|g pre IH]; [done|].
  cbn [app]. rewrite !slotCount_cons, IH. lia.
Qed.

Lemma wellSized_Multi (geometries : list Geometry) :
  wellSized (MultiGeometry geometries) ↔ Forall wellSized geometries.
Proof.
  induction geometries as [|g gs IH]; [by split; [constructor|]|].
  rewrite Forall_cons, <- IH. reflexivity.
Qed.

Lemma collectionsNonEmpty_Multi (geometries : list Geometry) :
  collectionsNonEmpty (MultiGeometry geometries)
  ↔ geometries ≠ [] ∧ Forall collectionsNonEmpty geometries.
Proof.
  cbn [collectionsNonEmpty]. apply and_iff_compat_l.
  induction geometries as [|g gs IH]; [by split; [constructor|]|].
  rewrite Forall_cons, <- IH. reflexivity.
Qed.

Lemma slotCount_nonneg (geometry : Geometry) : wellSized geometry → 0 ≤ slotCount geometry.
Proof.
  induction geometry as [pos|poses|rings|geometries IH] using Geometry_tree_ind.
  - intros _. cbn. lia.
  - intros [Hne _]. cbn [slotCount]. destruct poses; [done|]. rewrite size_cons.
    pose proof (size_nonneg poses). lia.
  - intros _. apply ringsSlotCount_nonneg.
  - intros Hall%wellSized_Multi.
    induction IH as [|g gs Hg _ IHgs]; [cbn; lia|].
    apply Forall_cons in Hall as [Hwg Hwgs]. rewrite slotCount_cons.
    specialize (Hg Hwg). specialize (IHgs Hwgs). lia.
Qed.

(** In front of the geometry at hand both mutators return at once. *)
Lemma mutate_before (mutation : Mutation) (geometry : Geometry) (offset index : Z)
    (w : World) :
  index < offset → mutate mutation geometry offset index w = Some ((Some geometry, offset), w).
Proof.
  intros Hlt.
  destruct mutation, geometry; cbn [mutate updateGeometryPoint removeGeometryPoint];
    by rewrite bool_decide_true.
Qed.

Lemma mutateChildren_before (mutation : Mutation) (index : Z) (todo : list Geometry) :
  ∀ (geometries : list Geometry) (offset : Z) (w : World),
  index < offset →
  mutateChildren mutation index todo geometries offset w
  = Some ((geometries ++ todo, offset), w).
Proof.
  induction todo as [|child todo IH]; intros geometries offset w Hlt.
  - by rewrite app_nil_r.
  - cbn [mutateChildren]. unfold bind at 1. rewrite mutate_before by done.
    rewrite IH by done. by rewrite <- app_assoc.
Qed.

(** Behind the geometry at hand both mutators pass over it: the world is as
    before and the offset is advanced by the slots of the geometry.  The
    geometry is returned as it is, but for the empty collections in it, which
    [removeGeometryPoint] gives up. *)
Lemma mutate_skips (mutation : Mutation) (geometry : Geometry) :
  ∀ (offset index : Z) (w : World),
  wellSized geometry →
  offset + slotCount geometry ≤ index →
  ∃ r, mutate mutation geometry offset index w
       = Some ((r, offset + slotCount geometry), w)
       ∧ (match mutation with Update _ => True | Remove => collectionsNonEmpty geometry end
          → r = Some geometry).
Proof.
  induction geometry as [pos|poses|rings|geometries IH] using Geometry_tree_ind;
    intros offset index w Hwell Hle.
  - cbn [slotCount] in Hle.
    destruct mutation; cbn [mutate updateGeometryPoint removeGeometryPoint slotCount];
      rewrite !bool_decide_false by lia; by eexists.
  - destruct Hwell as [Hne Hfit]. unfold fitsInt in Hfit. pose proof (size_nonneg poses).
    assert (0 < size poses) by (destruct poses; [done | rewrite size_cons; unfold size; lia]).
    cbn [slotCount] in Hle.
    destruct mutation; cbn [mutate updateGeometryPoint removeGeometryPoint slotCount];
      rewrite static_cast_int_small by lia;
      rewrite !bool_decide_false by lia; unfold ret;
      (eexists; split; [repeat (f_equal; try lia) | done]).
  - cbn [wellSized] in Hwell. cbn [slotCount] in Hle |- *.
    pose proof (ringsSlotCount_nonneg rings).
    destruct mutation as [mapPos|]; cbn [mutate updateGeometryPoint removeGeometryPoint];
      rewrite bool_decide_false by lia; unfold bind at 1.
    + destruct (updateRings_pre rings [] [] offset 0 index mapPos w Hwell ltac:(lia))
        as (offset' & points' & Hsum & Hrun).
      rewrite app_nil_r in Hrun. rewrite Hrun. cbn [updateRings]. unfold ret.
      eexists; split; [repeat (f_equal; try lia) | done].
    + destruct (removeRings_pre rings [] [] offset 0 index w Hwell ltac:(lia))
        as (offset' & points' & Hsum & Hrun).
      rewrite app_nil_r in Hrun. rewrite Hrun. cbn [removeRings]. unfold ret.
      eexists; split; [repeat (f_equal; try lia) | done].
  - apply wellSized_Multi in Hwell.
    assert (Hloop : ∀ (acc : list Geometry) (offset : Z),
              offset + slotCount (MultiGeometry geometries) ≤ index →
              ∃ kept, mutateChildren mutation index geometries acc offset w
                      = Some ((acc ++ kept, offset + slotCount (MultiGeometry geometries)), w)
                      ∧ (match mutation with
                         | Update _ => True
                         | Remove => Forall collectionsNonEmpty geometries
                         end → kept = geometries)).
    { clear offset Hle.
      induction IH as [|g gs Hg _ IHgs]; intros acc offset Hle.
      - exists []. cbn. unfold ret. split; [repeat (f_equal; try lia) | done].
        by rewrite app_nil_r.
      - apply Forall_cons in Hwell as [Hwg Hwgs]. rewrite slotCount_cons in Hle |- *.
        pose proof (slotCount_nonneg g Hwg).
        assert (0 ≤ slotCount (MultiGeometry gs))
          by (by apply slotCount_nonneg, wellSized_Multi).
        destruct (Hg offset index w Hwg ltac:(lia)) as (r & Hrun & Hr).
        cbn [mutateChildren]. unfold bind at 1. rewrite Hrun.
        destruct (IHgs Hwgs (match r with Some geom => acc ++ [geom] | None => acc end)
                    (offset + slotCount g) ltac:(lia)) as (kept & -> & Hkept).
        exists (option_list r ++ kept). split.
        + destruct r; cbn [option_list app]; rewrite <- ?app_assoc;
            repeat (f_equal; try lia).
        + intros Hall.
          assert (r = Some g ∧ kept = gs) as [-> ->]; [|done].
          destruct mutation; [by split; [apply Hr | apply Hkept]|].
          apply Forall_cons in Hall as [Hcg Hcgs]. by split; [apply Hr | apply Hkept]. }
    pose proof (slotCount_nonneg (MultiGeometry geometries)
                  (proj2 (wellSized_Multi geometries) Hwell)).
    rewrite mutate_collection, bool_decide_false by lia. unfold bind at 1.
    destruct (Hloop [] offset Hle) as (kept & -> & Hkept). cbn [app]. unfold ret.
    eexists. split; [repeat (f_equal; try lia)|].
    intros Hok.
    destruct mutation; [by rewrite Hkept|].
    apply collectionsNonEmpty_Multi in Hok as [Hne Hall].
    rewrite (Hkept Hall). by destruct geometries.
Qed.


(** ** What the mutators leave alone *)

Lemma gets_Some {A} (f : EditableVectorLayer → A) (w w' : World) (a : A) :
  gets f w = Some (a, w') → a = f (layer w) ∧ w' = w.
Proof. by intros [= <- <-]. Qed.

Lemma modify_overlayOnly (overlayPoints : list Point) (w0 w w' : World) :
  overlayOnly w0 w →
  modify (set_overlayPoints overlayPoints) w = Some (tt, w') → overlayOnly w0 w'.
Proof.
  intros (He & Hc & ov & Hl) [= <-]. repeat split; [done | done |].
  exists overlayPoints. cbn [layer]. by rewrite Hl.
Qed.

Lemma createOverlayPoint_frame (mapPos : MapPos) (virtualPoint : bool) (index : Z)
    (w w' : World) (p : Point) :
  createOverlayPoint mapPos virtualPoint index w = Some (p, w') → overlayOnly w w'.
Proof.
  destruct (createOverlayPoint_runs mapPos virtualPoint index w) as (p0 & w0 & -> & Ho).
  by intros [= <- <-].
Qed.

Lemma insertOverlayPoints_frame (index : Z) (mapPos : MapPos) (w w' : World) :
  insertOverlayPoints index mapPos w = Some (tt, w') → overlayOnly w w'.
Proof.
  unfold insertOverlayPoints. intros Hrun.
  apply bind_Some in Hrun as (p & w1 & Hp%createOverlayPoint_frame & Hrun).
  apply bind_Some in Hrun as (ov1 & w2 & [-> ->]%gets_Some & Hrun).
  apply bind_Some in Hrun as (ov2 & w2 & [_ ->]%lift_Some & Hrun).
  apply bind_Some in Hrun as ([] & w3 & Hw3 & Hrun).
  apply (modify_overlayOnly _ w) in Hw3; [|done].
  apply bind_Some in Hrun as (q & w4 & Hq%createOverlayPoint_frame & Hrun).
  apply bind_Some in Hrun as (ov3 & w5 & [-> ->]%gets_Some & Hrun).
  apply bind_Some in Hrun as (ov4 & w5 & [_ ->]%lift_Some & Hrun).
  apply (modify_overlayOnly _ w) in Hrun; [done|].
  eauto using overlayOnly_trans.
Qed.

(** The loop over the rings of [updateGeometryPoint]: what it returns. *)
Lemma updateRings_returns (index : Z) (mapPos : MapPos) (todo : list (list MapPos)) :
  ∀ (done : list (list MapPos)) (offset points : Z) (w w' : World)
    (assigned : option (list (list MapPos))) (offset' points' : Z),
  updateRings done todo offset points index mapPos w
  = Some ((assigned, offset', points'), w') →
  overlayOnly w w'
  ∧ (Forall fitsInt todo → index < offset + points + ringsSlotCount todo →
     index < offset' + points').
Proof.
  induction todo as [|ring rest IH];
    intros passed offset points w w' assigned offset' points' Hrun.
  - injection Hrun as <- <- <- <-. split; [apply overlayOnly_refl|].
    intros _. unfold ringsSlotCount. simpl. lia.
  - cbn [updateRings] in Hrun. case_bool_decide as Hhit.
    + case_bool_decide as Heven.
      * apply bind_Some in Hrun as (ring1 & w1 & [_ ->]%lift_Some & Hrun).
        apply bind_Some in Hrun as (ring2 & w2 & Hring2 & Hrun).
        assert (w2 = w) as ->.
        { destruct (closedRing ring && _); [by apply lift_Some in Hring2 as [_ ->]|].
          by injection Hring2 as <- <-. }
        injection Hrun as <- <- <- <-. split; [apply overlayOnly_refl | lia].
      * apply bind_Some in Hrun as (ring1 & w1 & [_ ->]%lift_Some & Hrun).
        apply bind_Some in Hrun as ([] & w2 & Hins%insertOverlayPoints_frame & Hrun).
        injection Hrun as <- <- <- <-. split; [done | lia].
    + apply IH in Hrun as [Ho Hbound]. split; [done|].
      intros [Hring Hrest]%Forall_cons Hlt. apply Hbound; [done|].
      rewrite ringsSlotCount_cons in Hlt. rewrite (ring_points ring Hring). lia.
Qed.

(** The loop over the rings of [removeGeometryPoint]: what it returns. *)
Lemma removeRings_returns (index : Z) (todo : list (list MapPos)) :
  ∀ (passed : list (list MapPos)) (offset points : Z) (w w' : World)
    (assigned : option (option (list (list MapPos)))) (offset' points' : Z),
  removeRings passed todo offset points index w = Some ((assigned, offset', points'), w') →
  overlayOnly w w'
  ∧ (Forall fitsInt todo → index < offset + points + ringsSlotCount todo →
     index < offset' + points').
Proof.
  induction todo as [|ring rest IH];
    intros passed offset points w w' assigned offset' points' Hrun.
  - injection Hrun as <- <- <- <-. split; [apply overlayOnly_refl|].
    intros _. unfold ringsSlotCount. simpl. lia.
  - cbn [removeRings] in Hrun. case_bool_decide as Hhit.
    + case_bool_decide as Heven.
      * case_bool_decide as Hmany.
        -- apply bind_Some in Hrun as (ring1 & w1 & [_ ->]%lift_Some & Hrun).
           apply bind_Some in Hrun as (ring2 & w2 & Hring2 & Hrun).
           assert (w2 = w) as ->.
           { destruct (closedRing ring && _); [by apply lift_Some in Hring2 as [_ ->]|].
             by injection Hring2 as <- <-. }
           apply bind_Some in Hrun as (ov1 & w1 & [-> ->]%gets_Some & Hrun).
           apply bind_Some in Hrun as (ov2 & w1 & [_ ->]%lift_Some & Hrun).
           apply bind_Some in Hrun as (ov3 & w1 & [_ ->]%lift_Some & Hrun).
           apply bind_Some in Hrun as ([] & w3 & Hw3 & Hrun).
           apply (modify_overlayOnly _ w) in Hw3; [|apply overlayOnly_refl].
           injection Hrun as <- <- <- <-. split; [done | lia].
        -- case_bool_decide as Hn.
           ++ apply bind_Some in Hrun as (rings1 & w1 & [_ ->]%lift_Some & Hrun).
              injection Hrun as <- <- <- <-. split; [apply overlayOnly_refl | lia].
           ++ injection Hrun as <- <- <- <-. split; [apply overlayOnly_refl | lia].
      * injection Hrun as <- <- <- <-. split; [apply overlayOnly_refl | lia].
    + apply IH in Hrun as [Ho Hbound]. split; [done|].
      intros [Hring Hrest]%Forall_cons Hlt. apply Hbound; [done|].
      rewrite ringsSlotCount_cons in Hlt. rewrite (ring_points ring Hring). lia.
Qed.

(** What a mutator returns: the world differs in the overlay points at most,
    and the offset is beyond the index when the index was not beyond the
    geometry. *)
Lemma mutate_returns (mutation : Mutation) (geometry : Geometry) :
  ∀ (offset index : Z) (w w' : World) (r : option Geometry) (offset' : Z),
  mutate mutation geometry offset index w = Some ((r, offset'), w') →
  overlayOnly w w'
  ∧ (wellSized geometry → index < offset + slotCount geometry → index < offset').
Proof.
  induction geometry as [pos|poses|rings|geometries IH] using Geometry_tree_ind;
    intros offset index w w' r offset' Hrun;
    (destruct (decide (index < offset)) as [Hlt|Hge];
     [rewrite mutate_before in Hrun by done; injection Hrun as <- <- <-;
      by split; [apply overlayOnly_refl|] |]).
  - destruct mutation; cbn [mutate updateGeometryPoint removeGeometryPoint] in Hrun;
      rewrite bool_decide_false in Hrun by done;
      injection Hrun as <- <- <-; (split; [apply overlayOnly_refl|]);
      cbn [slotCount]; lia.
  - assert (Hmiss : wellSized (LineGeometry poses) →
              index < offset + slotCount (LineGeometry poses) →
              index - offset < static_cast_int (size poses * 2) - 1).
    { intros [_ Hfit]. unfold fitsInt in Hfit. pose proof (size_nonneg poses).
      cbn [slotCount]. rewrite static_cast_int_small by lia. lia. }
    destruct mutation as [mapPos|];
      cbn [mutate updateGeometryPoint removeGeometryPoint] in Hrun;
      rewrite bool_decide_false in Hrun by done.
    + case_bool_decide as Hhit.
      * case_bool_decide as Heven.
        -- apply bind_Some in Hrun as (poses1 & w1 & [_ ->]%lift_Some & Hrun).
           injection Hrun as <- <- <-. split; [apply overlayOnly_refl | lia].
        -- apply bind_Some in Hrun as (poses1 & w1 & [_ ->]%lift_Some & Hrun).
           apply bind_Some in Hrun as ([] & w2 & Hins%insertOverlayPoints_frame & Hrun).
           injection Hrun as <- <- <-. split; [done | lia].
      * injection Hrun as <- <- <-. split; [apply overlayOnly_refl|].
        intros Hwell Hin. specialize (Hmiss Hwell Hin). lia.
    + case_bool_decide as Hhit.
      * case_bool_decide as Heven.
        -- case_bool_decide as Hmany.
           ++ apply bind_Some in Hrun as (poses1 & w1 & [_ ->]%lift_Some & Hrun).
              apply bind_Some in Hrun as (ov1 & w1 & [-> ->]%gets_Some & Hrun).
              apply bind_Some in Hrun as (ov2 & w1 & [_ ->]%lift_Some & Hrun).
              apply bind_Some in Hrun as (ov3 & w1 & [_ ->]%lift_Some & Hrun).
              apply bind_Some in Hrun as ([] & w3 & Hw3 & Hrun).
              apply (modify_overlayOnly _ w) in Hw3; [|apply overlayOnly_refl].
              injection Hrun as <- <- <-. split; [done | lia].
           ++ injection Hrun as <- <- <-. split; [apply overlayOnly_refl | lia].
        -- injection Hrun as <- <- <-. split; [apply overlayOnly_refl | lia].
      * injection Hrun as <- <- <-. split; [apply overlayOnly_refl|].
        intros Hwell Hin. specialize (Hmiss Hwell Hin). lia.
  - destruct mutation as [mapPos|];
      cbn [mutate updateGeometryPoint removeGeometryPoint] in Hrun;
      rewrite bool_decide_false in Hrun by done;
      apply bind_Some in Hrun as ([[assigned offset1] points1] & w1 & Hloop & Hrun);
      injection Hrun as <- <- <-.
    + apply updateRings_returns in Hloop as [Ho Hbound]. split; [done|].
      intros Hwell Hin. apply Hbound; [done|]. cbn [slotCount] in Hin. lia.
    + apply removeRings_returns in Hloop as [Ho Hbound]. split; [done|].
      intros Hwell Hin. apply Hbound; [done|]. cbn [slotCount] in Hin. lia.
  - rewrite mutate_collection, bool_decide_false in Hrun by done.
    apply bind_Some in Hrun as ([kept offset1] & w1 & Hloop & Hrun).
    injection Hrun as <- <- <-.
    assert (Hchildren : ∀ (acc : list Geometry) (offset : Z) (w : World),
              mutateChildren mutation index geometries acc offset w
              = Some ((kept, offset1), w1) →
              overlayOnly w w1
              ∧ (Forall wellSized geometries →
                 index < offset + slotCount (MultiGeometry geometries) → index < offset1)).
    { clear Hloop Hge w offset.
      induction IH as [|g gs Hg _ IHgs]; intros acc offset w Hloop.
      - injection Hloop as <- <- <-. split; [apply overlayOnly_refl|].
        intros _. cbn. lia.
      - cbn [mutateChildren] in Hloop.
        apply bind_Some in Hloop as ([r offset2] & w2 & Hchild & Hloop).
        apply IHgs in Hloop as [Ho2 Hbound2].
        pose proof Hchild as Hchild'.
        apply Hg in Hchild as [Ho1 Hbound1].
        split; [eauto using overlayOnly_trans|].
        intros [Hwg Hwgs]%Forall_cons Hin. rewrite slotCount_cons in Hin.
        apply Hbound2; [done|].
        assert (0 ≤ slotCount (MultiGeometry gs))
          by (by apply slotCount_nonneg, wellSized_Multi).
        destruct (decide (index < offset + slotCount g)) as [Hhit|Hmiss].
        + specialize (Hbound1 Hwg Hhit). lia.
        + destruct (mutate_skips mutation g offset index w Hwg ltac:(lia))
            as (r' & Hskip & _).
          rewrite Hskip in Hchild'. injection Hchild' as <- <- <-. lia. }
    apply Hchildren in Hloop as [Ho Hbound]. split; [done|].
    intros Hwell%wellSized_Multi Hin. specialize (Hbound Hwell Hin). lia.
Qed.

(** [updateGeometryPoint] does not return null. *)
Lemma updateGeometryPoint_not_null (geometry : Geometry) (offset index : Z)
    (mapPos : MapPos) (w w' : World) (r : option Geometry) (offset' : Z) :
  updateGeometryPoint geometry offset index mapPos w = Some ((r, offset'), w') →
  is_Some r.
Proof.
  intros Hrun.
  destruct (decide (index < offset)) as [Hlt|Hge].
  { pose proof (mutate_before (Update mapPos) geometry offset index w Hlt) as Hbefore.
    cbn [mutate] in Hbefore. rewrite Hbefore in Hrun. by injection Hrun as <- _ _. }
  destruct geometry as [pos|poses|rings|geometries];
    cbn [updateGeometryPoint] in Hrun; rewrite bool_decide_false in Hrun by done.
  - by injection Hrun as <- _ _.
  - repeat case_bool_decide;
      repeat (apply bind_Some in Hrun as (? & ? & _ & Hrun)); by injection Hrun as <- _ _.
  - apply bind_Some in Hrun as ([[assigned offset1] points1] & w1 & _ & Hrun).
    by injection Hrun as <- _ _.
  - apply bind_Some in Hrun as ([kept offset1] & w1 & _ & Hrun).
    by injection Hrun as <- _ _.
Qed.

(** The loop over the children of a collection when the index falls into the
    child [geometry]: the children in front are passed over, the child takes
    the edit and those behind it are returned at once. *)
Lemma mutateChildren_hit (mutation : Mutation) (index : Z) (geometry : Geometry)
    (post : list Geometry) (pre : list Geometry) :
  ∀ (acc : list Geometry) (offset : Z) (w : World),
  Forall wellSized pre → wellSized geometry →
  match mutation with Update _ => True | Remove => Forall collectionsNonEmpty pre end →
  offset + slotCount (MultiGeometry pre) ≤ index
    < offset + slotCount (MultiGeometry pre) + slotCount geometry →
  mutateChildren mutation index (pre ++ geometry :: post) acc offset w
  = (λ '((r, offset'), w'), ((acc ++ pre ++ option_list r ++ post, offset'), w'))
      <$> mutate mutation geometry (offset + slotCount (MultiGeometry pre)) index w.
Proof.
  induction pre as [|g pre IH]; intros acc offset w Hpre Hwell Hok Hin.
  - cbn [app mutateChildren]. change (slotCount (MultiGeometry [])) with 0 in *.
    rewrite Z.add_0_r in *. unfold bind at 1.
    destruct (mutate mutation geometry offset index w) as [[[r offset'] w']|] eqn:Hrun;
      [|done].
    apply mutate_returns in Hrun as [_ Hbound].
    rewrite mutateChildren_before by (apply Hbound; [done | lia]).
    cbn. destruct r; cbn [option_list app]; by rewrite <- ?app_assoc.
  - apply Forall_cons in Hpre as [Hwg Hwpre]. rewrite slotCount_cons in Hin.
    assert (0 ≤ slotCount (MultiGeometry pre))
      by (by apply slotCount_nonneg, wellSized_Multi).
    destruct (mutate_skips mutation g offset index w Hwg ltac:(lia)) as (r & Hskip & Hr).
    assert (r = Some g) as ->.
    { apply Hr. destruct mutation; [done|]. by apply Forall_cons in Hok as [Hcg _]. }
    cbn [app mutateChildren]. unfold bind at 1. rewrite Hskip.
    rewrite IH; [| done | done | | lia].
    2:{ destruct mutation; [done|]. by apply Forall_cons in Hok as [_ Hcpre]. }
    rewrite slotCount_cons.
    replace (offset + slotCount g + slotCount (MultiGeometry pre))
      with (offset + (slotCount g + slotCount (MultiGeometry pre))) by lia.
    destruct (mutate mutation geometry _ index w) as [[[r offset'] w']|]; [|done].
    cbn. by rewrite <- !app_assoc.
Qed.


(** ** Edits outside a geometry, and collections *)

(** X1.  An index in front of a geometry or behind its slots is not the geometry's:
    both mutators return the geometry as it is and leave the world as it is.
    In front of the geometry the offset stays, behind it the offset is advanced
    by the slots of the geometry.  ([removeGeometryPoint] gives up an empty
    collection that it passes over; the tree has none.) *)
Theorem mutate_passes_over (mutation : Mutation) (geometry : Geometry)
    (offset index : Z) (w : World) :
  wellSized geometry →
  match mutation with Update _ => True | Remove => collectionsNonEmpty geometry end →
  index < offset ∨ offset + slotCount geometry ≤ index →
  mutate mutation geometry offset index w
  = Some ((Some geometry,
           if bool_decide (index < offset) then offset else offset + slotCount geometry), w).
Proof.
  intros Hwell Hok [Hlt|Hge].
  - rewrite bool_decide_true by done. by apply mutate_before.
  - pose proof (slotCount_nonneg geometry Hwell). rewrite bool_decide_false by lia.
    destruct (mutate_skips mutation geometry offset index w Hwell Hge) as (r & -> & Hr).
    by rewrite (Hr Hok).
Qed.

(** X2.  Both mutators change the overlay points at most (and take addresses for
    new points): the element store, the calls made, the selection, the styles,
    the drag state and the listener are as before. *)
Theorem mutate_touches_overlay_only (mutation : Mutation) (geometry : Geometry)
    (offset index : Z) (w w' : World) (r : option Geometry) (offset' : Z) :
  mutate mutation geometry offset index w = Some ((r, offset'), w') →
  overlayOnly w w'.
Proof. intros Hrun. by apply mutate_returns in Hrun as [Ho _]. Qed.

(** X3.  [updateGeometryPoint] on a collection, for an index among the slots of the
    child [geometry]: the result is the collection with that child replaced by
    what [updateGeometryPoint] makes of it at the child's offset, the other
    children are the same, and the world is the one the child's update leaves.
    The child's update does not return null. *)
Theorem updateGeometryPoint_collection (pre post : list Geometry) (geometry : Geometry)
    (offset index : Z) (mapPos : MapPos) (w : World) :
  Forall wellSized pre → wellSized geometry →
  let start := offset + slotCount (MultiGeometry pre) in
  start ≤ index < start + slotCount geometry →
  updateGeometryPoint (MultiGeometry (pre ++ geometry :: post)) offset index mapPos w
  = (λ '((r, offset'), w'),
       ((Some (MultiGeometry (pre ++ option_list r ++ post)), offset'), w'))
      <$> updateGeometryPoint geometry start index mapPos w
  ∧ ∀ r offset' w',
      updateGeometryPoint geometry start index mapPos w = Some ((r, offset'), w') →
      is_Some r.
Proof.
  intros Hpre Hwell start Hin. split; [|intros r offset' w'; apply updateGeometryPoint_not_null].
  assert (0 ≤ slotCount (MultiGeometry pre))
    by (by apply slotCount_nonneg, wellSized_Multi).
  pose proof (mutate_collection (Update mapPos) (pre ++ geometry :: post) offset index)
    as Hunfold.
  cbn [mutate] in Hunfold. rewrite Hunfold, bool_decide_false by (unfold start in Hin; lia).
  unfold bind at 1.
  rewrite (mutateChildren_hit (Update mapPos) index geometry post pre [] offset w)
    by done.
  cbn [mutate]. fold start.
  destruct (updateGeometryPoint geometry start index mapPos w) as [[[r offset'] w']|];
    [|done].
  cbn. unfold ret. repeat (f_equal; try lia).
Qed.

(** X4.  [removeGeometryPoint] on a collection, for an index among the slots of the
    child [geometry]: the child is replaced by what [removeGeometryPoint] makes
    of it at the child's offset and is left out when that is null; the other
    children are the same; a collection left without children is null. *)
Theorem removeGeometryPoint_collection (pre post : list Geometry) (geometry : Geometry)
    (offset index : Z) (w : World) :
  Forall wellSized pre → Forall collectionsNonEmpty pre → wellSized geometry →
  let start := offset + slotCount (MultiGeometry pre) in
  start ≤ index < start + slotCount geometry →
  removeGeometryPoint (MultiGeometry (pre ++ geometry :: post)) offset index w
  = (λ '((r, offset'), w'),
       ((match pre ++ option_list r ++ post with
         | [] => None
         | geometries => Some (MultiGeometry geometries)
         end, offset'), w'))
      <$> removeGeometryPoint geometry start index w.
Proof.
  intros Hpre Hcoll Hwell start Hin.
  assert (0 ≤ slotCount (MultiGeometry pre))
    by (by apply slotCount_nonneg, wellSized_Multi).
  pose proof (mutate_collection Remove (pre ++ geometry :: post) offset index) as Hunfold.
  cbn [mutate] in Hunfold. rewrite Hunfold, bool_decide_false by (unfold start in Hin; lia).
  unfold bind at 1.
  rewrite (mutateChildren_hit Remove index geometry post pre [] offset w) by done.
  cbn [mutate]. fold start.
  destruct (removeGeometryPoint geometry start index w) as [[[r offset'] w']|]; [|done].
  cbn. unfold ret.
  destruct (pre ++ option_list r ++ post); repeat (f_equal; try lia).
Qed.

(** ** Real and virtual handles *)

Lemma updateRings_even (done post : list (list MapPos)) (ring : list MapPos)
    (offset points index : Z) (k : nat) (mapPos : MapPos) (w : World) :
  fitsInt ring →
  index = offset + points + 2 * Z.of_nat k →
  2 * Z.of_nat k < ringSlotCount ring →
  updateRings done (ring :: post) offset points index mapPos w
  = Some ((Some (done ++ replacedVertices (InRing done post) ring k mapPos :: post),
           offset + points, ringSlotCount ring), w).
Proof.
  intros Hfit Hn Hk. cbn [updateRings replacedVertices]. rewrite (ring_points ring Hfit).
  replace (index - (offset + points)) with (2 * Z.of_nat k) by lia.
  destruct (even_rem_quot k) as [Hrem Hquot].
  rewrite bool_decide_true by done. rewrite (bool_decide_true _ Hrem), Hquot.
  assert (Hlen : (k < length ring)%nat).
  { unfold ringSlotCount, size in Hk. destruct (closedRing ring); lia. }
  unfold bind at 1, lift at 1, vec_set. rewrite bool_decide_true by (unfold size; lia).
  rewrite Nat2Z.id.
  replace (bool_decide (2 * Z.of_nat k = 0)) with (bool_decide (k = 0%nat))
    by (apply bool_decide_ext; lia).
  unfold bind at 1.
  destruct (closedRing ring && bool_decide (k = 0%nat)) eqn:Hfirst; [|done].
  apply andb_true_iff in Hfirst as [_ ->%bool_decide_eq_true].
  unfold lift, vec_back_gets_front. rewrite head_lookup, list_lookup_insert_eq by done.
  by rewrite length_insert.
Qed.

Lemma updateGeometryPoint_even (host : Host) (vertices : list MapPos)
    (offset index : Z) (k : nat) (mapPos : MapPos) (w : World) :
  hostFitsInt host vertices →
  index = offset + hostOffset host + 2 * Z.of_nat k →
  2 * Z.of_nat k < hostSlotCount host vertices →
  updateGeometryPoint (hostGeometry host vertices) offset index mapPos w
  = Some ((Some (hostGeometry host (replacedVertices host vertices k mapPos)),
           offset + hostOffset host + hostSlotCount host vertices), w).
Proof.
  intros Hfit Hn Hk.
  assert (Hlen : (k < length vertices)%nat).
  { pose proof (size_nonneg vertices). destruct host; cbn [hostSlotCount] in Hk.
    - unfold size in *. lia.
    - unfold ringSlotCount, size in *. destruct (closedRing vertices); lia. }
  destruct host as [|pre post];
    cbn [hostGeometry hostOffset hostSlotCount hostFitsInt replacedVertices] in *.
  - unfold fitsInt in Hfit. pose proof (size_nonneg vertices).
    cbn [updateGeometryPoint]. rewrite bool_decide_false by lia.
    rewrite static_cast_int_small by lia.
    replace (index - offset) with (2 * Z.of_nat k) by lia.
    destruct (even_rem_quot k) as [Hrem Hquot].
    rewrite bool_decide_true by lia. rewrite (bool_decide_true _ Hrem), Hquot.
    unfold bind at 1, lift at 1, vec_set. rewrite bool_decide_true by (unfold size; lia).
    rewrite Nat2Z.id. unfold ret. repeat (f_equal; try lia).
  - destruct Hfit as [Hpre Hring]. pose proof (ringsSlotCount_nonneg pre).
    cbn [updateGeometryPoint]. rewrite bool_decide_false by lia.
    unfold bind at 1.
    destruct (updateRings_pre pre [] (vertices :: post) offset 0 index mapPos w
                Hpre ltac:(lia)) as (offset' & points' & Hsum & ->).
    rewrite (updateRings_even _ post vertices offset' points' index k mapPos w Hring
               ltac:(lia) Hk).
    unfold ret. cbn [app replacedVertices]. repeat (f_equal; try lia).
Qed.

(** X5.  A real handle of a line or of a polygon ring, at the even local index [2k]
    within its slots: [updateGeometryPoint] returns the geometry with vertex [k]
    at [mapPos] and the other vertices as they were; in a closed ring whose
    first vertex is moved the closing position moves with it.  The number of
    vertices is the same and the world is as before: no overlay point is added
    or taken away. *)
Theorem updateGeometryPoint_even_replaces (host : Host) (vertices : list MapPos)
    (offset index : Z) (k : nat) (mapPos : MapPos) (w : World) :
  hostFitsInt host vertices →
  index = offset + hostOffset host + 2 * Z.of_nat k →
  2 * Z.of_nat k < hostSlotCount host vertices →
  updateGeometryPoint (hostGeometry host vertices) offset index mapPos w
  = Some ((Some (hostGeometry host (replacedVertices host vertices k mapPos)),
           offset + hostOffset host + hostSlotCount host vertices), w)
  ∧ replacedVertices host vertices k mapPos !! k = Some mapPos
  ∧ length (replacedVertices host vertices k mapPos) = length vertices
  ∧ (∀ j, j ≠ k → (host = InLine ∨ j ≠ Nat.pred (length vertices)) →
          replacedVertices host vertices k mapPos !! j = vertices !! j).
Proof.
  intros Hfit Hn Hk.
  assert (Hlen : (k < length vertices)%nat).
  { pose proof (size_nonneg vertices). destruct host; cbn [hostSlotCount] in Hk.
    - unfold size in *. lia.
    - unfold ringSlotCount, size in *. destruct (closedRing vertices); lia. }
  split; [by apply updateGeometryPoint_even|]. split; [|split].
  - destruct host; cbn [replacedVertices]; [by rewrite list_lookup_insert_eq|].
    destruct (closedRing vertices && bool_decide (k = 0%nat)) eqn:Hfirst;
      [|by rewrite list_lookup_insert_eq].
    destruct (decide (k = Nat.pred (length vertices))) as [->|Hne].
    + rewrite list_lookup_insert_eq; [done|]. rewrite length_insert. lia.
    + rewrite list_lookup_insert_ne by done. by rewrite list_lookup_insert_eq.
  - destruct host; cbn [replacedVertices]; [by rewrite length_insert|].
    destruct (closedRing vertices && bool_decide (k = 0%nat));
      by rewrite ?length_insert.
  - intros j Hj Hlast. destruct host; cbn [replacedVertices];
      [by rewrite list_lookup_insert_ne|].
    destruct Hlast as [|Hlast]; [done|].
    destruct (closedRing vertices && bool_decide (k = 0%nat));
      by rewrite ?list_lookup_insert_ne.
Qed.

(** X6.  A virtual handle cannot be removed: at an odd local index within the slots
    of a line or of a polygon ring [removeGeometryPoint] returns the geometry
    as it is and leaves the world as it is. *)
Theorem removeGeometryPoint_virtual_handle (host : Host) (vertices : list MapPos)
    (offset index : Z) (k : nat) (w : World) :
  hostFitsInt host vertices →
  index = offset + hostOffset host + (2 * Z.of_nat k + 1) →
  2 * Z.of_nat k + 1 < hostSlotCount host vertices →
  removeGeometryPoint (hostGeometry host vertices) offset index w
  = Some ((Some (hostGeometry host vertices),
           offset + hostOffset host + hostSlotCount host vertices), w).
Proof.
  intros Hfit Hn Hk. destruct (odd_rem_quot k) as [Hrem Hquot].
  destruct host as [|pre post];
    cbn [hostGeometry hostOffset hostSlotCount hostFitsInt] in *.
  - unfold fitsInt in Hfit. pose proof (size_nonneg vertices).
    cbn [removeGeometryPoint]. rewrite bool_decide_false by lia.
    rewrite static_cast_int_small by lia.
    replace (index - offset) with (2 * Z.of_nat k + 1) by lia.
    rewrite bool_decide_true by lia. rewrite (bool_decide_false _ Hrem).
    unfold ret. repeat (f_equal; try lia).
  - destruct Hfit as [Hpre Hring]. pose proof (ringsSlotCount_nonneg pre).
    cbn [removeGeometryPoint]. rewrite bool_decide_false by lia.
    unfold bind at 1.
    destruct (removeRings_pre pre [] (vertices :: post) offset 0 index w Hpre ltac:(lia))
      as (offset' & points' & Hsum & ->).
    cbn [removeRings]. rewrite (ring_points vertices Hring).
    replace (index - (offset' + points')) with (2 * Z.of_nat k + 1) by lia.
    rewrite bool_decide_true by done. rewrite (bool_decide_false _ Hrem).
    unfold ret. repeat (f_equal; try lia).
Qed.

Lemma builtPoints_app (w : World) (hs1 hs2 : list (MapPos * bool)) :
  ∀ start,
  builtPoints w start (hs1 ++ hs2)
  = builtPoints w start hs1 ++ builtPoints w (start + length hs1) hs2.
Proof.
  induction hs1 as [|h hs1 IH]; intros start; cbn [app builtPoints length].
  - by rewrite Nat.add_0_r.
  - rewrite IH. by replace (S start + length hs1)%nat with (start + S (length hs1))%nat by lia.
Qed.

Lemma builtPoints_length (w : World) (hs : list (MapPos * bool)) :
  ∀ start, length (builtPoints w start hs) = length hs.
Proof. induction hs as [|h hs IH]; intros start; cbn; [done | by rewrite IH]. Qed.

Lemma builtPoints_lookup (w : World) (hs : list (MapPos * bool)) :
  ∀ start i, builtPoints w start hs !! i = builtPoint w (start + i) <$> hs !! i.
Proof.
  induction hs as [|h hs IH]; intros start i; [done|].
  destruct i as [|i]; cbn [builtPoints]; [by rewrite Nat.add_0_r|].
  rewrite !lookup_cons, IH. by replace (S start + i)%nat with (start + S i)%nat by lia.
Qed.

Lemma buildState_start (w : World) : buildState w 0 w.
Proof.
  repeat split; [cbn; lia|]. exists (_overlayPoints (layer w)).
  by rewrite set_overlayPoints_same.
Qed.

Lemma buildState_overlayOnly (w0 w : World) (j : nat) : buildState w0 j w → overlayOnly w0 w.
Proof. intros (He & Hc & _ & ov & Hl & _). repeat split; [done | done | by exists ov]. Qed.

(** One step of a rebuild. *)
Lemma createOverlayPoint_built (w0 w : World) (j : nat) (mapPos : MapPos)
    (virtualPoint : bool) :
  size (_overlayPoints (layer w0)) < 2 ^ 31 →
  buildState w0 j w →
  ∃ w', createOverlayPoint mapPos virtualPoint (Z.of_nat j) w
        = Some (builtPoint w0 j (mapPos, virtualPoint), w')
        ∧ buildState w0 (S j) w'.
Proof.
  intros Hfit (He & Hc & Hn & ov & Hl & Haddr).
  assert (Hlen : length ov = length (_overlayPoints (layer w0))).
  { by rewrite <- (length_fmap pt_addr ov), Haddr, length_fmap. }
  unfold createOverlayPoint. unfold bind at 1, gets at 1.
  rewrite Hl. cbn [set_overlayPoints _overlayPoints].
  rewrite bool_decide_true by lia. cbn [andb].
  rewrite static_cast_int_small by (unfold size in *; lia).
  unfold builtPoint. case_bool_decide as Hj.
  - destruct (lookup_lt_is_Some_2 ov j) as [q Hq]; [unfold size in Hj; lia|].
    destruct (lookup_lt_is_Some_2 (_overlayPoints (layer w0)) j) as [old Hold];
      [unfold size in Hj; lia|].
    assert (Hqold : pt_addr q = pt_addr old).
    { assert (Heq : (pt_addr <$> ov) !! j = (pt_addr <$> _overlayPoints (layer w0)) !! j)
        by (by rewrite Haddr).
      rewrite !list_lookup_fmap, Hq, Hold in Heq. by injection Heq. }
    unfold bind at 1, lift at 1, vec_get. rewrite bool_decide_true by lia.
    rewrite Nat2Z.id, Hq, Hold.
    unfold bind, gets, modify, ret. rewrite Hl. cbn. rewrite Hqold.
    eexists. split; [reflexivity|]. repeat split; cbn; [done | done | |].
    + unfold size in Hj. lia.
    + eexists. split; [reflexivity|].
      rewrite list_fmap_insert. cbn. rewrite <- Hqold, <- Haddr.
      apply list_insert_id. by rewrite list_lookup_fmap, Hq.
  - rewrite (lookup_ge_None_2 (_overlayPoints (layer w0)) j) by (unfold size in Hj; lia).
    unfold bind, gets, make_shared_Point. rewrite Hl. cbn. rewrite Hn.
    eexists. split; [reflexivity|]. repeat split; cbn; [done | done | |].
    + unfold size in Hj. lia.
    + by exists ov.
Qed.


Lemma lineOverlayPoints_built (w0 : World) (projectionSurface : ProjectionSurface)
    (mapPoses : list MapPos) :
  size (_overlayPoints (layer w0)) < 2 ^ 31 →
  ∀ (prev : option MapPos) (j : nat) (out : list Point) (w : World),
  buildState w0 j w →
  let hs := match prev with
            | Some prevMapPos => segmentHandles projectionSurface prevMapPos mapPoses
            | None => lineHandles projectionSurface mapPoses
            end in
  ∃ w', lineOverlayPoints projectionSurface prev mapPoses (Z.of_nat j) out w
        = Some ((Z.of_nat (j + length hs), out ++ builtPoints w0 j hs), w')
        ∧ buildState w0 (j + length hs) w'.
Proof.
  intros Hfit. induction mapPoses as [|mapPos rest IH]; intros prev j out w Hst.
  - exists w. destruct prev; cbn; rewrite Nat.add_0_r, app_nil_r; by split.
  - cbn [lineOverlayPoints]. destruct prev as [prevMapPos|].
    + unfold bind at 1. unfold bind at 1.
      destruct (createOverlayPoint_built w0 w j (midMapPos projectionSurface prevMapPos mapPos)
                  true Hfit Hst) as (w1 & -> & Hst1).
      cbn [ret]. unfold bind at 1.
      replace (Z.of_nat j + 1) with (Z.of_nat (S j)) by lia.
      destruct (createOverlayPoint_built w0 w1 (S j) mapPos false Hfit Hst1)
        as (w2 & -> & Hst2).
      replace (Z.of_nat (S j) + 1) with (Z.of_nat (S (S j))) by lia.
      destruct (IH (Some mapPos) (S (S j)) ((out ++ [builtPoint w0 j (midMapPos projectionSurface prevMapPos mapPos, true)])
                                              ++ [builtPoint w0 (S j) (mapPos, false)]) w2 Hst2)
        as (w3 & -> & Hst3).
      exists w3. cbn [segmentHandles builtPoints length].
      replace (j + S (S (length (segmentHandles projectionSurface mapPos rest))))%nat
        with (S (S j) + length (segmentHandles projectionSurface mapPos rest))%nat by lia.
      split; [|done]. by rewrite <- !app_assoc.
    + unfold bind at 1, ret at 1. cbn beta iota. unfold bind at 1.
      destruct (createOverlayPoint_built w0 w j mapPos false Hfit Hst) as (w2 & -> & Hst2).
      replace (Z.of_nat j + 1) with (Z.of_nat (S j)) by lia.
      destruct (IH (Some mapPos) (S j) (out ++ [builtPoint w0 j (mapPos, false)]) w2 Hst2)
        as (w3 & -> & Hst3).
      exists w3. cbn [lineHandles builtPoints length].
      replace (j + S (length (segmentHandles projectionSurface mapPos rest)))%nat
        with (S j + length (segmentHandles projectionSurface mapPos rest))%nat by lia.
      split; [|done]. by rewrite <- !app_assoc.
Qed.

Lemma ringOverlayPoints_built (w0 : World) (projectionSurface : ProjectionSurface)
    (ring : list MapPos) (todo : list nat) :
  size (_overlayPoints (layer w0)) < 2 ^ 31 →
  Forall (λ i, (i < length ring)%nat) todo →
  ∀ (j : nat) (out : list Point) (w : World),
  buildState w0 j w →
  let hs := ringSlots projectionSurface ring todo in
  ∃ w', ringOverlayPoints projectionSurface ring todo (Z.of_nat j) out w
        = Some ((Z.of_nat (j + length hs), out ++ builtPoints w0 j hs), w')
        ∧ buildState w0 (j + length hs) w'.
Proof.
  intros Hfit Hall. induction Hall as [|i todo Hi Hall IH]; intros j out w Hst.
  - exists w. cbn. rewrite Nat.add_0_r, app_nil_r. by split.
  - cbn [ringOverlayPoints ringSlots].
    destruct (lookup_lt_is_Some_2 ring i Hi) as [mapPos HmapPos].
    assert (Hnext : ((if bool_decide (i + 1 < length ring)%nat then (i + 1)%nat else 0%nat)
                     < length ring)%nat) by (case_bool_decide; lia).
    destruct (lookup_lt_is_Some_2 ring _ Hnext) as [nextMapPos HnextMapPos].
    rewrite HmapPos, HnextMapPos.
    unfold bind at 1, lift at 1. unfold bind at 1.
    destruct (createOverlayPoint_built w0 w j mapPos false Hfit Hst) as (w1 & -> & Hst1).
    unfold bind at 1, lift at 1. unfold bind at 1.
    replace (Z.of_nat j + 1) with (Z.of_nat (S j)) by lia.
    destruct (createOverlayPoint_built w0 w1 (S j)
                (midMapPos projectionSurface mapPos nextMapPos) true Hfit Hst1)
      as (w2 & -> & Hst2).
    replace (Z.of_nat j + 2) with (Z.of_nat (S (S j))) by lia.
    destruct (IH (S (S j)) (out ++ [builtPoint w0 j (mapPos, false);
                                    builtPoint w0 (S j)
                                      (midMapPos projectionSurface mapPos nextMapPos, true)])
                w2 Hst2) as (w3 & -> & Hst3).
    exists w3. cbn [builtPoints length].
    replace (j + S (S (length (ringSlots projectionSurface ring todo))))%nat
      with (S (S j) + length (ringSlots projectionSurface ring todo))%nat by lia.
    split; [|done]. by rewrite <- !app_assoc.
Qed.

(** The loop over a ring makes the handles of its vertices. *)
Lemma ringSlots_from (projectionSurface : ProjectionSurface) (ring : list MapPos)
    (first : MapPos) (m : nat) :
  ring !! 0%nat = Some first →
  (m = length ring ∨ S m = length ring ∧ ring !! m = Some first) →
  ∀ (vertices : list MapPos) (i : nat),
  drop i (take m ring) = vertices →
  ringSlots projectionSurface ring (seq i (length vertices))
  = ringHandlesFrom projectionSurface first vertices.
Proof.
  intros Hfirst Hm. induction vertices as [|mapPos rest IH]; intros i Hdrop; [done|].
  assert (Hi : take m ring !! i = Some mapPos).
  { rewrite <- (Nat.add_0_r i), <- lookup_drop, Hdrop. done. }
  assert (Hrest : drop (S i) (take m ring) = rest).
  { replace (S i) with (i + 1)%nat by lia. by rewrite <- drop_drop, Hdrop. }
  assert (Hlen : (length rest = m - S i)%nat ∧ (m ≤ length ring)%nat ∧ (i < m)%nat).
  { apply lookup_lt_Some in Hi as Hlt. rewrite length_take in Hlt.
    rewrite <- Hrest, length_drop, length_take. lia. }
  apply lookup_take_Some in Hi as [Hi _].
  cbn [length seq ringSlots ringHandlesFrom]. rewrite Hi.
  assert (Hnext : ring !! (if bool_decide (i + 1 < length ring)%nat
                           then (i + 1)%nat else 0%nat)
                  = Some (default first (head rest))).
  { destruct rest as [|nextMapPos rest'].
    - cbn. destruct Hm as [->|[Hm Hlast]].
      + rewrite bool_decide_false by (cbn in Hlen; lia). done.
      + rewrite bool_decide_true by (cbn in Hlen; lia).
        replace (i + 1)%nat with m by (cbn in Hlen; lia). done.
    - cbn. rewrite bool_decide_true by (cbn in Hlen; lia).
      assert (Hn : take m ring !! (S i) = Some nextMapPos).
      { rewrite <- (Nat.add_0_r (S i)), <- lookup_drop, Hrest. done. }
      apply lookup_take_Some in Hn as [Hn _].
      by replace (i + 1)%nat with (S i) by lia. }
  rewrite Hnext. by rewrite (IH (S i) Hrest).
Qed.

Lemma ringSlots_ringHandles (projectionSurface : ProjectionSurface) (ring : list MapPos) :
  ringSlots projectionSurface ring
    (seq 0 (length ring - (if closedRing ring then 1 else 0)))
  = ringHandles projectionSurface ring.
Proof.
  unfold ringHandles. destruct (closedRing ring) eqn:Hclosed.
  - apply closedRing_lookup in Hclosed as (first & Hfront & Hback).
    assert (Hlen : (0 < length ring)%nat) by (by apply lookup_lt_Some in Hfront).
    replace (length ring - 1)%nat with (Nat.pred (length ring)) by lia.
    destruct (take (Nat.pred (length ring)) ring) as [|first' vertices] eqn:Htake.
    + apply (f_equal length) in Htake. rewrite length_take in Htake. cbn in Htake.
      by replace (Nat.pred (length ring)) with 0%nat by lia.
    + assert (first' = first) as ->.
      { assert (Hl : take (Nat.pred (length ring)) ring !! 0%nat = Some first')
          by (by rewrite Htake).
        apply lookup_take_Some in Hl as [Hl _]. congruence. }
      rewrite <- (ringSlots_from projectionSurface ring first (Nat.pred (length ring))
                    Hfront ltac:(right; split; [lia | done]) (first :: vertices) 0%nat)
        by (by rewrite drop_0).
      f_equal. f_equal. rewrite <- Htake, length_take. lia.
  - rewrite Nat.sub_0_r. destruct ring as [|first vertices]; [done|].
    rewrite <- (ringSlots_from projectionSurface (first :: vertices) first
                  (length (first :: vertices)) eq_refl ltac:(by left)
                  (first :: vertices) 0%nat); [done|].
    by rewrite drop_0, firstn_all.
Qed.

Lemma polygonOverlayPoints_built (w0 : World) (projectionSurface : ProjectionSurface)
    (rings : list (list MapPos)) :
  size (_overlayPoints (layer w0)) < 2 ^ 31 →
  ∀ (j : nat) (out : list Point) (w : World),
  buildState w0 j w →
  let hs := concat (ringHandles projectionSurface <$> rings) in
  ∃ w', polygonOverlayPoints projectionSurface rings (Z.of_nat j) out w
        = Some ((Z.of_nat (j + length hs), out ++ builtPoints w0 j hs), w')
        ∧ buildState w0 (j + length hs) w'.
Proof.
  intros Hfit. induction rings as [|ring rings IH]; intros j out w Hst.
  - exists w. cbn. rewrite Nat.add_0_r, app_nil_r. by split.
  - cbn [polygonOverlayPoints fmap list_fmap concat]. unfold bind at 1.
    destruct (ringOverlayPoints_built w0 projectionSurface ring
                (seq 0 (length ring - (if closedRing ring then 1 else 0))) Hfit) with
      (j := j) (out := out) (w := w) as (w1 & -> & Hst1); [|done|].
    { apply Forall_seq. intros i Hi. destruct (closedRing ring); lia. }
    rewrite ringSlots_ringHandles in Hst1 |- *.
    destruct (IH _ (out ++ builtPoints w0 j (ringHandles projectionSurface ring)) w1 Hst1)
      as (w2 & -> & Hst2).
    exists w2. rewrite length_app, builtPoints_app, Nat.add_assoc.
    split; [|done]. by rewrite <- !app_assoc.
Qed.

(** The build on a layer with a map renderer and a projection surface: it
    makes the overlay points of the handles of the geometry, in their order. *)
Lemma createGeometryOverlayPoints_built (w0 : World) (mapRenderer : MapRenderer)
    (projectionSurface : ProjectionSurface) (geometry : Geometry) :
  getMapRenderer (layer w0) = Some mapRenderer →
  getProjectionSurface mapRenderer = Some projectionSurface →
  size (_overlayPoints (layer w0)) < 2 ^ 31 →
  ∀ (j : nat) (out : list Point) (w : World),
  buildState w0 j w →
  let hs := handles projectionSurface geometry in
  ∃ w', createGeometryOverlayPoints geometry (Z.of_nat j) out w
        = Some ((Z.of_nat (j + length hs), out ++ builtPoints w0 j hs), w')
        ∧ buildState w0 (j + length hs) w'.
Proof.
  intros Hmr Hps Hfit.
  assert (Hguard : ∀ j w, buildState w0 j w → getMapRenderer (layer w) = Some mapRenderer).
  { intros j w (_ & _ & _ & ov & -> & _). done. }
  induction geometry as [pos|poses|rings|geometries IH] using Geometry_tree_ind;
    intros j out w Hst;
    cbn [createGeometryOverlayPoints]; unfold bind at 1, gets at 1;
    rewrite (Hguard j w Hst), Hps.
  - unfold bind at 1.
    destruct (createOverlayPoint_built w0 w j pos false Hfit Hst) as (w1 & -> & Hst1).
    exists w1. cbn. unfold ret.
    replace (j + 1)%nat with (S j) by lia.
    split; [|done]. repeat (f_equal; try lia).
  - apply (lineOverlayPoints_built w0 projectionSurface poses Hfit None j out w Hst).
  - apply (polygonOverlayPoints_built w0 projectionSurface rings Hfit j out w Hst).
  - cbn [handles]. revert j out w Hst.
    induction IH as [|g gs Hg _ IHgs]; intros j out w Hst.
    + exists w. cbn. rewrite Nat.add_0_r, app_nil_r. by split.
    + unfold bind at 1.
      destruct (Hg j out w Hst) as (w1 & -> & Hst1).
      destruct (IHgs _ (out ++ builtPoints w0 j (handles projectionSurface g)) w1 Hst1)
        as (w2 & -> & Hst2).
      exists w2. rewrite length_app, builtPoints_app, Nat.add_assoc.
      split; [|done]. by rewrite <- !app_assoc.
Qed.


Lemma builtPoints_getPos (w : World) (hs : list (MapPos * bool)) :
  ∀ start, getPos <$> builtPoints w start hs = fst <$> hs.
Proof.
  induction hs as [|h hs IH]; intros start; [done|].
  cbn [builtPoints fmap list_fmap]. rewrite <- (IH (S start)). f_equal.
  unfold builtPoint. by destruct (_overlayPoints (layer w) !! start).
Qed.

(** [syncElementOverlayPoints] on a visible element with a geometry. *)
Lemma syncElementOverlayPoints_built (element : ElementPtr) (w : World)
    (mapRenderer : MapRenderer) (projectionSurface : ProjectionSurface)
    (geometry : Geometry) :
  getMapRenderer (layer w) = Some mapRenderer →
  getProjectionSurface mapRenderer = Some projectionSurface →
  isVisible (elements w element) = true →
  getGeometry (elements w element) = Some geometry →
  size (_overlayPoints (layer w)) < 2 ^ 31 →
  syncElementOverlayPoints (Some element) w
  = Some (tt,
          {| layer := set_overlayPoints
                        (builtPoints w 0 (handles projectionSurface geometry)) (layer w);
             elements := elements w;
             next_point := (next_point w
                            + (length (handles projectionSurface geometry)
                               - length (_overlayPoints (layer w))))%nat;
             calls := calls w |}).
Proof.
  intros Hmr Hps Hvisible Hgeometry Hfit.
  unfold syncElementOverlayPoints. unfold bind at 1. unfold bind at 1, deref at 1.
  rewrite Hvisible, Hgeometry. unfold bind at 1.
  destruct (createGeometryOverlayPoints_built w mapRenderer projectionSurface geometry
              Hmr Hps Hfit 0 [] w (buildState_start w))
    as (w' & Hrun & He & Hc & Hn & ov & Hl & _).
  change (Z.of_nat 0) with 0 in Hrun. rewrite Hrun.
  unfold ret, modify. cbn [app Nat.add]. rewrite Hl, He, Hc, Hn. reflexivity.
Qed.

(** ** The overlay points of a geometry *)

(** X7.  The build on a layer with a map renderer and a projection surface, from
    index 0: one overlay point per handle of the geometry, in this order.  A
    point has one handle; a line has its vertices with the middle of each
    segment between them; a ring has each vertex followed by the middle of the
    segment to the next vertex, the last one to the first vertex, and the
    closing position of a closed ring has none; a collection has the handles of
    its children one after the other.  The index ends at the number of
    handles. *)
Theorem createGeometryOverlayPoints_handles (geometry : Geometry) (w : World)
    (mapRenderer : MapRenderer) (projectionSurface : ProjectionSurface) :
  getMapRenderer (layer w) = Some mapRenderer →
  getProjectionSurface mapRenderer = Some projectionSurface →
  size (_overlayPoints (layer w)) < 2 ^ 31 →
  ∃ overlayPoints w',
    createGeometryOverlayPoints geometry 0 [] w
    = Some ((size (handles projectionSurface geometry), overlayPoints), w')
    ∧ getPos <$> overlayPoints = fst <$> handles projectionSurface geometry
    ∧ (∀ (i : nat) (p : Point) (handle : MapPos * bool),
         overlayPoints !! i = Some p →
         handles projectionSurface geometry !! i = Some handle →
         Some (pt_addr p) ≠ _overlayDragPoint (layer w) →
         getStyle p = if handle.2 then _overlayStyleVirtual (layer w)
                      else _overlayStyleNormal (layer w))
    ∧ overlayOnly w w'.
Proof.
  intros Hmr Hps Hfit.
  destruct (createGeometryOverlayPoints_built w mapRenderer projectionSurface geometry
              Hmr Hps Hfit 0 [] w (buildState_start w)) as (w' & Hrun & Hst).
  exists (builtPoints w 0 (handles projectionSurface geometry)), w'.
  split; [exact Hrun|]. split; [apply builtPoints_getPos|].
  split; [|by eapply buildState_overlayOnly].
  intros i p handle Hp Hhandle Hnot.
  rewrite builtPoints_lookup, Hhandle in Hp. injection Hp as <-.
  unfold builtPoint in *. cbn [Nat.add] in *.
  destruct (_overlayPoints (layer w) !! i) as [old|]; cbn in *; [|done].
  by rewrite bool_decide_false.
Qed.

(** X8.  A rebuild for the selected element keeps the point objects: the overlay
    point at an index that had one before is the same object, rewritten with
    the position of its handle, and it has the selected style when it is the
    drag point; the indices behind the earlier overlay points get new objects,
    with consecutive addresses. *)
Theorem syncElementOverlayPoints_reuses (element : ElementPtr) (w : World)
    (mapRenderer : MapRenderer) (projectionSurface : ProjectionSurface)
    (geometry : Geometry) :
  getMapRenderer (layer w) = Some mapRenderer →
  getProjectionSurface mapRenderer = Some projectionSurface →
  isVisible (elements w element) = true →
  getGeometry (elements w element) = Some geometry →
  size (_overlayPoints (layer w)) < 2 ^ 31 →
  let old := _overlayPoints (layer w) in
  let hs := handles projectionSurface geometry in
  ∃ w',
    syncElementOverlayPoints (Some element) w = Some (tt, w')
    ∧ length (_overlayPoints (layer w')) = length hs
    ∧ (∀ i p, _overlayPoints (layer w') !! i = Some p →
         match old !! i with
         | Some q =>
           pt_addr p = pt_addr q
           ∧ (Some (pt_addr q) = _overlayDragPoint (layer w) →
              getStyle p = _overlayStyleSelected (layer w))
         | None => pt_addr p = (next_point w + (i - length old))%nat
         end)
    ∧ next_point w' = (next_point w + (length hs - length old))%nat
    ∧ overlayOnly w w'.
Proof.
  intros Hmr Hps Hvisible Hgeometry Hfit old hs.
  eexists. split; [by eapply syncElementOverlayPoints_built|].
  cbn [layer set_overlayPoints _overlayPoints next_point].
  split; [apply builtPoints_length|]. split; [|split; [done|]].
  - intros i p Hp. rewrite builtPoints_lookup in Hp.
    destruct (handles projectionSurface geometry !! i) as [handle|]; [|done].
    injection Hp as <-. unfold builtPoint. cbn [Nat.add]. fold old.
    destruct (old !! i) as [q|]; cbn; [|done].
    split; [done|]. intros Hdrag. by rewrite bool_decide_true.
  - repeat split. by eexists.
Qed.

(** X9.  A second rebuild changes nothing: when the drag point, if there is one, is
    an object made earlier, [syncElementOverlayPoints] on the world that
    [syncElementOverlayPoints] left gives that world again. *)
Theorem syncElementOverlayPoints_idempotent (element : option ElementPtr) (w w1 : World) :
  size (_overlayPoints (layer w)) < 2 ^ 31 →
  size (_overlayPoints (layer w1)) < 2 ^ 31 →
  (∀ a, _overlayDragPoint (layer w) = Some a → (a < next_point w)%nat) →
  syncElementOverlayPoints element w = Some (tt, w1) →
  syncElementOverlayPoints element w1 = Some (tt, w1).
Proof.
  intros Hfit Hfit1 Hdrag Hrun.
  assert (Hempty : ∀ w1, modify (set_overlayPoints []) w = Some (tt, w1) →
            modify (set_overlayPoints []) w1 = Some (tt, w1)).
  { by intros w2 [= <-]. }
  unfold syncElementOverlayPoints in Hrun |- *.
  destruct element as [element|]; [|unfold bind, ret in *; by apply Hempty].
  destruct (isVisible (elements w element)) eqn:Hvisible.
  2:{ unfold bind at 1 in Hrun. unfold bind at 1, deref at 1 in Hrun.
      rewrite Hvisible in Hrun. pose proof Hrun as Hrun'. injection Hrun' as <-.
      unfold bind, deref. cbn [elements]. by rewrite Hvisible. }
  destruct (getGeometry (elements w element)) as [geometry|] eqn:Hgeometry.
  2:{ unfold bind at 1 in Hrun. unfold bind at 1, deref at 1 in Hrun.
      rewrite Hvisible, Hgeometry in Hrun. pose proof Hrun as Hrun'. injection Hrun' as <-.
      unfold bind, deref. cbn [elements]. by rewrite Hvisible, Hgeometry. }
  destruct (getMapRenderer (layer w)) as [mapRenderer|] eqn:Hmr.
  2:{ unfold bind at 1 in Hrun. unfold bind at 1, deref at 1 in Hrun.
      rewrite Hvisible, Hgeometry in Hrun.
      assert (Hguard : ∀ w2, getMapRenderer (layer w2) = None →
                createGeometryOverlayPoints geometry 0 [] w2 = Some ((0, []), w2)).
      { intros w2 Hnone.
        destruct geometry; cbn [createGeometryOverlayPoints]; unfold bind, gets;
          by rewrite Hnone. }
      unfold bind at 1 in Hrun. rewrite (Hguard w Hmr) in Hrun.
      pose proof Hrun as Hrun'. injection Hrun' as <-.
      unfold bind at 1. unfold bind at 1, deref at 1. cbn [elements].
      rewrite Hvisible, Hgeometry. unfold bind at 1. by rewrite Hguard. }
  destruct (getProjectionSurface mapRenderer) as [projectionSurface|] eqn:Hps.
  2:{ unfold bind at 1 in Hrun. unfold bind at 1, deref at 1 in Hrun.
      rewrite Hvisible, Hgeometry in Hrun.
      assert (Hguard : ∀ w2, getMapRenderer (layer w2) = Some mapRenderer →
                createGeometryOverlayPoints geometry 0 [] w2 = Some ((0, []), w2)).
      { intros w2 Hsome.
        destruct geometry; cbn [createGeometryOverlayPoints]; unfold bind, gets;
          by rewrite Hsome, Hps. }
      unfold bind at 1 in Hrun. rewrite (Hguard w Hmr) in Hrun.
      pose proof Hrun as Hrun'. injection Hrun' as <-.
      unfold bind at 1. unfold bind at 1, deref at 1. cbn [elements].
      rewrite Hvisible, Hgeometry. unfold bind at 1. by rewrite Hguard. }
  fold (syncElementOverlayPoints (Some element)) in Hrun |- *.
  rewrite (syncElementOverlayPoints_built element w mapRenderer projectionSurface geometry)
    in Hrun by done.
  injection Hrun as <-.
  set (hs := handles projectionSurface geometry).
  set (built := builtPoints w 0 hs).
  rewrite (syncElementOverlayPoints_built element _ mapRenderer projectionSurface geometry)
    by done.
  cbn [layer set_overlayPoints _overlayPoints elements next_point calls]. fold hs built.
  assert (Hsame : builtPoints
                    {| layer := set_overlayPoints built (layer w); elements := elements w;
                       next_point := (next_point w
                                      + (length hs - length (_overlayPoints (layer w))))%nat;
                       calls := calls w |} 0 hs = built).
  { apply list_eq. intros i. unfold built. rewrite !builtPoints_lookup.
    destruct (hs !! i) as [handle|] eqn:Hhandle; [|done]. cbn [fmap option_fmap option_map].
    f_equal. unfold builtPoint at 1.
    cbn [layer set_overlayPoints _overlayPoints _overlayDragPoint _overlayStyleSelected
         next_point Nat.add].
    fold built. unfold built at 1. rewrite builtPoints_lookup, Hhandle. cbn [fmap option_fmap option_map Nat.add].
    unfold builtPoint.
    destruct (_overlayPoints (layer w) !! i) as [q|] eqn:Hq; cbn; [done|].
    rewrite bool_decide_false; [done|].
    intros Heq. symmetry in Heq. apply Hdrag in Heq. lia. }
  rewrite Hsame. unfold built at 3. rewrite builtPoints_length, Nat.sub_diag, Nat.add_0_r.
  reflexivity.
Qed.

(** ** Frames *)

#[local] Instance editFrame_refl : Reflexive editFrame.
Proof.
  intros w. split; [|apply extendsCalls_refl].
  exists (_overlayPoints (layer w)). by rewrite set_overlayPoints_same.
Qed.

#[local] Instance editFrame_trans : Transitive editFrame.
Proof.
  intros w1 w2 w3 [[ov1 Hl1] Hc1] [[ov2 Hl2] Hc2].
  split; [|eauto using extendsCalls_trans]. exists ov2. by rewrite Hl2, Hl1.
Qed.

#[local] Instance touchFrame_refl : Reflexive touchFrame.
Proof. intros w. split; [done | apply extendsCalls_refl]. Qed.

#[local] Instance touchFrame_trans : Transitive touchFrame.
Proof.
  intros w1 w2 w3 [(? & ? & ? & ? & ? & ?) Hc1] [(? & ? & ? & ? & ? & ?) Hc2].
  split; [|eauto using extendsCalls_trans]. repeat split; congruence.
Qed.

Lemma overlayOnly_editFrame (w w' : World) : overlayOnly w w' → editFrame w w'.
Proof.
  intros (_ & Hc & Hl). split; [done|]. exists []. by rewrite app_nil_r.
Qed.

Lemma editFrame_touchFrame (w w' : World) : editFrame w w' → touchFrame w w'.
Proof.
  intros [[ov Hl] Hc]. split; [|done]. unfold sameConfiguration. by rewrite Hl.
Qed.

Lemma preserves_ret {A} (R : World → World → Prop) `{!Reflexive R} (a : A) :
  preserves R (ret a).
Proof. by intros w a' w' [= <- <-]. Qed.

Lemma preserves_bind {A B} (R : World → World → Prop) `{!Transitive R}
    (m : M A) (k : A → M B) :
  preserves R m → (∀ a, preserves R (k a)) → preserves R (bind m k).
Proof.
  intros Hm Hk w b w' (a & w1 & Hrun1 & Hrun2)%bind_Some.
  etrans; [by eapply Hm | by eapply Hk].
Qed.

Lemma preserves_gets {A} (R : World → World → Prop) `{!Reflexive R}
    (f : EditableVectorLayer → A) :
  preserves R (gets f).
Proof. by intros w a w' [= <- <-]. Qed.

Lemma preserves_lift {A} (R : World → World → Prop) `{!Reflexive R} (o : option A) :
  preserves R (lift o).
Proof. intros w a w' [_ ->]%lift_Some. done. Qed.

Lemma preserves_deref (R : World → World → Prop) `{!Reflexive R} (element : ElementPtr) :
  preserves R (deref element).
Proof. by intros w a w' [= <- <-]. Qed.

Lemma preserves_weaken {A} (R R' : World → World → Prop) (m : M A) :
  (∀ w w', R w w' → R' w w') → preserves R m → preserves R' m.
Proof. intros Himpl Hm w a w' Hrun. by eapply Himpl, Hm. Qed.

Lemma preserves_call_edit (c : Call) : preserves editFrame (call c).
Proof.
  intros w a w' [= <- <-]. split; [|by eexists].
  exists (_overlayPoints (layer w)). by rewrite set_overlayPoints_same.
Qed.

Lemma preserves_modify_elements (f : ElementStore → ElementStore) :
  preserves editFrame (modify_elements f).
Proof.
  intros w a w' [= <- <-]. split; [|exists []; cbn; by rewrite app_nil_r].
  exists (_overlayPoints (layer w)). by rewrite set_overlayPoints_same.
Qed.

Lemma preserves_modify_touch (f : EditableVectorLayer → EditableVectorLayer) :
  (∀ l, sameConfiguration l (f l)) → preserves touchFrame (modify f).
Proof.
  intros Hf w a w' [= <- <-]. split; [apply Hf | exists []; cbn; by rewrite app_nil_r].
Qed.

Lemma syncElementOverlayPoints_frame (element : option ElementPtr) :
  preserves editFrame (syncElementOverlayPoints element).
Proof.
  intros w a w' Hrun.
  destruct (syncElementOverlayPoints_runs element w) as (w0 & Hrun0 & Ho).
  rewrite Hrun0 in Hrun. injection Hrun as _ <-. by apply overlayOnly_editFrame.
Qed.

Lemma notifyElementModify_frame (element : ElementPtr) (geometry : option Geometry) :
  preserves editFrame (notifyElementModify element geometry).
Proof.
  unfold notifyElementModify. apply preserves_bind; [tc_solve | apply preserves_gets; tc_solve|].
  intros [listener|]; [|apply preserves_ret; tc_solve].
  apply preserves_bind; [tc_solve | apply preserves_call_edit|].
  intros _. apply preserves_modify_elements.
Qed.

Lemma notifyElementDelete_frame (element : ElementPtr) :
  preserves editFrame (notifyElementDelete element).
Proof.
  unfold notifyElementDelete. apply preserves_bind; [tc_solve | apply preserves_gets; tc_solve|].
  intros [listener|]; [|apply preserves_ret; tc_solve].
  apply preserves_bind; [tc_solve | apply preserves_call_edit|].
  intros _. apply preserves_modify_elements.
Qed.

Lemma commitElementPoint_frame (element : ElementPtr) (geometry : option Geometry) :
  preserves editFrame (commitElementPoint element geometry).
Proof.
  unfold commitElementPoint. apply preserves_bind; [tc_solve | |].
  - destruct geometry.
    + apply preserves_bind; [tc_solve | apply notifyElementModify_frame|].
      intros _. apply preserves_ret; tc_solve.
    + apply preserves_bind; [tc_solve | apply notifyElementDelete_frame|].
      intros _. apply preserves_ret; tc_solve.
  - intros element'. apply preserves_bind; [tc_solve | apply syncElementOverlayPoints_frame|].
    intros _. apply preserves_call_edit.
Qed.

Lemma mutate_frame (mutation : Mutation) (geometry : Geometry) (offset index : Z) :
  preserves editFrame (mutate mutation geometry offset index).
Proof.
  intros w [r offset'] w' Hrun. apply overlayOnly_editFrame.
  by apply mutate_returns in Hrun as [Ho _].
Qed.

Lemma updateElementPoint_frame (element : option ElementPtr) (dragPoint : option PointPtr)
    (mapPos : MapPos) :
  preserves editFrame (updateElementPoint element dragPoint mapPos).
Proof.
  unfold updateElementPoint. destruct element as [element|]; [|apply preserves_ret; tc_solve].
  apply preserves_bind; [tc_solve | apply preserves_gets; tc_solve|].
  intros overlayPoints. destruct (findOverlayPoint overlayPoints dragPoint) as [it|];
    [|apply preserves_ret; tc_solve].
  apply preserves_bind; [tc_solve | apply preserves_deref; tc_solve|].
  intros e. apply preserves_bind; [tc_solve | | intros geometry; apply commitElementPoint_frame].
  destruct (getGeometry e) as [geometry|]; [|apply preserves_ret; tc_solve].
  apply preserves_bind; [tc_solve | apply (mutate_frame (Update mapPos))|].
  intros [geometry' offset']. apply preserves_ret; tc_solve.
Qed.

Lemma removeElementPoint_frame (element : option ElementPtr) (dragPoint : option PointPtr) :
  preserves editFrame (removeElementPoint element dragPoint).
Proof.
  unfold removeElementPoint. destruct element as [element|]; [|apply preserves_ret; tc_solve].
  apply preserves_bind; [tc_solve | apply preserves_gets; tc_solve|].
  intros overlayPoints. destruct (findOverlayPoint overlayPoints dragPoint) as [it|];
    [|apply preserves_ret; tc_solve].
  apply preserves_bind; [tc_solve | apply preserves_deref; tc_solve|].
  intros e. apply preserves_bind; [tc_solve | | intros geometry; apply commitElementPoint_frame].
  destruct (getGeometry e) as [geometry|]; [|apply preserves_ret; tc_solve].
  apply preserves_bind; [tc_solve | apply (mutate_frame Remove)|].
  intros [geometry' offset']. apply preserves_ret; tc_solve.
Qed.

Lemma updateElementGeometry_frame (element : option ElementPtr) (geometry : option Geometry)
    (viewState : ViewState) (mapPos0 mapPos1 : MapPos) :
  preserves editFrame (updateElementGeometry element geometry viewState mapPos0 mapPos1).
Proof.
  unfold updateElementGeometry. destruct element as [element|]; [|apply preserves_ret; tc_solve].
  apply preserves_bind; [tc_solve | apply notifyElementModify_frame|].
  intros _. apply preserves_bind; [tc_solve | apply syncElementOverlayPoints_frame|].
  intros _. apply preserves_call_edit.
Qed.

Lemma removeElement_frame (element : ElementPtr) :
  preserves editFrame (removeElement element).
Proof.
  unfold removeElement.
  apply preserves_bind; [tc_solve | apply notifyElementDelete_frame|].
  intros _. apply preserves_bind; [tc_solve | apply syncElementOverlayPoints_frame|].
  intros _. apply preserves_call_edit.
Qed.

Lemma dragModify_frame (selectedElement : ElementPtr) (selectedPoint : option PointPtr)
    (selectedGeometry : option Geometry) (viewState : ViewState) (mapPos1 : MapPos) :
  preserves editFrame
    (dragModify selectedElement selectedPoint selectedGeometry viewState mapPos1).
Proof.
  unfold dragModify. apply preserves_bind; [tc_solve | apply preserves_gets; tc_solve|].
  intros [|]; [apply updateElementPoint_frame|].
  apply preserves_bind; [tc_solve | apply preserves_gets; tc_solve|].
  intros dragGeometryPos. apply updateElementGeometry_frame.
Qed.

Lemma dragDelete_frame (selectedElement : ElementPtr) (selectedPoint : option PointPtr) :
  preserves editFrame (dragDelete selectedElement selectedPoint).
Proof.
  unfold dragDelete. apply preserves_bind; [tc_solve | apply preserves_gets; tc_solve|].
  intros [|]; [apply removeElementPoint_frame | apply removeElement_frame].
Qed.

Lemma askListener_frame (vectorEditEventListener : option VectorEditEventListener)
    (callback : VectorEditEventListener → VectorElementDragInfo → VectorElementDragResult)
    (logged : VectorElementDragInfo → Call) (dragInfo : VectorElementDragInfo) :
  preserves editFrame (askListener vectorEditEventListener callback logged dragInfo).
Proof.
  unfold askListener. destruct vectorEditEventListener; [|apply preserves_ret; tc_solve].
  apply preserves_bind; [tc_solve | apply preserves_call_edit|].
  intros _. apply preserves_ret; tc_solve.
Qed.


(** The steps of the touch handler, one by one. *)
Ltac touch_frame :=
  repeat first
    [ apply preserves_ret; tc_solve
    | apply preserves_gets; tc_solve
    | apply preserves_deref; tc_solve
    | apply preserves_modify_touch; by intros []
    | apply (preserves_weaken editFrame touchFrame);
        [ apply editFrame_touchFrame
        | first [ apply askListener_frame | apply updateElementPoint_frame
                | apply removeElementPoint_frame | apply updateElementGeometry_frame
                | apply removeElement_frame | apply dragModify_frame
                | apply dragDelete_frame | apply preserves_call_edit ] ]
    | apply preserves_bind; [ tc_solve | | intros ? ] ].

Lemma pointerDownOverlay_frame (vectorEditEventListener : option VectorEditEventListener)
    (selectedElement : ElementPtr) (selectedPoint : option PointPtr)
    (screenPos1 : ScreenPos) (mapPos1 : MapPos) (results : list PointPtr) :
  preserves touchFrame
    (pointerDownOverlay vectorEditEventListener selectedElement selectedPoint
       screenPos1 mapPos1 results).
Proof.
  unfold pointerDownOverlay. destruct results as [|front others]; [touch_frame|].
  apply preserves_bind; [tc_solve | touch_frame|].
  intros dragResult. do 2 (apply preserves_bind; [tc_solve | touch_frame | intros _]).
  destruct dragResult; touch_frame.
Qed.

Lemma pointerDownElement_frame (dragResult : VectorElementDragResult)
    (selectedElement : ElementPtr) (viewState : ViewState) (mapPos1 : MapPos)
    (continue : M (option bool)) :
  preserves touchFrame continue →
  preserves touchFrame
    (pointerDownElement dragResult selectedElement viewState mapPos1 continue).
Proof.
  intros Hcontinue. unfold pointerDownElement.
  apply preserves_bind; [tc_solve | touch_frame | intros _].
  apply preserves_bind; [tc_solve | touch_frame | intros e].
  do 2 (apply preserves_bind; [tc_solve | touch_frame | intros _]).
  destruct dragResult; touch_frame. done.
Qed.

Lemma pointerDownElements_frame (vectorEditEventListener : option VectorEditEventListener)
    (selectedElement : ElementPtr) (viewState : ViewState) (screenPos1 : ScreenPos)
    (mapPos1 : MapPos) (results : list ElementPtr) :
  preserves touchFrame
    (pointerDownElements vectorEditEventListener selectedElement viewState screenPos1
       mapPos1 results).
Proof.
  induction results as [|result results IH]; [touch_frame|].
  cbn [pointerDownElements]. case_bool_decide; [done|].
  apply preserves_bind; [tc_solve | touch_frame | intros dragResult].
  by apply pointerDownElement_frame.
Qed.

(** ** What the touch handler leaves alone *)

(** X10.  Whatever the event and whatever the listener answers, the touch handler
    does not change the selection, the three styles, the listener or the map
    renderer of the layer, and it takes back none of the calls made. *)
Theorem onTouchEvent_keeps_configuration (expired : bool) (action : TouchAction)
    (screenPos1 screenPos2 : ScreenPos) (results : RayIntersections) (w w' : World)
    (consumed : bool) :
  onTouchEvent expired action screenPos1 screenPos2 results w = Some (consumed, w') →
  _selectedVectorElement (layer w') = _selectedVectorElement (layer w)
  ∧ _overlayStyleNormal (layer w') = _overlayStyleNormal (layer w)
  ∧ _overlayStyleVirtual (layer w') = _overlayStyleVirtual (layer w)
  ∧ _overlayStyleSelected (layer w') = _overlayStyleSelected (layer w)
  ∧ _vectorEditEventListener (layer w') = _vectorEditEventListener (layer w)
  ∧ getMapRenderer (layer w') = getMapRenderer (layer w)
  ∧ extendsCalls w w'.
Proof.
  assert (Hframe : preserves touchFrame
            (onTouchEvent expired action screenPos1 screenPos2 results)).
  { unfold onTouchEvent. destruct expired; [touch_frame|].
    apply preserves_bind; [tc_solve | touch_frame | intros vectorEditEventListener].
    apply preserves_bind; [tc_solve | touch_frame | intros [mapRenderer|]]; [|touch_frame].
    destruct (getProjectionSurface mapRenderer) as [projectionSurface|]; [|touch_frame].
    destruct (norm_isnan _); [touch_frame|].
    apply preserves_bind; [tc_solve | unfold getSelectedVectorElement; touch_frame|].
    intros [selectedElement|]; [|touch_frame].
    apply preserves_bind; [tc_solve | touch_frame | intros selectedPoint].
    apply preserves_bind; [tc_solve | touch_frame | intros selectedGeometry].
    destruct action.
    - apply preserves_bind; [tc_solve | apply pointerDownOverlay_frame|].
      intros [b|]; [touch_frame|].
      apply preserves_bind; [tc_solve | apply pointerDownElements_frame|].
      intros [b|]; touch_frame.
    - apply preserves_bind; [tc_solve | touch_frame | intros dragStarted].
      destruct (negb dragStarted); [touch_frame|].
      apply preserves_bind; [tc_solve | touch_frame | intros dragMode].
      apply preserves_bind; [tc_solve | touch_frame | intros dragResult].
      destruct dragResult; touch_frame.
    - apply preserves_bind; [tc_solve | touch_frame | intros dragStarted].
      destruct (negb dragStarted); [touch_frame|].
      apply preserves_bind; [tc_solve | touch_frame | intros dragMode].
      apply preserves_bind; [tc_solve | touch_frame | intros dragResult].
      do 3 (apply preserves_bind; [tc_solve | touch_frame | intros _]).
      destruct dragResult; touch_frame.
    - touch_frame. }
  intros Hrun. apply Hframe in Hrun as [(? & ? & ? & ? & ? & ?) ?]. done.
Qed.

(** [updateElementGeometry] with a listener: the listener is given the
    geometry, moved when the two positions differ; the overlay points are
    rebuilt and a redraw is asked for. *)
Lemma updateElementGeometry_notifies (element : ElementPtr) (geometry : option Geometry)
    (viewState : ViewState) (mapPos0 mapPos1 : MapPos) (listener : VectorEditEventListener)
    (w : World) :
  _vectorEditEventListener (layer w) = Some listener →
  let moved := if bool_decide (mapPos0 ≠ mapPos1)
               then updateGeometryPoints geometry viewState mapPos0 mapPos1
               else geometry in
  ∃ overlayPoints next,
    updateElementGeometry (Some element) geometry viewState mapPos0 mapPos1 w
    = Some (tt, {| layer := set_overlayPoints overlayPoints (layer w);
                   elements := onElementModify listener element moved (elements w);
                   next_point := next;
                   calls := calls w ++ [CallOnElementModify element moved; CallRedraw] |}).
Proof.
  intros Hl moved. unfold updateElementGeometry. fold moved.
  unfold bind at 1. unfold notifyElementModify, bind at 1, gets at 1. rewrite Hl.
  unfold bind at 1, call at 1, modify_elements at 1. cbn [layer elements next_point calls].
  unfold bind at 1.
  match goal with
  | |- context [syncElementOverlayPoints ?e ?w1] =>
      destruct (syncElementOverlayPoints_runs e w1) as (w2 & -> & He & Hc & ov & Hl2)
  end.
  cbn [layer elements calls] in He, Hc, Hl2.
  exists ov, (next_point w2). unfold redraw, call. rewrite He, Hc, Hl2, <- app_assoc.
  reflexivity.
Qed.


(** ** Drags of the whole element *)

(** X11.  Pointer down on the selected element itself, no overlay point hit,
    answered [MODIFY]: the drag of the element starts and the geometry of the
    element is kept as the geometry of the drag, with the position of the
    event.  The listener is told at once to modify the element, with the
    geometry the element has: the two positions of this first update are
    equal and nothing is moved. *)
Theorem pointerDown_element_modify (w : World) (mapRenderer : MapRenderer)
    (projectionSurface : ProjectionSurface) (selectedElement : ElementPtr)
    (listener : VectorEditEventListener) (screenPos1 screenPos2 : ScreenPos)
    (results : RayIntersections) (others rest : list ElementPtr) :
  getMapRenderer (layer w) = Some mapRenderer →
  getProjectionSurface mapRenderer = Some projectionSurface →
  norm_isnan (screenToWorld (getViewState mapRenderer) screenPos1) = false →
  _selectedVectorElement (layer w) = Some selectedElement →
  _vectorEditEventListener (layer w) = Some listener →
  overlayResults results = [] →
  layerResults results = others ++ selectedElement :: rest →
  selectedElement ∉ others →
  let dragInfo := dragInfoOf selectedElement VECTOR_ELEMENT_DRAG_MODE_ELEMENT
                    mapRenderer projectionSurface screenPos1 in
  onDragStart listener dragInfo = VECTOR_ELEMENT_DRAG_RESULT_MODIFY →
  let geometry := getGeometry (elements w selectedElement) in
  ∃ w',
    onTouchEvent false ACTION_POINTER_1_DOWN screenPos1 screenPos2 results w
    = Some (true, w')
    ∧ calls w' = calls w ++ [CallOnDragStart dragInfo;
                             CallOnElementModify selectedElement geometry; CallRedraw]
    ∧ elements w' = onElementModify listener selectedElement geometry (elements w)
    ∧ _overlayDragStarted (layer w') = true
    ∧ _overlayDragMode (layer w') = VECTOR_ELEMENT_DRAG_MODE_ELEMENT
    ∧ _overlayDragGeometry (layer w') = geometry
    ∧ _overlayDragGeometryPos (layer w') = getMapPos dragInfo.
Proof.
  intros Hmr Hps Hnan Hsel Hl Hnone Hhit Hothers dragInfo Hmodify geometry.
  rewrite (onTouchEvent_pointer_down w mapRenderer projectionSurface selectedElement)
    by done.
  unfold pointerDownOverlay. rewrite Hnone, Hhit, Hl. unfold ret at 1.
  rewrite pointerDownElements_others by done.
  cbn [pointerDownElements]. rewrite bool_decide_false by (by intros []).
  unfold askListener. unfold bind at 1. unfold bind at 1, call at 1, ret at 1.
  fold dragInfo. unfold dragInfoOf in dragInfo. fold dragInfo. rewrite Hmodify.
  unfold pointerDownElement.
  unfold bind at 1, modify at 1. unfold bind at 1, deref at 1.
  unfold bind at 1, modify at 1. unfold bind at 1, modify at 1.
  unfold bind at 1, modify at 1. unfold bind at 1, deref at 1.
  cbn [layer elements next_point calls]. fold geometry.
  unfold bind at 1.
  match goal with
  | |- context [updateElementGeometry _ _ _ _ _ ?w1] =>
      destruct (updateElementGeometry_notifies selectedElement geometry
                  (getViewState mapRenderer) MapPos_default MapPos_default listener w1)
        as (ov & next & ->); [exact Hl|]
  end.
  rewrite bool_decide_false by (by intros []).
  eexists. split; [reflexivity|]. cbn. by rewrite <- app_assoc.
Qed.

(** X12.  Pointer down on the selected element itself, no overlay point hit,
    answered [DELETE]: the listener is told to delete the element, the overlay
    points are given up and a redraw is asked for.  The layer itself keeps the
    selection, and no drag is started. *)
Theorem pointerDown_element_delete (w : World) (mapRenderer : MapRenderer)
    (projectionSurface : ProjectionSurface) (selectedElement : ElementPtr)
    (listener : VectorEditEventListener) (screenPos1 screenPos2 : ScreenPos)
    (results : RayIntersections) (others rest : list ElementPtr) :
  getMapRenderer (layer w) = Some mapRenderer →
  getProjectionSurface mapRenderer = Some projectionSurface →
  norm_isnan (screenToWorld (getViewState mapRenderer) screenPos1) = false →
  _selectedVectorElement (layer w) = Some selectedElement →
  _vectorEditEventListener (layer w) = Some listener →
  overlayResults results = [] →
  layerResults results = others ++ selectedElement :: rest →
  selectedElement ∉ others →
  let dragInfo := dragInfoOf selectedElement VECTOR_ELEMENT_DRAG_MODE_ELEMENT
                    mapRenderer projectionSurface screenPos1 in
  onDragStart listener dragInfo = VECTOR_ELEMENT_DRAG_RESULT_DELETE →
  ∃ w',
    onTouchEvent false ACTION_POINTER_1_DOWN screenPos1 screenPos2 results w
    = Some (true, w')
    ∧ calls w' = calls w ++ [CallOnDragStart dragInfo;
                             CallOnElementDelete selectedElement; CallRedraw]
    ∧ elements w' = onElementDelete listener selectedElement (elements w)
    ∧ _overlayPoints (layer w') = []
    ∧ _selectedVectorElement (layer w') = Some selectedElement
    ∧ _overlayDragStarted (layer w') = _overlayDragStarted (layer w).
Proof.
  intros Hmr Hps Hnan Hsel Hl Hnone Hhit Hothers dragInfo Hdelete.
  rewrite (onTouchEvent_pointer_down w mapRenderer projectionSurface selectedElement)
    by done.
  unfold pointerDownOverlay. rewrite Hnone, Hhit, Hl. unfold ret at 1.
  rewrite pointerDownElements_others by done.
  cbn [pointerDownElements]. rewrite bool_decide_false by (by intros []).
  unfold askListener. unfold bind at 1. unfold bind at 1, call at 1, ret at 1.
  fold dragInfo. unfold dragInfoOf in dragInfo. fold dragInfo. rewrite Hdelete.
  unfold pointerDownElement, removeElement, notifyElementDelete, syncElementOverlayPoints,
    redraw, bind, modify, deref, gets, call, modify_elements, ret.
  cbn. rewrite Hl. cbn.
  eexists. split; [reflexivity|]. cbn. rewrite <- !app_assoc. by repeat split.
Qed.


(** ** The end of a drag *)

(** X13.  Pointer up while a drag is going on: whatever the listener answers to
    [onDragEnd] and whatever the edit does, the drag is over afterwards (the
    drag point and the geometry of the drag are null) and the last call is a
    refresh.  The event is consumed unless the answer is [IGNORE], which is the
    answer of a layer without listener. *)
Theorem onTouchEvent_up_ends_drag (w w' : World) (mapRenderer : MapRenderer)
    (projectionSurface : ProjectionSurface) (selectedElement : ElementPtr)
    (screenPos1 screenPos2 : ScreenPos) (results : RayIntersections) (consumed : bool) :
  getMapRenderer (layer w) = Some mapRenderer →
  getProjectionSurface mapRenderer = Some projectionSurface →
  norm_isnan (screenToWorld (getViewState mapRenderer) screenPos1) = false →
  _selectedVectorElement (layer w) = Some selectedElement →
  _overlayDragStarted (layer w) = true →
  onTouchEvent false ACTION_POINTER_1_UP screenPos1 screenPos2 results w
  = Some (consumed, w') →
  _overlayDragStarted (layer w') = false
  ∧ _overlayDragPoint (layer w') = None
  ∧ _overlayDragGeometry (layer w') = None
  ∧ (∃ extra, calls w' = calls w ++ extra ++ [CallRefresh])
  ∧ (consumed = false
     ↔ match _vectorEditEventListener (layer w) with
       | Some listener =>
         onDragEnd listener
           (dragInfoOf selectedElement (_overlayDragMode (layer w)) mapRenderer
              projectionSurface screenPos1)
         = VECTOR_ELEMENT_DRAG_RESULT_IGNORE
       | None => True
       end).
Proof.
  intros Hmr Hps Hnan Hsel Hstarted Hrun.
  unfold onTouchEvent, bind, gets, getSelectedVectorElement in Hrun.
  rewrite Hmr, Hps, Hnan in Hrun. unfold gets in Hrun. rewrite Hsel, Hstarted in Hrun.
  cbn [negb] in Hrun.
  assert (Hdone : ∀ (w2 : World) (asked : list Call),
            editFrame
              {| layer := set_overlayDragGeometry None
                            (set_overlayDragPoint None
                               (set_overlayDragStarted false (layer w)));
                 elements := elements w; next_point := next_point w;
                 calls := calls w ++ asked |} w2 →
            refresh w2 = Some (tt, w') →
            _overlayDragStarted (layer w') = false
            ∧ _overlayDragPoint (layer w') = None
            ∧ _overlayDragGeometry (layer w') = None
            ∧ ∃ extra, calls w' = calls w ++ extra ++ [CallRefresh]).
  { intros w2 asked [[ov Hl2] [extra Hc2]] [= <-]. cbn in Hl2, Hc2 |- *.
    rewrite Hl2, Hc2. repeat split. exists (asked ++ extra). by rewrite !app_assoc. }
  destruct (_vectorEditEventListener (layer w)) as [listener|] eqn:Hl;
    unfold askListener, bind, call, modify in Hrun;
    cbn [layer elements next_point calls] in Hrun.
  - unfold dragInfoOf. unfold ret at 1 in Hrun.
    destruct (onDragEnd listener _) eqn:Hanswer.
    + destruct (refresh _) as [[[] w2]|] eqn:Hrefresh in Hrun; [|done].
      injection Hrun as <- <-.
      destruct (Hdone _ [CallOnDragEnd _] ltac:(reflexivity) Hrefresh) as (? & ? & ? & ?).
      by repeat split.
    + destruct (refresh _) as [[[] w2]|] eqn:Hrefresh in Hrun; [|done].
      injection Hrun as <- <-.
      destruct (Hdone _ [CallOnDragEnd _] ltac:(reflexivity) Hrefresh) as (? & ? & ? & ?).
      by repeat split.
    + destruct (dragModify _ _ _ _ _ _) as [[[] w2]|] eqn:Hedit in Hrun; [|done].
      apply dragModify_frame in Hedit.
      destruct (refresh _) as [[[] w3]|] eqn:Hrefresh in Hrun; [|done].
      injection Hrun as <- <-.
      destruct (Hdone w2 [CallOnDragEnd _] Hedit Hrefresh) as (? & ? & ? & ?).
      by repeat split.
    + destruct (dragDelete _ _ _) as [[[] w2]|] eqn:Hedit in Hrun; [|done].
      apply dragDelete_frame in Hedit.
      destruct (refresh _) as [[[] w3]|] eqn:Hrefresh in Hrun; [|done].
      injection Hrun as <- <-.
      destruct (Hdone w2 [CallOnDragEnd _] Hedit Hrefresh) as (? & ? & ? & ?).
      by repeat split.
  - unfold ret at 1 in Hrun.
    destruct (refresh _) as [[[] w2]|] eqn:Hrefresh in Hrun; [|done].
    injection Hrun as <- <-.
    destruct (Hdone _ [] ltac:(rewrite app_nil_r; reflexivity) Hrefresh) as (? & ? & ? & ?).
    by repeat split.
Qed.


(** ** Moves *)

(** X14.  A move while a drag is going on, answered [IGNORE] or [STOP].  [IGNORE]
    leaves the event to others and the drag going; [STOP] ends the drag and
    asks for a refresh.  Neither edits the element. *)
Theorem onTouchEvent_move_ignore_stop (w : World) (mapRenderer : MapRenderer)
    (projectionSurface : ProjectionSurface) (selectedElement : ElementPtr)
    (listener : VectorEditEventListener) (screenPos1 screenPos2 : ScreenPos)
    (results : RayIntersections) :
  getMapRenderer (layer w) = Some mapRenderer →
  getProjectionSurface mapRenderer = Some projectionSurface →
  norm_isnan (screenToWorld (getViewState mapRenderer) screenPos1) = false →
  _selectedVectorElement (layer w) = Some selectedElement →
  _overlayDragStarted (layer w) = true →
  _vectorEditEventListener (layer w) = Some listener →
  let dragInfo := dragInfoOf selectedElement (_overlayDragMode (layer w)) mapRenderer
                    projectionSurface screenPos1 in
  (onDragMove listener dragInfo = VECTOR_ELEMENT_DRAG_RESULT_IGNORE →
   onTouchEvent false ACTION_MOVE screenPos1 screenPos2 results w
   = Some (false, {| layer := layer w; elements := elements w;
                     next_point := next_point w;
                     calls := calls w ++ [CallOnDragMove dragInfo] |}))
  ∧ (onDragMove listener dragInfo = VECTOR_ELEMENT_DRAG_RESULT_STOP →
     onTouchEvent false ACTION_MOVE screenPos1 screenPos2 results w
     = Some (true,
             {| layer := set_overlayDragStarted false
                           (set_overlayDragGeometry None
                              (set_overlayDragPoint None (layer w)));
                elements := elements w; next_point := next_point w;
                calls := calls w ++ [CallOnDragMove dragInfo; CallRefresh] |})).
Proof.
  intros Hmr Hps Hnan Hsel Hstarted Hl dragInfo.
  unfold onTouchEvent, bind, gets, getSelectedVectorElement.
  rewrite Hmr, Hps, Hnan. unfold gets. rewrite Hsel, Hstarted, Hl. cbn [negb].
  unfold askListener, bind, call, ret. cbn [layer elements next_point calls].
  fold dragInfo. unfold dragInfoOf in dragInfo. fold dragInfo.
  split; intros ->; [done|].
  unfold modify, refresh, call. cbn. by rewrite <- app_assoc.
Qed.

(** X15.  A move of a drag of the whole element, answered [MODIFY]: the listener is
    told to modify the element with the geometry that the drag started with,
    moved from the position where the drag started to the position of the
    event.  The geometry the element has by now plays no part, and the
    geometry and position of the drag stay as they are for the next move. *)
Theorem onTouchEvent_move_element (w : World) (mapRenderer : MapRenderer)
    (projectionSurface : ProjectionSurface) (selectedElement : ElementPtr)
    (listener : VectorEditEventListener) (screenPos1 screenPos2 : ScreenPos)
    (results : RayIntersections) :
  getMapRenderer (layer w) = Some mapRenderer →
  getProjectionSurface mapRenderer = Some projectionSurface →
  norm_isnan (screenToWorld (getViewState mapRenderer) screenPos1) = false →
  _selectedVectorElement (layer w) = Some selectedElement →
  _overlayDragStarted (layer w) = true →
  _overlayDragMode (layer w) = VECTOR_ELEMENT_DRAG_MODE_ELEMENT →
  _vectorEditEventListener (layer w) = Some listener →
  let dragInfo := dragInfoOf selectedElement VECTOR_ELEMENT_DRAG_MODE_ELEMENT mapRenderer
                    projectionSurface screenPos1 in
  onDragMove listener dragInfo = VECTOR_ELEMENT_DRAG_RESULT_MODIFY →
  let moved :=
    if bool_decide (_overlayDragGeometryPos (layer w) ≠ getMapPos dragInfo)
    then updateGeometryPoints (_overlayDragGeometry (layer w)) (getViewState mapRenderer)
           (_overlayDragGeometryPos (layer w)) (getMapPos dragInfo)
    else _overlayDragGeometry (layer w) in
  ∃ w',
    onTouchEvent false ACTION_MOVE screenPos1 screenPos2 results w = Some (true, w')
    ∧ calls w' = calls w ++ [CallOnDragMove dragInfo;
                             CallOnElementModify selectedElement moved; CallRedraw]
    ∧ elements w' = onElementModify listener selectedElement moved (elements w)
    ∧ _overlayDragGeometry (layer w') = _overlayDragGeometry (layer w)
    ∧ _overlayDragGeometryPos (layer w') = _overlayDragGeometryPos (layer w)
    ∧ _overlayDragStarted (layer w') = true.
Proof.
  intros Hmr Hps Hnan Hsel Hstarted Hmode Hl dragInfo Hmodify moved.
  unfold onTouchEvent, bind, gets, getSelectedVectorElement.
  rewrite Hmr, Hps, Hnan. unfold gets. rewrite Hsel, Hstarted, Hl. cbn [negb].
  rewrite Hmode.
  unfold askListener, bind, call. unfold ret at 1. cbn [layer elements next_point calls].
  fold dragInfo. unfold dragInfoOf in dragInfo. fold dragInfo. rewrite Hmodify.
  unfold dragModify, bind, gets. cbn [layer]. rewrite Hmode.
  match goal with
  | |- context [updateElementGeometry _ ?g ?v ?p0 ?p1 ?w1] =>
      destruct (updateElementGeometry_notifies selectedElement g v p0 p1 listener w1)
        as (ov & next & ->); [exact Hl|]
  end.
  fold moved. eexists. split; [reflexivity|]. cbn. rewrite <- app_assoc.
  by repeat split.
Qed.


(** ** Edits of a vertex *)

(** [std::find] gives the first index that holds the drag point. *)
Lemma findOverlayPoint_first (overlayPoints : list Point) (n : nat) (dragged : Point) :
  overlayPoints !! n = Some dragged →
  (∀ j q, (j < n)%nat → overlayPoints !! j = Some q → pt_addr q ≠ pt_addr dragged) →
  findOverlayPoint overlayPoints (Some (pt_addr dragged)) = Some n.
Proof.
  intros Hn Hfirst. unfold findOverlayPoint.
  assert (Hfind : list_find (λ p, Some (pt_addr p) = Some (pt_addr dragged)) overlayPoints
                  = Some (n, dragged)).
  { apply list_find_Some. split; [done|]. split; [done|].
    intros j q Hq Hj [= Heq]. by eapply Hfirst. }
  by rewrite Hfind.
Qed.

(** The tail of a point edit that left a geometry, with a listener. *)
Lemma commitElementPoint_modifies (element : ElementPtr) (geometry : Geometry)
    (listener : VectorEditEventListener) (w : World) :
  _vectorEditEventListener (layer w) = Some listener →
  ∃ overlayPoints next,
    commitElementPoint element (Some geometry) w
    = Some (tt, {| layer := set_overlayPoints overlayPoints (layer w);
                   elements := onElementModify listener element (Some geometry) (elements w);
                   next_point := next;
                   calls := calls w ++ [CallOnElementModify element (Some geometry);
                                        CallRedraw] |}).
Proof.
  intros Hl. unfold commitElementPoint.
  unfold bind at 1. unfold bind at 1. unfold notifyElementModify, bind at 1, gets at 1.
  rewrite Hl.
  unfold bind at 1, call at 1, modify_elements at 1. cbn [layer elements next_point calls].
  unfold ret at 1. unfold bind at 1.
  match goal with
  | |- context [syncElementOverlayPoints ?e ?w1] =>
      destruct (syncElementOverlayPoints_runs e w1) as (w2 & -> & He & Hc & ov & Hl2)
  end.
  cbn [layer elements calls] in He, Hc, Hl2.
  exists ov, (next_point w2). unfold redraw, call. rewrite He, Hc, Hl2, <- app_assoc.
  reflexivity.
Qed.

(** The tail of a point edit that left no geometry, with a listener. *)
Lemma commitElementPoint_deletes (element : ElementPtr) (listener : VectorEditEventListener)
    (w : World) :
  _vectorEditEventListener (layer w) = Some listener →
  commitElementPoint element None w
  = Some (tt, {| layer := set_overlayPoints [] (layer w);
                 elements := onElementDelete listener element (elements w);
                 next_point := next_point w;
                 calls := calls w ++ [CallOnElementDelete element; CallRedraw] |}).
Proof.
  intros Hl.
  unfold commitElementPoint, notifyElementDelete, syncElementOverlayPoints, redraw,
    bind, gets, call, modify_elements, modify, ret.
  rewrite Hl. cbn. by rewrite <- app_assoc.
Qed.

(** X16.  A move of a drag of a real handle, answered [MODIFY].  The drag point is
    the overlay point at index [n], which is the handle of vertex [k] of the
    line, or of the polygon ring, that the selected element has.  The listener
    is told to modify the element with the geometry in which vertex [k] is at
    the position of the event, and the drag goes on with the same drag
    point. *)
Theorem onTouchEvent_move_vertex (w : World) (mapRenderer : MapRenderer)
    (projectionSurface : ProjectionSurface) (selectedElement : ElementPtr)
    (listener : VectorEditEventListener) (screenPos1 screenPos2 : ScreenPos)
    (results : RayIntersections) (host : Host) (vertices : list MapPos) (k n : nat)
    (dragged : Point) :
  getMapRenderer (layer w) = Some mapRenderer →
  getProjectionSurface mapRenderer = Some projectionSurface →
  norm_isnan (screenToWorld (getViewState mapRenderer) screenPos1) = false →
  _selectedVectorElement (layer w) = Some selectedElement →
  _overlayDragStarted (layer w) = true →
  _overlayDragMode (layer w) = VECTOR_ELEMENT_DRAG_MODE_VERTEX →
  _vectorEditEventListener (layer w) = Some listener →
  _overlayDragPoint (layer w) = Some (pt_addr dragged) →
  _overlayPoints (layer w) !! n = Some dragged →
  (∀ j q, (j < n)%nat → _overlayPoints (layer w) !! j = Some q →
          pt_addr q ≠ pt_addr dragged) →
  getGeometry (elements w selectedElement) = Some (hostGeometry host vertices) →
  hostFitsInt host vertices →
  Z.of_nat n = hostOffset host + 2 * Z.of_nat k →
  2 * Z.of_nat k < hostSlotCount host vertices →
  Z.of_nat n < 2 ^ 31 →
  let dragInfo := dragInfoOf selectedElement VECTOR_ELEMENT_DRAG_MODE_VERTEX mapRenderer
                    projectionSurface screenPos1 in
  onDragMove listener dragInfo = VECTOR_ELEMENT_DRAG_RESULT_MODIFY →
  let moved := hostGeometry host (replacedVertices host vertices k (getMapPos dragInfo)) in
  ∃ w',
    onTouchEvent false ACTION_MOVE screenPos1 screenPos2 results w = Some (true, w')
    ∧ calls w' = calls w ++ [CallOnDragMove dragInfo;
                             CallOnElementModify selectedElement (Some moved); CallRedraw]
    ∧ elements w' = onElementModify listener selectedElement (Some moved) (elements w)
    ∧ _overlayDragStarted (layer w') = true
    ∧ _overlayDragPoint (layer w') = Some (pt_addr dragged).
Proof.
  intros Hmr Hps Hnan Hsel Hstarted Hmode Hl Hdrag Hn Hfirst Hgeometry Hfit Hindex Hk Hint
    dragInfo Hmodify moved.
  unfold onTouchEvent, bind, gets, getSelectedVectorElement.
  rewrite Hmr, Hps, Hnan. unfold gets. rewrite Hsel, Hstarted, Hl. cbn [negb].
  rewrite Hmode, Hdrag.
  unfold askListener, bind, call. unfold ret at 1. cbn [layer elements next_point calls].
  fold dragInfo. unfold dragInfoOf in dragInfo. fold dragInfo. rewrite Hmodify.
  unfold dragModify, bind, gets. cbn [layer]. rewrite Hmode.
  unfold updateElementPoint, bind, gets, deref. cbn [layer elements].
  rewrite (findOverlayPoint_first _ n dragged Hn Hfirst). cbn beta iota. cbn [elements].
  rewrite Hgeometry.
  rewrite static_cast_int_small by lia.
  rewrite (updateGeometryPoint_even host vertices 0 (Z.of_nat n) k) by (done || lia).
  unfold ret at 1.
  match goal with
  | |- context [commitElementPoint _ (Some ?g) ?w1] =>
      destruct (commitElementPoint_modifies selectedElement g listener w1)
        as (ov & next & ->); [exact Hl|]
  end.
  fold moved. eexists. split; [reflexivity|]. cbn. rewrite <- app_assoc.
  by repeat split.
Qed.

(** X17.  [updateElementPoint] does not delete: for an element that has a geometry
    the calls it makes are none (the drag point is no overlay point), or a
    redraw (no listener), or [onElementModify] with a geometry and a redraw.
    The element is never given up. *)
Theorem updateElementPoint_never_deletes (element : ElementPtr)
    (dragPoint : option PointPtr) (mapPos : MapPos) (w w' : World) :
  is_Some (getGeometry (elements w element)) →
  updateElementPoint (Some element) dragPoint mapPos w = Some (tt, w') →
  calls w' = calls w
  ∨ calls w' = calls w ++ [CallRedraw]
  ∨ ∃ geometry, calls w' = calls w ++ [CallOnElementModify element (Some geometry);
                                       CallRedraw].
Proof.
  intros [geometry Hgeometry] Hrun. unfold updateElementPoint in Hrun.
  apply bind_Some in Hrun as (ov & w1 & [-> ->]%gets_Some & Hrun).
  destruct (findOverlayPoint _ dragPoint) as [it|]; [|left; by injection Hrun as <-].
  apply bind_Some in Hrun as (e & w1 & [= <- <-] & Hrun). rewrite Hgeometry in Hrun.
  apply bind_Some in Hrun as (r & w2 & Hupdate & Hrun).
  apply bind_Some in Hupdate as ([r' offset'] & w3 & Hupdate & [= <- <-]).
  pose proof (updateGeometryPoint_not_null _ _ _ _ _ _ _ _ Hupdate) as [geometry' ->].
  apply (mutate_returns (Update mapPos)) in Hupdate as [(He & Hc & ov & Hl) _].
  right. rewrite <- Hc. clear Hc.
  destruct (_vectorEditEventListener (layer w3)) as [listener|] eqn:Hlistener.
  - destruct (commitElementPoint_modifies element geometry' listener w3 Hlistener)
      as (ov' & next & Hcommit).
    rewrite Hcommit in Hrun. injection Hrun as <-. right. by exists geometry'.
  - left. unfold commitElementPoint, notifyElementModify in Hrun.
    unfold bind at 1 in Hrun. unfold bind at 1 in Hrun. unfold bind at 1, gets at 1 in Hrun.
    rewrite Hlistener in Hrun. unfold ret at 1 in Hrun. unfold ret at 1 in Hrun.
    unfold bind at 1 in Hrun.
    destruct (syncElementOverlayPoints_runs (Some element) w3) as (w4 & Hsync & _ & Hc & _).
    rewrite Hsync in Hrun. injection Hrun as <-. cbn. by rewrite Hc.
Qed.


(** X18.  The removal of the handle of a point, or of a handle of a vertex of a line
    of two vertices, leaves no geometry: with a listener,
    [removeElementPoint] tells it to delete the element, gives up the overlay
    points and asks for a redraw.  [onElementModify] is not called. *)
Theorem removeElementPoint_last_vertex (element : ElementPtr)
    (listener : VectorEditEventListener) (w : World) (dragged : Point) (n : nat)
    (geometry : Geometry) :
  _vectorEditEventListener (layer w) = Some listener →
  _overlayPoints (layer w) !! n = Some dragged →
  (∀ j q, (j < n)%nat → _overlayPoints (layer w) !! j = Some q →
          pt_addr q ≠ pt_addr dragged) →
  getGeometry (elements w element) = Some geometry →
  (∃ pos, geometry = PointGeometry pos ∧ n = 0%nat)
  ∨ (∃ a b, geometry = LineGeometry [a; b] ∧ (n = 0%nat ∨ n = 2%nat)) →
  removeElementPoint (Some element) (Some (pt_addr dragged)) w
  = Some (tt, {| layer := set_overlayPoints [] (layer w);
                 elements := onElementDelete listener element (elements w);
                 next_point := next_point w;
                 calls := calls w ++ [CallOnElementDelete element; CallRedraw] |}).
Proof.
  intros Hl Hn Hfirst Hgeometry Hlast.
  unfold removeElementPoint. unfold bind at 1, gets at 1.
  rewrite (findOverlayPoint_first _ n dragged Hn Hfirst).
  unfold bind at 1, deref at 1. rewrite Hgeometry.
  assert (Hnull : ∃ offset',
            removeGeometryPoint geometry 0 (static_cast_int (Z.of_nat n)) w
            = Some ((None, offset'), w)).
  { destruct Hlast as [(pos & -> & ->)|(a & b & -> & [->| ->])];
      eexists; vm_compute; reflexivity. }
  destruct Hnull as [offset' Hnull]. unfold bind at 1. unfold bind at 1. rewrite Hnull.
  unfold ret at 1. by apply commitElementPoint_deletes.
Qed.

(** ** A layer without a listener *)



(** ** Events that are not for the layer *)

(** X20.  The handler returns false and leaves the world as it is when the layer is
    gone, has no map renderer or no projection surface, when nothing is
    selected, when the action is none of pointer down, move and pointer up,
    and at a move or a pointer up while no drag is going on. *)
Theorem onTouchEvent_idle (expired : bool) (action : TouchAction)
    (screenPos1 screenPos2 : ScreenPos) (results : RayIntersections) (w : World) :
  expired = true
  ∨ getMapRenderer (layer w) = None
  ∨ (∃ mapRenderer, getMapRenderer (layer w) = Some mapRenderer
                    ∧ getProjectionSurface mapRenderer = None)
  ∨ _selectedVectorElement (layer w) = None
  ∨ action = ACTION_OTHER
  ∨ (action ≠ ACTION_POINTER_1_DOWN ∧ _overlayDragStarted (layer w) = false) →
  onTouchEvent expired action screenPos1 screenPos2 results w = Some (false, w).
Proof.
  intros Hidle. unfold onTouchEvent. destruct expired; [done|].
  unfold bind, gets, getSelectedVectorElement, ret.
  destruct (getMapRenderer (layer w)) as [mapRenderer|] eqn:Hmr; [|done].
  destruct (getProjectionSurface mapRenderer) as [projectionSurface|] eqn:Hps; [|done].
  destruct (norm_isnan _); [done|].
  unfold gets. destruct (_selectedVectorElement (layer w)) as [selectedElement|] eqn:Hsel;
    [|done].
  assert (Hrest : action = ACTION_OTHER
                  ∨ (action ≠ ACTION_POINTER_1_DOWN ∧ _overlayDragStarted (layer w) = false)).
  { destruct Hidle as [?|[?|[(mr & Hmr' & Hps')|[?|Hidle]]]]; try done. congruence. }
  destruct Hrest as [->|[Haction Hstarted]]; [done|].
  destruct action; try done; by rewrite Hstarted.
Qed.

(** ** Selection *)

(** X21.  The protocol of a change of selection on a layer with a listener: the
    listener hears first that the earlier selection is deselected, if there
    was one, then it is asked about the new element, if there is one, and
    about the three styles when it accepts; the refresh comes last.  The
    new element is selected with the styles the listener gave when the
    listener accepts; otherwise nothing is selected and the styles are null.
    The element store is not touched. *)
Theorem setSelectedVectorElement_calls (element : option ElementPtr)
    (listener : VectorEditEventListener) (w : World) :
  _vectorEditEventListener (layer w) = Some listener →
  element ≠ _selectedVectorElement (layer w) →
  let accepted := match element with
                  | Some e => onElementSelect listener e
                  | None => false
                  end in
  ∃ w',
    setSelectedVectorElement element w = Some (tt, w')
    ∧ calls w'
      = calls w
        ++ match _selectedVectorElement (layer w) with
           | Some old => [CallOnElementDeselected old]
           | None => []
           end
        ++ match element with
           | Some e => selectCalls listener e
           | None => []
           end
        ++ [CallRefresh]
    ∧ _selectedVectorElement (layer w') = (if accepted then element else None)
    ∧ (∀ e, element = Some e →
        _overlayStyleNormal (layer w')
        = (if accepted
           then onSelectDragPointStyle listener e VECTOR_ELEMENT_DRAG_POINT_STYLE_NORMAL
           else None)
        ∧ _overlayStyleVirtual (layer w')
          = (if accepted
             then onSelectDragPointStyle listener e VECTOR_ELEMENT_DRAG_POINT_STYLE_VIRTUAL
             else None)
        ∧ _overlayStyleSelected (layer w')
          = (if accepted
             then onSelectDragPointStyle listener e VECTOR_ELEMENT_DRAG_POINT_STYLE_SELECTED
             else None))
    ∧ elements w' = elements w.
Proof.
  intros Hl Hnew accepted. unfold setSelectedVectorElement.
  unfold bind at 1, gets at 1. rewrite bool_decide_false by done.
  unfold bind, modify, gets, refresh, call, ret. cbn. rewrite Hl.
  destruct (_selectedVectorElement (layer w)) as [old|];
    destruct element as [e|]; unfold accepted, selectCalls; cbn;
    try destruct (onElementSelect listener e); cbn;
    (eexists; split; [reflexivity|]); cbn; rewrite <- ?app_assoc; cbn;
    (split; [done|]); (split; [done|]); (split; [|done]).
  all: try by intros e' [= <-].
  all: by intros e' [=].
Qed.

(** X22.  Selecting the same element twice.  After a selection that the listener
    accepted, the second call does nothing: no call is made and the world is
    the same.  After a selection that the listener refused nothing is
    selected, and the second call asks the listener again. *)
Theorem setSelectedVectorElement_twice (element : ElementPtr)
    (listener : VectorEditEventListener) (w : World) :
  _vectorEditEventListener (layer w) = Some listener →
  _selectedVectorElement (layer w) ≠ Some element →
  ∃ w1 w2,
    setSelectedVectorElement (Some element) w = Some (tt, w1)
    ∧ setSelectedVectorElement (Some element) w1 = Some (tt, w2)
    ∧ (onElementSelect listener element = true → w2 = w1)
    ∧ (onElementSelect listener element = false →
       calls w2 = calls w1 ++ [CallOnElementSelect element; CallRefresh]).
Proof.
  intros Hl Hnew.
  assert (Hfirst : ∃ w1,
            setSelectedVectorElement (Some element) w = Some (tt, w1)
            ∧ _vectorEditEventListener (layer w1) = Some listener
            ∧ _selectedVectorElement (layer w1)
              = (if onElementSelect listener element then Some element else None)).
  { unfold setSelectedVectorElement.
    unfold bind at 1, gets at 1. rewrite bool_decide_false by congruence.
    unfold bind, modify, gets, refresh, call, ret. cbn. rewrite Hl.
    destruct (_selectedVectorElement (layer w)); destruct (onElementSelect listener element);
      cbn; by eexists. }
  destruct Hfirst as (w1 & Hrun1 & Hl1 & Hsel1). exists w1.
  destruct (onElementSelect listener element) eqn:Haccept.
  - exists w1. split; [done|]. split; [|done].
    unfold setSelectedVectorElement. unfold bind at 1, gets at 1.
    by rewrite Hsel1, bool_decide_true.
  - unfold setSelectedVectorElement at 2.
    unfold bind at 1, gets at 1. rewrite Hsel1, bool_decide_false by done.
    unfold bind, modify, gets, refresh, call, ret. cbn. rewrite Hl1, Haccept.
    eexists. split; [done|]. split; [reflexivity|]. split; [done|]. intros _. cbn.
    by rewrite <- app_assoc.
Qed.

(** ** Elements taken for the same *)

(** X23.  [IsSameElement] on the objects of a store is an equivalence: every
    pointer, null or not, is the same as itself, and the relation is
    symmetric and transitive.  Two different objects are the same element
    exactly when they have the same id and this id is not -1. *)
Theorem IsSameElement_equivalence (store : ElementStore) :
  (∀ e, IsSameElement store e e = true)
  ∧ (∀ e1 e2, IsSameElement store e1 e2 = IsSameElement store e2 e1)
  ∧ (∀ e1 e2 e3, IsSameElement store e1 e2 = true → IsSameElement store e2 e3 = true →
                 IsSameElement store e1 e3 = true)
  ∧ (∀ e1 e2 : ElementPtr,
       IsSameElement store (Some e1) (Some e2) = true
       ↔ e1 = e2 ∨ (getId (store e1) = getId (store e2) ∧ getId (store e1) ≠ -1))
  ∧ (∀ e : ElementPtr, IsSameElement store (Some e) None = false).
Proof.
  assert (Hsame : ∀ e1 e2 : ElementPtr,
            IsSameElement store (Some e1) (Some e2) = true
            ↔ e1 = e2 ∨ (getId (store e1) = getId (store e2) ∧ getId (store e1) ≠ -1)).
  { intros e1 e2. unfold IsSameElement.
    destruct (decide (e1 = e2)) as [->|Hne].
    - rewrite bool_decide_true by done. split; [by left | done].
    - rewrite bool_decide_false by done.
      destruct (decide (getId (store e1) = -1)) as [Hunset|Hset].
      + rewrite bool_decide_true by done. split; [done | by intros [?|[_ ?]]].
      + rewrite bool_decide_false by done. rewrite bool_decide_eq_true.
        split; [by right | by intros [?|[? _]]]. }
  split; [|split; [|split; [|split]]].
  - intros [e|]; [by apply Hsame; left | done].
  - intros [e1|] [e2|]; try done.
    destruct (IsSameElement store (Some e1) (Some e2)) eqn:H12;
      destruct (IsSameElement store (Some e2) (Some e1)) eqn:H21; try done.
    + apply Hsame in H12. apply not_true_iff_false in H21. exfalso. apply H21.
      apply Hsame. destruct H12 as [->|[Hid Hset]]; [by left | right].
      split; [done | congruence].
    + apply Hsame in H21. apply not_true_iff_false in H12. exfalso. apply H12.
      apply Hsame. destruct H21 as [->|[Hid Hset]]; [by left | right].
      split; [done | congruence].
  - intros [e1|] [e2|] [e3|]; try done.
    intros H12%Hsame H23%Hsame. apply Hsame.
    destruct H12 as [->|[Hid12 Hset1]]; [done|].
    destruct H23 as [->|[Hid23 Hset2]]; [by right|].
    right. split; congruence.
  - exact Hsame.
  - done.
Qed.

(** ** Removal of all elements of the data source *)

(** X24.  [onElementsRemoved] leaves nothing selected.  When something was selected,
    the overlay points, the drag state and the styles are given up and a
    listener hears that the element is deselected; a refresh is asked for in
    every case. *)
Theorem onElementsRemoved_clears_selection (w : World) :
  ∃ w',
    DataSourceListener_onElementsRemoved false w = Some (tt, w')
    ∧ _selectedVectorElement (layer w') = None
    ∧ elements w' = elements w
    ∧ match _selectedVectorElement (layer w) with
      | Some old =>
        _overlayPoints (layer w') = []
        ∧ _overlayDragPoint (layer w') = None
        ∧ _overlayDragGeometry (layer w') = None
        ∧ _overlayDragStarted (layer w') = false
        ∧ _overlayStyleNormal (layer w') = None
        ∧ _overlayStyleVirtual (layer w') = None
        ∧ _overlayStyleSelected (layer w') = None
        ∧ calls w'
          = calls w
            ++ match _vectorEditEventListener (layer w) with
               | Some _ => [CallOnElementDeselected old]
               | None => []
               end
            ++ [CallRefresh; CallRefresh]
      | None => layer w' = layer w ∧ calls w' = calls w ++ [CallRefresh]
      end.
Proof.
  unfold DataSourceListener_onElementsRemoved, setSelectedVectorElement.
  unfold bind at 1. unfold bind at 1, gets at 1.
  destruct (_selectedVectorElement (layer w)) as [old|] eqn:Hold.
  - rewrite bool_decide_false by done.
    unfold bind, modify, gets, refresh, call, ret. cbn.
    destruct (_vectorEditEventListener (layer w)); cbn;
      (eexists; split; [reflexivity|]); cbn; rewrite <- ?app_assoc; by repeat split.
  - rewrite bool_decide_true by done. unfold ret, refresh, call.
    eexists. split; [reflexivity|]. cbn. by repeat split.
Qed.

(** ** The move of a whole geometry *)

Lemma positions_Multi (geometries : list Geometry) :
  positions (MultiGeometry geometries) = concat (positions <$> geometries).
Proof. induction geometries as [|g gs IH]; [done|]. cbn in *. by rewrite IH. Qed.

Lemma sameShape_Multi (geometries geometries' : list Geometry) :
  sameShape (MultiGeometry geometries) (MultiGeometry geometries')
  ↔ Forall2 sameShape geometries geometries'.
Proof.
  revert geometries'.
  induction geometries as [|g gs IH]; intros [|g' gs']; cbn.
  - split; [constructor | done].
  - split; [done | intros Hall; inversion Hall].
  - split; [done | intros Hall; inversion Hall].
  - cbn in IH. rewrite IH. split.
    + intros [Hg Hgs]. by constructor.
    + intros Hall. by inversion Hall.
Qed.

(** X25.  [updateGeometryPoints] with a projection surface moves every position of
    the geometry by the same translation and keeps the shape of the tree: at
    every node, down to the leaves of nested collections, the kind is the
    same, every line and every ring has as many vertices as before, in their
    order, every polygon as many rings and every collection as many children;
    closed rings stay closed and sizes that fit an [int] still fit. *)
Theorem updateGeometryPoints_moves_positions (geometry : Geometry) (viewState : ViewState)
    (projectionSurface : ProjectionSurface) (mapPos0 mapPos1 : MapPos) :
  ViewState_getProjectionSurface viewState = Some projectionSurface →
  ∃ moved,
    updateGeometryPoints (Some geometry) viewState mapPos0 mapPos1 = Some moved
    ∧ positions moved = translateMapPos projectionSurface mapPos0 mapPos1 <$> positions geometry
    ∧ sameShape geometry moved
    ∧ (wellSized geometry → wellSized moved).
Proof.
  intros Hps. unfold updateGeometryPoints. rewrite Hps.
  exists (translateGeometry projectionSurface geometry mapPos0 mapPos1).
  split; [done|].
  set (f := translateMapPos projectionSurface mapPos0 mapPos1).
  assert (Hclosed : ∀ ring, keepsClosed ring (f <$> ring)).
  { intros ring. unfold keepsClosed. rewrite !closedRing_lookup.
    intros (pos & Hfront & Hback). exists (f pos).
    by rewrite length_fmap, !list_lookup_fmap, Hfront, Hback. }
  assert (Hfit : ∀ v : list MapPos, fitsInt v → fitsInt (f <$> v)).
  { intros v. unfold fitsInt, size. by rewrite length_fmap. }
  split; [|split].
  - induction geometry as [pos|poses|rings|geometries IH] using Geometry_tree_ind.
    + done.
    + done.
    + cbn [translateGeometry positions]. fold f.
      induction rings as [|ring rings IHrings]; [done|].
      cbn. rewrite fmap_app. by f_equal.
    + cbn [translateGeometry]. rewrite !positions_Multi.
      induction IH as [|g gs Hg _ IHgs]; [done|].
      cbn. rewrite fmap_app. by f_equal.
  - induction geometry as [pos|poses|rings|geometries IH] using Geometry_tree_ind.
    + done.
    + cbn. by rewrite length_map.
    + cbn [translateGeometry sameShape]. fold f.
      induction rings as [|ring rings IHrings]; constructor; [|done].
      split; [by rewrite length_map | apply Hclosed].
    + cbn [translateGeometry]. apply sameShape_Multi.
      induction IH as [|g gs Hg _ IHgs]; constructor; done.
  - induction geometry as [pos|poses|rings|geometries IH] using Geometry_tree_ind.
    + done.
    + cbn. fold f. intros [Hne Hfits]. split; [by destruct poses | by apply Hfit].
    + cbn. fold f. intros Hall. apply Forall_fmap. eapply Forall_impl; [exact Hall|].
      intros ring. apply Hfit.
    + cbn [translateGeometry]. rewrite !wellSized_Multi. intros Hall.
      apply Forall_fmap. induction IH as [|g gs Hg _ IHgs]; [done|].
      apply Forall_cons in Hall as [Hwg Hwgs]. constructor; [by apply Hg | by apply IHgs].
Qed.

End Coverage.

(** * The further properties on the sample *)

Section CoverageExamples.
#[local] Existing Instance sample.

(** ** Edits outside a geometry, and collections *)

Lemma mutate_passes_over_witness :
  let w := sampleWorld None transient sampleCollection in
  mutate Remove sampleCollection 0 14 w
  = Some ((Some sampleCollection,
           if bool_decide (14 < 0) then 0 else 0 + slotCount sampleCollection), w).
Proof.
  intros w. apply (mutate_passes_over (H := sample) Remove sampleCollection 0 14 w).
  - simpl. repeat split; try discriminate. by repeat constructor.
  - simpl. repeat split; discriminate.
  - right. by vm_compute.
Defined.

(** An empty collection is given up by [removeGeometryPoint] even when the
    index is behind it. *)
Example empty_collection_given_up :
  fst <$> removeGeometryPoint (MultiGeometry []) 0 5
            (sampleWorld None transient (MultiGeometry []))
  = Some (None, 0).
Proof. vm_compute. reflexivity. Qed.

Lemma mutate_touches_overlay_only_witness :
  let w := selected None transient (PolygonGeometry [sampleSquare]) 7%nat in
  overlayOnly w (after (mutate (Update (0, 5)) (PolygonGeometry [sampleSquare]) 0 1) w).
Proof.
  intros w.
  apply (mutate_touches_overlay_only (H := sample) (Update (H := sample) (0, 5))
           (PolygonGeometry (H := sample) [sampleSquare]) 0 1 w _
           (Some (PolygonGeometry (H := sample)
                    [[(0, 0); (0, 5); (0, 10); (10, 10); (10, 0); (0, 0)]])) 8).
  apply (returned_world (H := sample)). vm_compute. reflexivity.
Defined.

Lemma updateGeometryPoint_collection_witness :
  let w := selected None transient sampleCollection 7%nat in
  let pre := [PointGeometry (7, 7)] in
  let post := [PolygonGeometry [sampleSquare]] in
  let start := 0 + slotCount (MultiGeometry pre) in
  updateGeometryPoint (MultiGeometry (pre ++ sampleLine3 :: post)) 0 3 (4, 4) w
  = (λ '((r, offset'), w'),
       ((Some (MultiGeometry (pre ++ option_list r ++ post)), offset'), w'))
      <$> updateGeometryPoint sampleLine3 start 3 (4, 4) w
  ∧ ∀ r offset' w',
      updateGeometryPoint sampleLine3 start 3 (4, 4) w = Some ((r, offset'), w') →
      is_Some r.
Proof.
  intros w pre post.
  apply (updateGeometryPoint_collection (H := sample) pre post sampleLine3 0 3 (4, 4) w).
  - by repeat constructor.
  - split; [discriminate | reflexivity].
  - by vm_compute.
Defined.

(** The middle vertex of the line in the collection is moved; the point and
    the polygon are as before. *)
Example collection_line_vertex_moved :
  fst <$> updateGeometryPoint sampleCollection 0 3 (4, 4)
            (selected None transient sampleCollection 7%nat)
  = Some (Some (MultiGeometry [PointGeometry (7, 7);
                               LineGeometry [(0, 0); (4, 4); (10, 10)];
                               PolygonGeometry [sampleSquare]]), 6).
Proof. vm_compute. reflexivity. Qed.

Lemma removeGeometryPoint_collection_witness :
  let w := selected None transient sampleCollection 7%nat in
  let post := [sampleLine3; PolygonGeometry [sampleSquare]] in
  let start := 0 + slotCount (MultiGeometry []) in
  removeGeometryPoint (MultiGeometry ([] ++ PointGeometry (7, 7) :: post)) 0 0 w
  = (λ '((r, offset'), w'),
       ((match [] ++ option_list r ++ post with
         | [] => None
         | geometries => Some (MultiGeometry geometries)
         end, offset'), w'))
      <$> removeGeometryPoint (PointGeometry (7, 7)) start 0 w.
Proof.
  intros w post.
  apply (removeGeometryPoint_collection (H := sample) [] post
           (PointGeometry (H := sample) (7, 7)) 0 0 w).
  - constructor.
  - constructor.
  - exact I.
  - by vm_compute.
Defined.

(** The point of the collection is removed: the collection goes on without
    it.  A collection of one point goes with its point. *)
Example collection_point_removed :
  fst <$> removeGeometryPoint sampleCollection 0 0
            (selected None transient sampleCollection 7%nat)
  = Some (Some (MultiGeometry [sampleLine3; PolygonGeometry [sampleSquare]]), 1)
  ∧ fst <$> removeGeometryPoint (MultiGeometry [PointGeometry (7, 7)]) 0 0
              (selected None transient (MultiGeometry [PointGeometry (7, 7)]) 7%nat)
    = Some (None, 1).
Proof. vm_compute. split; reflexivity. Qed.

(** ** Real and virtual handles *)

Lemma updateGeometryPoint_even_replaces_witness :
  let w := selected None transient (PolygonGeometry [sampleSquare]) 7%nat in
  let moved := replacedVertices (InRing [] []) sampleSquare 0 (5, 5) in
  updateGeometryPoint (PolygonGeometry [sampleSquare]) 0 0 (5, 5) w
  = Some ((Some (PolygonGeometry [moved]), 0 + 0 + ringSlotCount sampleSquare), w)
  ∧ moved !! 0%nat = Some (5, 5)
  ∧ length moved = length sampleSquare
  ∧ (∀ j, j ≠ 0%nat →
          (InRing (H := sample) [] [] = InLine ∨ j ≠ Nat.pred (length sampleSquare)) →
          moved !! j = sampleSquare !! j).
Proof.
  intros w.
  apply (updateGeometryPoint_even_replaces (H := sample) (InRing [] []) sampleSquare
           0 0 0 (5, 5) w).
  - split; [constructor | reflexivity].
  - reflexivity.
  - reflexivity.
Defined.

(** The first vertex of the closed square takes its closing position along. *)
Example square_first_vertex_moved :
  replacedVertices (InRing [] []) sampleSquare 0 (5, 5)
  = [(5, 5); (0, 10); (10, 10); (10, 0); (5, 5)].
Proof. vm_compute. reflexivity. Qed.

Lemma removeGeometryPoint_virtual_handle_witness :
  let w := selected None transient sampleLine3 7%nat in
  removeGeometryPoint sampleLine3 0 1 w
  = Some ((Some sampleLine3, 0 + 0 + (2 * size [(0, 0); (0, 10); (10, 10)] - 1)), w).
Proof.
  intros w.
  apply (removeGeometryPoint_virtual_handle (H := sample) InLine
           [(0, 0); (0, 10); (10, 10)] 0 1 0 w).
  - reflexivity.
  - reflexivity.
  - reflexivity.
Defined.


(** ** The overlay points of a geometry *)

Lemma createGeometryOverlayPoints_handles_witness :
  let w := sampleWorld None transient sampleCollection in
  ∃ overlayPoints w',
    createGeometryOverlayPoints sampleCollection 0 [] w
    = Some ((size (handles tt sampleCollection), overlayPoints), w')
    ∧ getPos <$> overlayPoints = fst <$> handles tt sampleCollection
    ∧ (∀ (i : nat) (p : Point) (handle : MapPos * bool),
         overlayPoints !! i = Some p →
         handles tt sampleCollection !! i = Some handle →
         Some (pt_addr p) ≠ _overlayDragPoint (layer w) →
         getStyle p = if handle.2 then _overlayStyleVirtual (layer w)
                      else _overlayStyleNormal (layer w))
    ∧ overlayOnly w w'.
Proof.
  intros w.
  apply (createGeometryOverlayPoints_handles (H := sample) sampleCollection w
           sampleRenderer tt); reflexivity.
Defined.

(** The handles of the sample collection: the point, the line with the middles
    of its two segments, and the square with the middles of its four sides. *)
Example collection_handles :
  handles tt sampleCollection
  = [((7, 7), false);
     ((0, 0), false); ((0, 5), true); ((0, 10), false); ((5, 10), true); ((10, 10), false);
     ((0, 0), false); ((0, 5), true); ((0, 10), false); ((5, 10), true);
     ((10, 10), false); ((10, 5), true); ((10, 0), false); ((5, 0), true)].
Proof. vm_compute. reflexivity. Qed.

(** An open ring has a handle between its last and its first vertex too. *)
Example open_ring_handles :
  handles tt (PolygonGeometry [[(0, 0); (0, 10); (10, 10)]])
  = [((0, 0), false); ((0, 5), true); ((0, 10), false); ((5, 10), true);
     ((10, 10), false); ((5, 5), true)].
Proof. vm_compute. reflexivity. Qed.

Lemma syncElementOverlayPoints_reuses_witness :
  let w := selected None transient sampleLine3 7%nat in
  let old := _overlayPoints (layer w) in
  let hs := handles tt sampleLine3 in
  ∃ w',
    syncElementOverlayPoints (Some 7%nat) w = Some (tt, w')
    ∧ length (_overlayPoints (layer w')) = length hs
    ∧ (∀ i p, _overlayPoints (layer w') !! i = Some p →
         match old !! i with
         | Some q =>
           pt_addr p = pt_addr q
           ∧ (Some (pt_addr q) = _overlayDragPoint (layer w) →
              getStyle p = _overlayStyleSelected (layer w))
         | None => pt_addr p = (next_point w + (i - length old))%nat
         end)
    ∧ next_point w' = (next_point w + (length hs - length old))%nat
    ∧ overlayOnly w w'.
Proof.
  intros w.
  apply (syncElementOverlayPoints_reuses (H := sample) 7%nat w sampleRenderer tt sampleLine3);
    reflexivity.
Defined.

(** The line of element 7 has got a fourth vertex while its five overlay
    points were there: the rebuild keeps the five objects and makes two. *)
Example rebuild_keeps_objects :
  let w := selected None transient sampleLine3 7%nat in
  let longer := LineGeometry [(0, 0); (0, 10); (10, 10); (10, 0)] in
  let w1 := after (modify_elements (λ _, sampleStore transient longer)) w in
  pt_addr <$> _overlayPoints (layer w) = [0; 1; 2; 3; 4]%nat
  ∧ pt_addr <$> _overlayPoints (layer (after (syncElementOverlayPoints (Some 7%nat)) w1))
    = [0; 1; 2; 3; 4; 5; 6]%nat.
Proof. vm_compute. split; reflexivity. Qed.

Lemma syncElementOverlayPoints_idempotent_witness :
  let w := sampleWorld None transient sampleLine3 in
  let w1 := after (syncElementOverlayPoints (Some 7%nat)) w in
  syncElementOverlayPoints (Some 7%nat) w1 = Some (tt, w1).
Proof.
  intros w w1.
  apply (syncElementOverlayPoints_idempotent (H := sample) (Some 7%nat) w w1).
  - reflexivity.
  - by vm_compute.
  - intros a Ha. discriminate Ha.
  - apply (returned_world (H := sample)). vm_compute. reflexivity.
Defined.


(** ** The touch handler *)

Lemma onTouchEvent_keeps_configuration_witness :
  let w := vertexDragWorld VECTOR_ELEMENT_DRAG_RESULT_MODIFY VECTOR_ELEMENT_DRAG_RESULT_MODIFY in
  let w' := after (onTouchEvent false ACTION_MOVE (4, 4) (0, 0) noHits) w in
  _selectedVectorElement (layer w') = _selectedVectorElement (layer w)
  ∧ _overlayStyleNormal (layer w') = _overlayStyleNormal (layer w)
  ∧ _overlayStyleVirtual (layer w') = _overlayStyleVirtual (layer w)
  ∧ _overlayStyleSelected (layer w') = _overlayStyleSelected (layer w)
  ∧ _vectorEditEventListener (layer w') = _vectorEditEventListener (layer w)
  ∧ getMapRenderer (layer w') = getMapRenderer (layer w)
  ∧ extendsCalls w w'.
Proof.
  cbv zeta.
  apply (onTouchEvent_keeps_configuration (H := sample) false ACTION_MOVE (4, 4) (0, 0)
           noHits _ _ true).
  apply (returned_world (H := sample) (onTouchEvent (H := sample) false ACTION_MOVE (4, 4) (0, 0) noHits) true).
  vm_compute. reflexivity.
Defined.

Lemma pointerDown_element_modify_witness :
  let listener := sampleListener VECTOR_ELEMENT_DRAG_RESULT_MODIFY in
  let w := selected (Some listener) transient sampleLine3 7%nat in
  let results := {| overlayResults := []; layerResults := [8%nat; 7%nat] |} in
  let dragInfo := dragInfoOf 7%nat VECTOR_ELEMENT_DRAG_MODE_ELEMENT sampleRenderer tt (3, 3) in
  let geometry := getGeometry (elements w 7%nat) in
  ∃ w',
    onTouchEvent false ACTION_POINTER_1_DOWN (3, 3) (0, 0) results w = Some (true, w')
    ∧ calls w' = calls w ++ [CallOnDragStart dragInfo;
                             CallOnElementModify 7%nat geometry; CallRedraw]
    ∧ elements w' = onElementModify listener 7%nat geometry (elements w)
    ∧ _overlayDragStarted (layer w') = true
    ∧ _overlayDragMode (layer w') = VECTOR_ELEMENT_DRAG_MODE_ELEMENT
    ∧ _overlayDragGeometry (layer w') = geometry
    ∧ _overlayDragGeometryPos (layer w') = getMapPos dragInfo.
Proof.
  intros listener w results.
  apply (pointerDown_element_modify (H := sample) w sampleRenderer tt 7%nat listener
           (3, 3) (0, 0) results [8%nat] []).
  - reflexivity.
  - reflexivity.
  - reflexivity.
  - reflexivity.
  - reflexivity.
  - reflexivity.
  - reflexivity.
  - intros Hin. apply list_elem_of_In in Hin. simpl in Hin. destruct Hin as [Hin|[]].
    discriminate Hin.
  - reflexivity.
Defined.

Lemma pointerDown_element_delete_witness :
  let listener := sampleListener VECTOR_ELEMENT_DRAG_RESULT_DELETE in
  let w := selected (Some listener) transient sampleLine3 7%nat in
  let results := {| overlayResults := []; layerResults := [7%nat] |} in
  let dragInfo := dragInfoOf 7%nat VECTOR_ELEMENT_DRAG_MODE_ELEMENT sampleRenderer tt (3, 3) in
  ∃ w',
    onTouchEvent false ACTION_POINTER_1_DOWN (3, 3) (0, 0) results w = Some (true, w')
    ∧ calls w' = calls w ++ [CallOnDragStart dragInfo; CallOnElementDelete 7%nat; CallRedraw]
    ∧ elements w' = onElementDelete listener 7%nat (elements w)
    ∧ _overlayPoints (layer w') = []
    ∧ _selectedVectorElement (layer w') = Some 7%nat
    ∧ _overlayDragStarted (layer w') = _overlayDragStarted (layer w).
Proof.
  intros listener w results.
  apply (pointerDown_element_delete (H := sample) w sampleRenderer tt 7%nat listener
           (3, 3) (0, 0) results [] []).
  - reflexivity.
  - reflexivity.
  - reflexivity.
  - reflexivity.
  - reflexivity.
  - reflexivity.
  - reflexivity.
  - apply not_elem_of_nil.
  - reflexivity.
Defined.

Lemma onTouchEvent_up_ends_drag_witness :
  let w := vertexDragWorld VECTOR_ELEMENT_DRAG_RESULT_MODIFY VECTOR_ELEMENT_DRAG_RESULT_MODIFY in
  let w' := after (onTouchEvent false ACTION_POINTER_1_UP (4, 4) (0, 0) noHits) w in
  _overlayDragStarted (layer w') = false
  ∧ _overlayDragPoint (layer w') = None
  ∧ _overlayDragGeometry (layer w') = None
  ∧ (∃ extra, calls w' = calls w ++ extra ++ [CallRefresh])
  ∧ (true = false
     ↔ match _vectorEditEventListener (layer w) with
       | Some listener =>
         onDragEnd listener
           (dragInfoOf 7%nat (_overlayDragMode (layer w)) sampleRenderer tt (4, 4))
         = VECTOR_ELEMENT_DRAG_RESULT_IGNORE
       | None => True
       end).
Proof.
  cbv zeta.
  apply (onTouchEvent_up_ends_drag (H := sample) _ _ sampleRenderer tt 7%nat (4, 4) (0, 0)
           noHits true).
  - vm_compute. reflexivity.
  - reflexivity.
  - reflexivity.
  - vm_compute. reflexivity.
  - vm_compute. reflexivity.
  - apply (returned_world (H := sample) (onTouchEvent (H := sample) false ACTION_POINTER_1_UP (4, 4) (0, 0) noHits) true).
    vm_compute. reflexivity.
Defined.

(** The pointer goes up at (4,4) after the pointer down on the middle vertex:
    the vertex is there, the drag is over, and the last call is the
    refresh. *)
Example up_moves_vertex_and_ends_drag :
  let w := vertexDragWorld VECTOR_ELEMENT_DRAG_RESULT_MODIFY VECTOR_ELEMENT_DRAG_RESULT_MODIFY in
  let w' := after (onTouchEvent false ACTION_POINTER_1_UP (4, 4) (0, 0) noHits) w in
  getGeometry (elements w' 7%nat) = Some (LineGeometry [(0, 0); (4, 4); (10, 10)])
  ∧ _overlayDragStarted (layer w') = false
  ∧ last (calls w') = Some CallRefresh.
Proof. vm_compute. repeat split; reflexivity. Qed.

Lemma onTouchEvent_move_ignore_stop_witness :
  let w := vertexDragWorld VECTOR_ELEMENT_DRAG_RESULT_STOP VECTOR_ELEMENT_DRAG_RESULT_STOP in
  let listener := phasedListener VECTOR_ELEMENT_DRAG_RESULT_MODIFY
                    VECTOR_ELEMENT_DRAG_RESULT_STOP VECTOR_ELEMENT_DRAG_RESULT_STOP in
  let dragInfo := dragInfoOf 7%nat (_overlayDragMode (layer w)) sampleRenderer tt (4, 4) in
  (onDragMove listener dragInfo = VECTOR_ELEMENT_DRAG_RESULT_IGNORE →
   onTouchEvent false ACTION_MOVE (4, 4) (0, 0) noHits w
   = Some (false, {| layer := layer w; elements := elements w;
                     next_point := next_point w;
                     calls := calls w ++ [CallOnDragMove dragInfo] |}))
  ∧ (onDragMove listener dragInfo = VECTOR_ELEMENT_DRAG_RESULT_STOP →
     onTouchEvent false ACTION_MOVE (4, 4) (0, 0) noHits w
     = Some (true,
             {| layer := set_overlayDragStarted false
                           (set_overlayDragGeometry None
                              (set_overlayDragPoint None (layer w)));
                elements := elements w; next_point := next_point w;
                calls := calls w ++ [CallOnDragMove dragInfo; CallRefresh] |})).
Proof.
  intros w listener.
  apply (onTouchEvent_move_ignore_stop (H := sample) w sampleRenderer tt 7%nat listener
           (4, 4) (0, 0) noHits).
  - vm_compute. reflexivity.
  - reflexivity.
  - reflexivity.
  - vm_compute. reflexivity.
  - vm_compute. reflexivity.
  - vm_compute. reflexivity.
Defined.

Lemma onTouchEvent_move_element_witness :
  let w := elementDragWorld VECTOR_ELEMENT_DRAG_RESULT_MODIFY VECTOR_ELEMENT_DRAG_RESULT_MODIFY in
  let listener := phasedListener VECTOR_ELEMENT_DRAG_RESULT_MODIFY
                    VECTOR_ELEMENT_DRAG_RESULT_MODIFY VECTOR_ELEMENT_DRAG_RESULT_MODIFY in
  let dragInfo := dragInfoOf 7%nat VECTOR_ELEMENT_DRAG_MODE_ELEMENT sampleRenderer tt (5, 4) in
  let moved :=
    if bool_decide (_overlayDragGeometryPos (layer w) ≠ getMapPos dragInfo)
    then updateGeometryPoints (_overlayDragGeometry (layer w)) (getViewState sampleRenderer)
           (_overlayDragGeometryPos (layer w)) (getMapPos dragInfo)
    else _overlayDragGeometry (layer w) in
  ∃ w',
    onTouchEvent false ACTION_MOVE (5, 4) (0, 0) noHits w = Some (true, w')
    ∧ calls w' = calls w ++ [CallOnDragMove dragInfo;
                             CallOnElementModify 7%nat moved; CallRedraw]
    ∧ elements w' = onElementModify listener 7%nat moved (elements w)
    ∧ _overlayDragGeometry (layer w') = _overlayDragGeometry (layer w)
    ∧ _overlayDragGeometryPos (layer w') = _overlayDragGeometryPos (layer w)
    ∧ _overlayDragStarted (layer w') = true.
Proof.
  intros w listener.
  apply (onTouchEvent_move_element (H := sample) w sampleRenderer tt 7%nat listener
           (5, 4) (0, 0) noHits).
  - vm_compute. reflexivity.
  - reflexivity.
  - reflexivity.
  - vm_compute. reflexivity.
  - vm_compute. reflexivity.
  - vm_compute. reflexivity.
  - vm_compute. reflexivity.
  - reflexivity.
Defined.

(** Two moves of the whole line, to (5,4) and then to (4,4), from the pointer
    down at (3,3): the second move puts the line where one move to (4,4) puts
    it, one to the right and one up of where it was. *)
Example element_moves_do_not_add_up :
  let w := elementDragWorld VECTOR_ELEMENT_DRAG_RESULT_MODIFY VECTOR_ELEMENT_DRAG_RESULT_MODIFY in
  let w1 := after (onTouchEvent false ACTION_MOVE (5, 4) (0, 0) noHits) w in
  let w2 := after (onTouchEvent false ACTION_MOVE (4, 4) (0, 0) noHits) w1 in
  getGeometry (elements w1 7%nat) = Some (LineGeometry [(2, 1); (2, 11); (12, 11)])
  ∧ getGeometry (elements w2 7%nat) = Some (LineGeometry [(1, 1); (1, 11); (11, 11)]).
Proof. vm_compute. split; reflexivity. Qed.

Lemma onTouchEvent_move_vertex_witness :
  let w := vertexDragWorld VECTOR_ELEMENT_DRAG_RESULT_MODIFY VECTOR_ELEMENT_DRAG_RESULT_MODIFY in
  let listener := phasedListener VECTOR_ELEMENT_DRAG_RESULT_MODIFY
                    VECTOR_ELEMENT_DRAG_RESULT_MODIFY VECTOR_ELEMENT_DRAG_RESULT_MODIFY in
  let dragInfo := dragInfoOf 7%nat VECTOR_ELEMENT_DRAG_MODE_VERTEX sampleRenderer tt (4, 4) in
  let moved := hostGeometry InLine
                 (replacedVertices InLine [(0, 0); (0, 10); (10, 10)] 1 (getMapPos dragInfo)) in
  ∃ w',
    onTouchEvent false ACTION_MOVE (4, 4) (0, 0) noHits w = Some (true, w')
    ∧ calls w' = calls w ++ [CallOnDragMove dragInfo;
                             CallOnElementModify 7%nat (Some moved); CallRedraw]
    ∧ elements w' = onElementModify listener 7%nat (Some moved) (elements w)
    ∧ _overlayDragStarted (layer w') = true
    ∧ _overlayDragPoint (layer w')
      = Some (pt_addr (@Build_Point sample 2 (0, 10) (Some 0%nat))).
Proof.
  intros w listener.
  apply (onTouchEvent_move_vertex (H := sample) w sampleRenderer tt 7%nat listener
           (4, 4) (0, 0) noHits InLine [(0, 0); (0, 10); (10, 10)] 1 2
           (@Build_Point sample 2 (0, 10) (Some 0%nat))).
  - vm_compute. reflexivity.
  - reflexivity.
  - reflexivity.
  - vm_compute. reflexivity.
  - vm_compute. reflexivity.
  - vm_compute. reflexivity.
  - vm_compute. reflexivity.
  - vm_compute. reflexivity.
  - vm_compute. reflexivity.
  - intros j q Hj Hq.
    assert (Hcases : j = 0%nat ∨ j = 1%nat) by lia.
    destruct Hcases as [-> | ->]; vm_compute in Hq; injection Hq as <-; discriminate.
  - vm_compute. reflexivity.
  - reflexivity.
  - reflexivity.
  - reflexivity.
  - reflexivity.
  - reflexivity.
Defined.

Lemma updateElementPoint_never_deletes_witness :
  let w := selected (Some (sampleListener VECTOR_ELEMENT_DRAG_RESULT_MODIFY)) transient
             sampleLine3 7%nat in
  let w' := after (updateElementPoint (Some 7%nat) (Some 2%nat) (4, 4)) w in
  calls w' = calls w
  ∨ calls w' = calls w ++ [CallRedraw]
  ∨ ∃ geometry, calls w' = calls w ++ [CallOnElementModify 7%nat (Some geometry); CallRedraw].
Proof.
  cbv zeta.
  apply (updateElementPoint_never_deletes (H := sample) 7%nat (Some 2%nat) (4, 4)).
  - exists sampleLine3. vm_compute. reflexivity.
  - apply (returned_world (H := sample) (updateElementPoint (H := sample) (Some 7%nat) (Some 2%nat) (4, 4)) tt).
    vm_compute. reflexivity.
Defined.

Lemma removeElementPoint_last_vertex_witness :
  let listener := sampleListener VECTOR_ELEMENT_DRAG_RESULT_DELETE in
  let w := selected (Some listener) transient sampleLine2 7%nat in
  removeElementPoint (Some 7%nat)
    (Some (pt_addr (@Build_Point sample 0 (0, 0) (Some 0%nat)))) w
  = Some (tt, {| layer := set_overlayPoints [] (layer w);
                 elements := onElementDelete listener 7%nat (elements w);
                 next_point := next_point w;
                 calls := calls w ++ [CallOnElementDelete 7%nat; CallRedraw] |}).
Proof.
  intros listener w.
  apply (removeElementPoint_last_vertex (H := sample) 7%nat listener w
           (@Build_Point sample 0 (0, 0) (Some 0%nat)) 0 sampleLine2).
  - reflexivity.
  - reflexivity.
  - intros j q Hj. lia.
  - reflexivity.
  - right. exists (0, 0), (0, 10). split; [reflexivity | by left].
Defined.


(** A layer that lost its listener while element 7 was selected.  A pointer
    down on a handle and on the element asks nobody and starts no drag; the
    pointer up of a drag that was going on ends the drag with a refresh and
    moves nothing. *)
Example unheard_answers_are_ignored :
  let down := unheard (selected (Some (sampleListener VECTOR_ELEMENT_DRAG_RESULT_MODIFY))
                         transient sampleLine3 7%nat) in
  let up := unheard (vertexDragWorld VECTOR_ELEMENT_DRAG_RESULT_MODIFY
                       VECTOR_ELEMENT_DRAG_RESULT_MODIFY) in
  observed (onTouchEvent false ACTION_POINTER_1_DOWN (3, 3) (0, 0)
              {| overlayResults := [2%nat]; layerResults := [7%nat] |} down)
  = Some (false, calls down, getGeometry (elements down 7%nat),
          _overlayPoints (layer down), None, false)
  ∧ observed (onTouchEvent false ACTION_POINTER_1_UP (4, 4) (0, 0) noHits up)
    = Some (false, calls up ++ [CallRefresh], getGeometry (elements up 7%nat),
            _overlayPoints (layer up), None, false).
Proof. cbv zeta. split; vm_compute; reflexivity. Qed.

Lemma onTouchEvent_idle_witness :
  let w := selected (Some (sampleListener VECTOR_ELEMENT_DRAG_RESULT_MODIFY)) transient
             sampleLine3 7%nat in
  onTouchEvent false ACTION_MOVE (4, 4) (0, 0) noHits w = Some (false, w).
Proof.
  intros w.
  apply (onTouchEvent_idle (H := sample) false ACTION_MOVE (4, 4) (0, 0) noHits w).
  do 5 right. split; [discriminate | reflexivity].
Defined.

(** ** Selection *)

Lemma setSelectedVectorElement_calls_witness :
  let listener := sampleListener VECTOR_ELEMENT_DRAG_RESULT_IGNORE in
  let w := selected (Some listener) transient sampleLine3 7%nat in
  let accepted := onElementSelect listener 8%nat in
  ∃ w',
    setSelectedVectorElement (Some 8%nat) w = Some (tt, w')
    ∧ calls w'
      = calls w
        ++ match _selectedVectorElement (layer w) with
           | Some old => [CallOnElementDeselected old]
           | None => []
           end
        ++ selectCalls listener 8%nat
        ++ [CallRefresh]
    ∧ _selectedVectorElement (layer w') = (if accepted then Some 8%nat else None)
    ∧ (∀ e, Some 8%nat = Some e →
        _overlayStyleNormal (layer w')
        = (if accepted
           then onSelectDragPointStyle listener e VECTOR_ELEMENT_DRAG_POINT_STYLE_NORMAL
           else None)
        ∧ _overlayStyleVirtual (layer w')
          = (if accepted
             then onSelectDragPointStyle listener e VECTOR_ELEMENT_DRAG_POINT_STYLE_VIRTUAL
             else None)
        ∧ _overlayStyleSelected (layer w')
          = (if accepted
             then onSelectDragPointStyle listener e VECTOR_ELEMENT_DRAG_POINT_STYLE_SELECTED
             else None))
    ∧ elements w' = elements w.
Proof.
  intros listener w.
  apply (setSelectedVectorElement_calls (H := sample) (Some 8%nat) listener w).
  - reflexivity.
  - by vm_compute.
Defined.

(** Element 8 is selected while element 7 is: the listener hears of element 7
    first. *)
Example deselected_before_selected :
  let w := selected (Some (sampleListener VECTOR_ELEMENT_DRAG_RESULT_IGNORE)) transient
             sampleLine3 7%nat in
  drop (length (calls w)) (calls (after (setSelectedVectorElement (Some 8%nat)) w))
  = [CallOnElementDeselected 7%nat; CallOnElementSelect 8%nat;
     CallOnSelectDragPointStyle 8%nat VECTOR_ELEMENT_DRAG_POINT_STYLE_NORMAL;
     CallOnSelectDragPointStyle 8%nat VECTOR_ELEMENT_DRAG_POINT_STYLE_VIRTUAL;
     CallOnSelectDragPointStyle 8%nat VECTOR_ELEMENT_DRAG_POINT_STYLE_SELECTED;
     CallRefresh].
Proof. vm_compute. reflexivity. Qed.

Lemma setSelectedVectorElement_twice_witness :
  let listener := sampleListener VECTOR_ELEMENT_DRAG_RESULT_IGNORE in
  let w := sampleWorld (Some listener) transient sampleLine3 in
  ∃ w1 w2,
    setSelectedVectorElement (Some 7%nat) w = Some (tt, w1)
    ∧ setSelectedVectorElement (Some 7%nat) w1 = Some (tt, w2)
    ∧ (onElementSelect listener 7%nat = true → w2 = w1)
    ∧ (onElementSelect listener 7%nat = false →
       calls w2 = calls w1 ++ [CallOnElementSelect 7%nat; CallRefresh]).
Proof.
  intros listener w.
  apply (setSelectedVectorElement_twice (H := sample) 7%nat listener w).
  - reflexivity.
  - discriminate.
Defined.

(** ** The move of a whole geometry *)

Lemma updateGeometryPoints_moves_positions_witness :
  let nested := MultiGeometry [sampleCollection; sampleLine2] in
  ∃ moved,
    updateGeometryPoints (Some nested) tt (0, 0) (1, 1) = Some moved
    ∧ positions moved = translateMapPos tt (0, 0) (1, 1) <$> positions nested
    ∧ sameShape nested moved
    ∧ (wellSized nested → wellSized moved).
Proof.
  intros nested.
  apply (updateGeometryPoints_moves_positions (H := sample) nested tt tt (0, 0) (1, 1)).
  reflexivity.
Defined.

(** A collection in a collection, moved by (1, 1): every leaf keeps its kind
    and its vertices, each moved. *)
Example nested_collection_moved :
  updateGeometryPoints (Some (MultiGeometry [sampleCollection; sampleLine2])) tt (0, 0) (1, 1)
  = Some (MultiGeometry
            [MultiGeometry [PointGeometry (8, 8);
                            LineGeometry [(1, 1); (1, 11); (11, 11)];
                            PolygonGeometry [[(1, 1); (1, 11); (11, 11); (11, 1); (1, 1)]]];
             LineGeometry [(1, 1); (1, 11)]]).
Proof. vm_compute. reflexivity. Qed.

End CoverageExamples.
